(** * 3d-ct-viewer2: the slice pipeline and the volume renderer, in Rocq

    A shallow embedding of
      - [src/dicom-parser.js]: [parseDicom] and [processDicomFolder],
      - [src/dicom-parser-fixed.js]: [parseDicom], which differs from the
        first file in how its loop recovers, and [processDicomFolder] with
        its recovery pass,
      - [src/dicom-parser-robust.js]: [findPixelData],
        [findImageDimensions], [parseDicom] and [processDicomFolder],
      - the renderer: [VolumeRenderer.loadVolume], and of the fragment
        shader [sampleVolume] and [main] from the intersection with the
        volume on.

    Conventions.
      - Byte buffers are [list byte]; offsets and tag values are [Z];
        array lengths, image dimensions and indices are [nat].
      - A typed array is its element kind and the list of its elements; a
        store wraps the value into the range of the kind, and a store out of
        range is ignored, as in JavaScript.
      - A JavaScript number that the code only ever produces as an integer
        (below 2^53, where binary64 is exact) is a [Z]; the division and
        multiplication of the normalisation to 8 bits are computed on
        binary64 floats ([PrimFloat]), the number type of JavaScript.
      - The GLSL shader computes on floats whose precision the language
        leaves to the implementation; the embedding idealises them as exact
        rationals [Q], and a division by zero, whose result GLSL leaves
        undefined, has no result ([None]).
      - A `throw` is the [Throw] constructor of [Result]. A call that
        spreads an array passes one argument per element; the number of
        arguments an engine accepts is bounded, and the bound is a parameter
        of the embedding ([maxArguments]): beyond it the call throws a
        RangeError. The size an allocation may have is not bounded. *)

From stdpp Require Import base list strings sorting.
From Stdlib Require Import ZArith QArith Qround Lia Lqa.
From Stdlib Require Import Strings.Byte Strings.Ascii.
From Stdlib Require Import Floats.PrimFloat Floats.FloatOps Floats.SpecFloat.
From Stdlib Require Import Numbers.Cyclic.Int63.Uint63.

Local Open Scope nat_scope.

(** ** JavaScript values used by the code *)

Module JS.

(** The outcome of a call that may `throw`. *)
Inductive Result (A : Type) : Type :=
| Ok (a : A)
| Throw (message : string).
Global Arguments Ok {A} a.
Global Arguments Throw {A} message.

Inductive ArrayKind : Type := Uint8Array | Uint16Array | Int16Array.

Global Instance ArrayKind_eq_dec : EqDecision ArrayKind.
Proof. solve_decision. Defined.

(** Conversion of an integer to the element type of a typed array. *)
Definition wrap (k : ArrayKind) (z : Z) : Z :=
  match k with
  | Uint8Array => (z mod 256)%Z
  | Uint16Array => (z mod 65536)%Z
  | Int16Array => ((z + 32768) mod 65536 - 32768)%Z
  end.

Record TypedArray : Type := mkTypedArray {
  kind : ArrayKind;
  elems : list Z
}.

(** [new K(n)]: [n] zeros. *)
Definition newArray (k : ArrayKind) (n : nat) : TypedArray :=
  mkTypedArray k (replicate n 0%Z).

(** [a[i] = v]. *)
Definition store (a : TypedArray) (i : nat) (v : Z) : TypedArray :=
  mkTypedArray (kind a) (<[i := wrap (kind a) v]> (elems a)).

(** [a[i]] for an index in range (0 stands for `undefined` otherwise; the
    loops below only read in range). *)
Definition load (a : TypedArray) (i : nat) : Z := nth i (elems a) 0%Z.

Definition alength (a : TypedArray) : nat := length (elems a).

(** [a.slice(0, n)] for [n >= 0]: a new array of the same kind. *)
Definition slice0 (a : TypedArray) (n : nat) : TypedArray :=
  mkTypedArray (kind a) (take n (elems a)).

(** [target.set(source)]: copies [source] to the start of [target],
    converting each element; a source longer than the target is a
    RangeError. *)
Definition set (target source : TypedArray) : option TypedArray :=
  if decide (alength source <= alength target) then
    Some (foldl (fun t i => store t i (load source i)) target
                (seq 0 (alength source)))
  else None.

(** *** Numbers (binary64) *)

Definition number := float.

(** An integer below 2^53 in absolute value, as a number (exact). *)
Definition ofZ (z : Z) : number :=
  if (z <? 0)%Z then PrimFloat.opp (PrimFloat.of_uint63 (Uint63.of_Z (- z)))
  else PrimFloat.of_uint63 (Uint63.of_Z z).

(** [x || 1] on an integer-valued number. *)
Definition orOne (z : Z) : Z := if (z =? 0)%Z then 1%Z else z.

(** [Math.round]: the nearest integer, ties towards +infinity; computed
    exactly from the mantissa and exponent. *)
Definition Math_round (x : number) : number :=
  match Prim2SF x with
  | S754_finite s m e =>
      if (0 <=? e)%Z then x
      else
        let n := if s then Z.neg m else Z.pos m in
        ofZ ((2 * n + 2 ^ (- e)) / 2 ^ (1 - e))%Z
  | _ => x
  end.

(** The conversion applied by a store into a [Uint8Array]: truncate towards
    zero, then modulo 256; NaN and the infinities give 0. *)
Definition ToUint8 (x : number) : Z :=
  match Prim2SF x with
  | S754_finite s m e =>
      let t := if (0 <=? e)%Z then (Z.pos m * 2 ^ e)%Z
               else (Z.pos m / 2 ^ (- e))%Z in
      ((if s then - t else t) mod 256)%Z
  | _ => 0%Z
  end.

(** [Math.max(x, ...xs)] and [Math.min(x, ...xs)] over integers. *)
Definition maxList (x : Z) (xs : list Z) : Z := foldl Z.max x xs.
Definition minList (x : Z) (xs : list Z) : Z := foldl Z.min x xs.

(** [Math.max] and [Math.min] of any number of integers; without an
    argument they are -Infinity and Infinity ([None]). *)
Definition Math_max (xs : list Z) : option Z :=
  match xs with
  | [] => None
  | x :: xs => Some (maxList x xs)
  end.
Definition Math_min (xs : list Z) : option Z :=
  match xs with
  | [] => None
  | x :: xs => Some (minList x xs)
  end.

(** The rest of a computation after a call that may throw. *)
Definition bind {A B : Type} (r : Result A) (f : A -> Result B) : Result B :=
  match r with
  | Ok a => f a
  | Throw message => Throw message
  end.

(** [f(...xs)], a call with one argument per element of [xs]: an engine
    that accepts at most [maxArguments] arguments in a call throws a
    RangeError when there are more. *)
Definition spread {A : Type} (maxArguments : nat) (f : list Z -> A)
    (xs : list Z) : Result A :=
  if decide (length xs <= maxArguments) then Ok (f xs)
  else Throw "RangeError".

(** [Array.prototype.sort(compare)]: the sort is stable, and for a
    consistent comparator its result is the one of a stable insertion
    sort. An element moves in front of the first later element it is not
    greater than. *)
Section Sort.
Context {A : Type} (compare : A -> A -> Z).

Fixpoint insertSorted (x : A) (l : list A) : list A :=
  match l with
  | [] => [x]
  | y :: l' =>
      if (compare x y <=? 0)%Z then x :: y :: l'
      else y :: insertSorted x l'
  end.

Definition sort (l : list A) : list A := foldr insertSorted [] l.
End Sort.

End JS.

Import JS.

(** ** Data shared by the three parser files *)

Module Dicom.

(** A value of WindowCenter or WindowWidth: a fixed-size integer, or, for
    any other length, the first numeric token of the backslash-separated
    text (kept as the text; no consumer in these files reads it). *)
Inductive WindowValue : Type :=
| WInt (z : Z)
| WFirstNumberOf (text : string).

(** The [metadata] object: the keys the parser may write. A key that was
    never written is [None] (`undefined`). *)
Record Metadata : Type := mkMetadata {
  md00200013 : option Z;            (* InstanceNumber *)
  md00280010 : option Z;            (* Rows *)
  md00280011 : option Z;            (* Columns *)
  md00280100 : option Z;            (* BitsAllocated *)
  md00280103 : option Z;            (* PixelRepresentation *)
  md00281050 : option WindowValue;  (* WindowCenter *)
  md00281051 : option WindowValue   (* WindowWidth *)
}.

Definition emptyMetadata : Metadata :=
  mkMetadata None None None None None None None.

(** What [parseDicom] returns. *)
Record DicomData : Type := mkDicomData {
  metadata : Metadata;
  pixelData : option TypedArray;
  rows : nat;
  columns : nat;
  bitsAllocated : Z;
  pixelRepresentation : Z
}.

(** An element of [slices]. [instanceNumber] is a number or `undefined`. *)
Record SliceRecord : Type := mkSlice {
  sdata : TypedArray;
  smetadata : Metadata;
  srows : nat;
  scolumns : nat;
  instanceNumber : option Z;
  fileName : string
}.

(** What [processDicomFolder] returns: [dimensions] is
    [[cols, rows, depth]]. *)
Record Volume : Type := mkVolume {
  data : TypedArray;
  dimensions : nat * nat * nat
}.

Record File : Type := mkFile {
  name : string;
  arrayBuffer : list byte
}.

(** [x || 0] on an integer-valued number. *)
Definition orZero (z : Z) : Z := if (z =? 0)%Z then 0%Z else z.

(** [metadata['00200013'] || 0]. *)
Definition instanceNumberOrZero (m : Metadata) : Z :=
  match md00200013 m with
  | Some z => orZero z
  | None => 0%Z
  end.

(** [a.fileName.localeCompare(b.fileName)], taken as the order of the code
    units. *)
Definition localeCompare (a b : string) : Z :=
  match String.compare a b with
  | Lt => (-1)%Z
  | Eq => 0%Z
  | Gt => 1%Z
  end.

(** *** Assembly of the volume (the same statements in the three files) *)

(** The inner loop of "Fill volume data":
    [for (i = 0; i < sliceSize && i < sliceData.length; i++)]. *)
Definition fillSlice (sliceSize z : nat) (sliceData volumeData : TypedArray)
  : TypedArray :=
  foldl (fun v i => store v (z * sliceSize + i) (load sliceData i))
        volumeData (seq 0 (sliceSize `min` alength sliceData)).

(** The outer loop: [for (z = 0; z < depth; z++)]. *)
Definition fillVolume (sliceSize : nat) (slices : list SliceRecord)
    (volumeData : TypedArray) : TypedArray :=
  foldl (fun v z =>
           match slices !! z with
           | Some s => fillSlice sliceSize z (sdata s) v
           | None => v
           end)
        volumeData (seq 0 (length slices)).

(** [Math.round(((volumeData[i] - minVal) / range) * 255)], stored into a
    [Uint8Array]. The voxel, [minVal] and [range] are integers below 2^17
    in absolute value, so the subtraction is exact; the division and the
    multiplication round to binary64. *)
Definition normalizeVoxel (minVal range : Z) (v : Z) : Z :=
  ToUint8 (Math_round
    (PrimFloat.mul (PrimFloat.div (ofZ (v - minVal)) (ofZ range))
                   (ofZ 255))).

(** "Normalize 16-bit data to 8-bit": the body of [if (is16Bit)]. The
    two calls [Math.max(...Array.from(volumeData))] and
    [Math.min(...Array.from(volumeData))] have one argument per voxel, and
    throw when the engine does not accept that many. [maxVal - minVal || 1]
    is computed on integers. (Of an empty field the two are -Infinity and
    Infinity, and the loop has nothing to write.) *)
Definition normalize (maxArguments volumeSize : nat)
    (volumeData : TypedArray) : Result TypedArray :=
  bind (spread maxArguments Math_max (elems volumeData)) (fun maxVal =>
  bind (spread maxArguments Math_min (elems volumeData)) (fun minVal =>
  Ok match maxVal, minVal with
     | Some maxVal, Some minVal =>
         let range := orOne (maxVal - minVal) in
         foldl (fun nv i =>
                  mkTypedArray (kind nv)
                    (<[i := normalizeVoxel minVal range (load volumeData i)]>
                       (elems nv)))
               (newArray Uint8Array volumeSize) (seq 0 volumeSize)
     | _, _ => newArray Uint8Array volumeSize
     end)).

Definition is16BitKind (k : ArrayKind) : bool :=
  match k with
  | Uint16Array | Int16Array => true
  | Uint8Array => false
  end.

Definition isSignedKind (k : ArrayKind) : bool :=
  match k with
  | Int16Array => true
  | _ => false
  end.

(** The unnormalised field: allocation and the fill loops. [is16] and
    [signed] are the two [slices.some(...)] tests of the file. *)
Definition assembled (is16 signed : bool) (sorted : list SliceRecord)
    (rows cols : nat) : TypedArray :=
  let depth := length sorted in
  let volumeSize := rows * cols * depth in
  let volumeData :=
    if is16 then
      if signed then newArray Int16Array volumeSize
      else newArray Uint16Array volumeSize
    else newArray Uint8Array volumeSize in
  fillVolume (rows * cols) sorted volumeData.

(** From "Create 3D volume" to the [return], on the sorted slices. *)
Definition buildVolume (maxArguments : nat) (is16 signed : bool)
    (sorted : list SliceRecord) : Result Volume :=
  match sorted with
  | [] => Throw "TypeError: slices[0] is undefined"
  | s0 :: _ =>
      let rows := srows s0 in
      let cols := scolumns s0 in
      let depth := length sorted in
      let volumeSize := rows * cols * depth in
      let volumeData := assembled is16 signed sorted rows cols in
      bind (if is16 then normalize maxArguments volumeSize volumeData
            else Ok volumeData)
        (fun volumeData => Ok (mkVolume volumeData (cols, rows, depth)))
  end.

End Dicom.

Import Dicom.

(** ** src/dicom-parser.js: [processDicomFolder] *)

Module DicomParser.

(** The body of the [try] for one file, after [parseDicom] returned
    [dicomData]: the record pushed on [slices], if any. *)
Definition acceptSlice (fileName : string) (dicomData : DicomData)
  : option SliceRecord :=
  match pixelData dicomData with
  | None => None
  | Some px =>
      if decide (0 < alength px) then
        let expectedPixels := rows dicomData * columns dicomData in
        if decide (expectedPixels <= alength px) then
          Some (mkSlice (slice0 px expectedPixels) (metadata dicomData)
                  (rows dicomData) (columns dicomData)
                  (Some (instanceNumberOrZero (metadata dicomData)))
                  fileName)
        else if decide (100 < alength px) then
          match JS.set (newArray Uint8Array expectedPixels) px with
          | Some paddedData =>
              Some (mkSlice paddedData (metadata dicomData)
                      (rows dicomData) (columns dicomData)
                      (Some (instanceNumberOrZero (metadata dicomData)))
                      fileName)
          | None => None (* the RangeError is caught: nothing is pushed *)
          end
        else None
      else None
  end.

(** The loop "Parse all DICOM files", on the outcome of [parseDicom] for
    each file in enumeration order; a file whose parse threw is skipped by
    the [catch]. *)
Definition collectSlices (parsed : list (string * Result DicomData))
  : list SliceRecord :=
  foldl (fun slices f =>
           match f.2 with
           | Ok dicomData =>
               match acceptSlice f.1 dicomData with
               | Some s => slices ++ [s]
               | None => slices
               end
           | Throw _ => slices
           end)
        [] parsed.

(** The comparator passed to [slices.sort]. *)
Definition compareSlices (a b : SliceRecord) : Z :=
  match instanceNumber a, instanceNumber b with
  | Some x, Some y => (orZero x - orZero y)%Z
  | _, _ => localeCompare (fileName a) (fileName b)
  end.

Definition is16Bit (slices : list SliceRecord) : bool :=
  existsb (fun s => is16BitKind (kind (sdata s))) slices.

Definition isSigned (slices : list SliceRecord) : bool :=
  existsb (fun s => isSignedKind (kind (sdata s))) slices.

(** [processDicomFolder] after the parse loop. *)
Definition assemble (maxArguments : nat) (slices : list SliceRecord)
  : Result Volume :=
  match slices with
  | [] => Throw "No valid DICOM files found with pixel data"
  | _ =>
      let sorted := sort compareSlices slices in
      buildVolume maxArguments (is16Bit sorted) (isSigned sorted) sorted
  end.

End DicomParser.

(** ** [DataView] reads and the tag stream of [parseDicom] *)

Module TagStream.

Local Open Scope Z_scope.

Definition byteLength (buf : list byte) : Z := Z.of_nat (length buf).

Definition byteValue (b : byte) : Z := Z.of_N (Byte.to_N b).

(** A [DataView] read past the end is a RangeError: [None]. *)
Definition getUint8 (buf : list byte) (i : Z) : option Z :=
  if i <? 0 then None else byteValue <$> buf !! Z.to_nat i.

(** Little-endian reads ([littleEndian = true] at every call site). *)
Definition getUint16 (buf : list byte) (i : Z) : option Z :=
  b0 ← getUint8 buf i; b1 ← getUint8 buf (i + 1);
  Some (b0 + 256 * b1).

Definition getUint32 (buf : list byte) (i : Z) : option Z :=
  lo ← getUint16 buf i; hi ← getUint16 buf (i + 2);
  Some (lo + 65536 * hi).

Definition getInt16 (buf : list byte) (i : Z) : option Z :=
  (fun u => if u <? 32768 then u else u - 65536) <$> getUint16 buf i.

Definition getInt32 (buf : list byte) (i : Z) : option Z :=
  (fun u => if u <? 2147483648 then u else u - 4294967296)
    <$> getUint32 buf i.

(** [arrayBuffer.slice(a, b)] for [0 <= a <= b <= byteLength]. *)
Definition sliceBytes (buf : list byte) (a b : Z) : list Z :=
  byteValue <$> take (Z.to_nat (b - a)) (drop (Z.to_nat a) buf).

(** The elements of a 16-bit view of a buffer (little-endian host). *)
Fixpoint pairsLE (bs : list Z) : list Z :=
  match bs with
  | b0 :: b1 :: rest => (b0 + 256 * b1) :: pairsLE rest
  | _ => []
  end.

(** [new Uint8Array(buffer)], [new Uint16Array(buffer)],
    [new Int16Array(buffer)]; a 16-bit view of an odd number of bytes is a
    RangeError. *)
Definition viewOf (k : ArrayKind) (bs : list Z) : option TypedArray :=
  match k with
  | Uint8Array => Some (mkTypedArray Uint8Array bs)
  | Uint16Array =>
      if Z.of_nat (length bs) mod 2 =? 0
      then Some (mkTypedArray Uint16Array (pairsLE bs)) else None
  | Int16Array =>
      if Z.of_nat (length bs) mod 2 =? 0
      then Some (mkTypedArray Int16Array (wrap Int16Array <$> pairsLE bs))
      else None
  end.

(** [v.toString(16).padStart(4, '0')] for a 16-bit [v]: four lower-case
    hexadecimal digits. *)
Definition hexDigit (d : Z) : ascii :=
  match d with
  | 0 => "0" | 1 => "1" | 2 => "2" | 3 => "3" | 4 => "4" | 5 => "5"
  | 6 => "6" | 7 => "7" | 8 => "8" | 9 => "9" | 10 => "a" | 11 => "b"
  | 12 => "c" | 13 => "d" | 14 => "e" | _ => "f"
  end%char.

Definition hex4 (v : Z) : string :=
  String (hexDigit (v / 4096))
    (String (hexDigit (v / 256 mod 16))
       (String (hexDigit (v / 16 mod 16))
          (String (hexDigit (v mod 16)) EmptyString))).

(** [String.fromCharCode] of one byte. *)
Definition fromCharCode (b : Z) : ascii := ascii_of_N (Z.to_N b).

Definition isLongVR (vr : string) : bool :=
  bool_decide (vr ∈ ["OB"; "OW"; "OF"; "SQ"; "UT"; "UN"]%string).

(** The text of a value: the bytes [valueOffset .. valueOffset +
    min(length, 100) - 1] without the NUL characters. With [bounded] the
    loop stops at the end of the buffer (dicom-parser-fixed.js); without
    it a read past the end throws. *)
Fixpoint readChars (bounded : bool) (buf : list byte) (i : Z) (n : nat)
  : option string :=
  match n with
  | O => Some EmptyString
  | S n' =>
      if bounded && (byteLength buf <=? i) then Some EmptyString
      else
        c ← getUint8 buf i;
        rest ← readChars bounded buf (i + 1) n';
        Some (if c =? 0 then rest else String (fromCharCode c) rest)
  end.

Definition readText (bounded : bool) (buf : list byte)
    (valueOffset length : Z) : option string :=
  readChars bounded buf valueOffset (Z.to_nat (Z.min length 100)).

(** [parseInt(str, 10)]: leading white space, an optional sign, then the
    longest run of decimal digits; [None] is NaN. (The integer is kept
    exact; JavaScript rounds it to a binary64 above 2^53.) *)
Definition isWhiteSpace (c : ascii) : bool :=
  bool_decide (N_of_ascii c ∈ [9; 10; 11; 12; 13; 32; 160]%N).

Fixpoint skipWhiteSpace (s : string) : string :=
  match s with
  | String c rest => if isWhiteSpace c then skipWhiteSpace rest else s
  | EmptyString => s
  end.

Definition digitValue (c : ascii) : option Z :=
  let n := Z.of_N (N_of_ascii c) in
  if (48 <=? n) && (n <=? 57) then Some (n - 48) else None.

Fixpoint leadingDigits (acc : option Z) (s : string) : option Z :=
  match s with
  | String c rest =>
      match digitValue c with
      | Some d => leadingDigits (Some (10 * default 0 acc + d)) rest
      | None => acc
      end
  | EmptyString => acc
  end.

Definition parseInt10 (s : string) : option Z :=
  match skipWhiteSpace s with
  | String "-" rest => Z.opp <$> leadingDigits None rest
  | String "+" rest => leadingDigits None rest
  | s' => leadingDigits None s'
  end.

(** The variables of [parseDicom] that the loop updates. *)
Record ParseState : Type := mkParseState {
  offset : Z;
  pmetadata : Metadata;
  ppixelData : option TypedArray;
  prows : Z;
  pcolumns : Z;
  pbitsAllocated : Z;
  ppixelRepresentation : Z
}.

Definition setOffset (st : ParseState) (o : Z) : ParseState :=
  mkParseState o (pmetadata st) (ppixelData st) (prows st) (pcolumns st)
    (pbitsAllocated st) (ppixelRepresentation st).

Definition setPixelData (st : ParseState) (px : TypedArray) : ParseState :=
  mkParseState (offset st) (pmetadata st) (Some px) (prows st) (pcolumns st)
    (pbitsAllocated st) (ppixelRepresentation st).

Definition setMetadata (st : ParseState) (m : Metadata) : ParseState :=
  mkParseState (offset st) m (ppixelData st) (prows st) (pcolumns st)
    (pbitsAllocated st) (ppixelRepresentation st).

Definition withInstanceNumber (m : Metadata) (v : Z) : Metadata :=
  mkMetadata (Some v) (md00280010 m) (md00280011 m) (md00280100 m)
    (md00280103 m) (md00281050 m) (md00281051 m).
Definition withRows (m : Metadata) (v : Z) : Metadata :=
  mkMetadata (md00200013 m) (Some v) (md00280011 m) (md00280100 m)
    (md00280103 m) (md00281050 m) (md00281051 m).
Definition withColumns (m : Metadata) (v : Z) : Metadata :=
  mkMetadata (md00200013 m) (md00280010 m) (Some v) (md00280100 m)
    (md00280103 m) (md00281050 m) (md00281051 m).
Definition withBitsAllocated (m : Metadata) (v : Z) : Metadata :=
  mkMetadata (md00200013 m) (md00280010 m) (md00280011 m) (Some v)
    (md00280103 m) (md00281050 m) (md00281051 m).
Definition withPixelRepresentation (m : Metadata) (v : Z) : Metadata :=
  mkMetadata (md00200013 m) (md00280010 m) (md00280011 m) (md00280100 m)
    (Some v) (md00281050 m) (md00281051 m).
Definition withWindowCenter (m : Metadata) (v : WindowValue) : Metadata :=
  mkMetadata (md00200013 m) (md00280010 m) (md00280011 m) (md00280100 m)
    (md00280103 m) (Some v) (md00281051 m).
Definition withWindowWidth (m : Metadata) (v : WindowValue) : Metadata :=
  mkMetadata (md00200013 m) (md00280010 m) (md00280011 m) (md00280100 m)
    (md00280103 m) (md00281050 m) (Some v).

(** The chain [if (tag === '7FE00010') ... else if (tag === '00200013')]
    for an element whose value lies inside the buffer. [None]: a statement
    threw (the variables are as before the element). *)
Definition dispatchTag (bounded : bool) (buf : list byte) (st : ParseState)
    (tag vr : string) (length valueOffset : Z) : option ParseState :=
  if String.eqb tag "7FE00010" then
    if String.eqb vr "OW" || String.eqb vr "OB" then
      let bytes := sliceBytes buf valueOffset (valueOffset + length) in
      if pbitsAllocated st =? 16 then
        if ppixelRepresentation st =? 1 then
          setPixelData st <$> viewOf Int16Array bytes
        else setPixelData st <$> viewOf Uint16Array bytes
      else setPixelData st <$> viewOf Uint8Array bytes
    else Some st
  else if String.eqb tag "00280010" then
    v ← getUint16 buf valueOffset;
    let st := setMetadata st (withRows (pmetadata st) v) in
    Some (mkParseState (offset st) (pmetadata st) (ppixelData st) v
            (pcolumns st) (pbitsAllocated st) (ppixelRepresentation st))
  else if String.eqb tag "00280011" then
    v ← getUint16 buf valueOffset;
    let st := setMetadata st (withColumns (pmetadata st) v) in
    Some (mkParseState (offset st) (pmetadata st) (ppixelData st) (prows st)
            v (pbitsAllocated st) (ppixelRepresentation st))
  else if String.eqb tag "00280100" then
    v ← getUint16 buf valueOffset;
    let st := setMetadata st (withBitsAllocated (pmetadata st) v) in
    Some (mkParseState (offset st) (pmetadata st) (ppixelData st) (prows st)
            (pcolumns st) v (ppixelRepresentation st))
  else if String.eqb tag "00280103" then
    v ← getUint16 buf valueOffset;
    let st := setMetadata st (withPixelRepresentation (pmetadata st) v) in
    Some (mkParseState (offset st) (pmetadata st) (ppixelData st) (prows st)
            (pcolumns st) (pbitsAllocated st) v)
  else if String.eqb tag "00281050" then
    v ← (if length =? 2 then WInt <$> getInt16 buf valueOffset
         else if length =? 4 then WInt <$> getInt32 buf valueOffset
         else WFirstNumberOf <$> readText bounded buf valueOffset length);
    Some (setMetadata st (withWindowCenter (pmetadata st) v))
  else if String.eqb tag "00281051" then
    v ← (if length =? 2 then WInt <$> getUint16 buf valueOffset
         else if length =? 4 then WInt <$> getUint32 buf valueOffset
         else WFirstNumberOf <$> readText bounded buf valueOffset length);
    Some (setMetadata st (withWindowWidth (pmetadata st) v))
  else if String.eqb tag "00200013" then
    v ← (if length =? 2 then getUint16 buf valueOffset
         else if length =? 4 then getUint32 buf valueOffset
         else
           (fun str => default 0 (parseInt10 str))
             <$> readText bounded buf valueOffset length);
    Some (setMetadata st (withInstanceNumber (pmetadata st) v))
  else Some st.

(** "Move to next tag" and "Align to even boundary". *)
Definition nextOffset (vr : string) (length valueOffset : Z) : Z :=
  let offset := valueOffset + length in
  if (length mod 2 =? 1) && negb (String.eqb vr "SQ")
     && negb (String.eqb vr "UT")
  then offset + 1 else offset.

(** How one pass through the [try] block ends; [offset] is the variable's
    value at that point. *)
Inductive Outcome : Type :=
| Completed (st : ParseState)
| Broke (offset : Z)
| Continued (offset : Z)
| Raised (offset : Z).

(** The result of "Determine length based on VR type". *)
Inductive Header : Type :=
| HeaderOk (length valueOffset : Z)
| HeaderBreak (offset : Z)
| HeaderRaise (offset : Z).

(** The two files differ in five places. *)
Record Policy : Type := mkPolicy {
  checkTagRoom : bool;           (* fixed: [if (offset + 8 > byteLength) break] *)
  breakBeforeGroupLength : bool; (* fixed: [else break] after the test *)
  resyncOnOverrun : bool;        (* fixed: [offset = valueOffset; continue] *)
  boundedText : bool;            (* fixed: [if (i >= byteLength) break] *)
  catchSkip : Z                  (* [offset += 4] or [offset += 16] *)
}.

Definition readLength (p : Policy) (buf : list byte) (vr : string)
    (offset : Z) : Header :=
  let len := byteLength buf in
  if isLongVR vr then
    let offset := offset + 6 in
    let afterGroupLength : Z + Header :=
      if offset + 4 <=? len then
        match getUint32 buf offset with
        | Some g => inl (if g =? 0 then offset else offset + 4)
        | None => inr (HeaderRaise offset)
        end
      else if breakBeforeGroupLength p then inr (HeaderBreak offset)
      else inl offset in
    match afterGroupLength with
    | inl offset =>
        if offset + 4 <=? len then
          match getUint32 buf offset with
          | Some length => HeaderOk length (offset + 4)
          | None => HeaderRaise offset
          end
        else HeaderBreak offset
    | inr h => h
    end
  else
    let offset := offset + 6 in
    if isLongVR vr then
      let offset := offset + 2 in
      if offset + 4 <=? len then
        match getUint32 buf offset with
        | Some length => HeaderOk length (offset + 4)
        | None => HeaderRaise offset
        end
      else HeaderBreak offset
    else
      if offset + 2 <=? len then
        match getUint16 buf offset with
        | Some length => HeaderOk length (offset + 2)
        | None => HeaderRaise offset
        end
      else HeaderBreak offset.

(** The value representation of the element at [offset]:
    [String.fromCharCode(view.getUint8(offset + 4), view.getUint8(offset + 5))]. *)
Definition vrAt (buf : list byte) (offset : Z) : option string :=
  c0 ← getUint8 buf (offset + 4); c1 ← getUint8 buf (offset + 5);
  Some (String (fromCharCode c0) (String (fromCharCode c1) EmptyString)).

(** The [try] block of one iteration. *)
Definition tryElement (p : Policy) (buf : list byte) (st : ParseState)
  : Outcome :=
  let len := byteLength buf in
  let offset := offset st in
  match getUint16 buf offset, getUint16 buf (offset + 2) with
  | Some group, Some element =>
      let tag := (hex4 group ++ hex4 element)%string in
      if checkTagRoom p && (len <? offset + 8) then Broke offset else
      match getUint8 buf (offset + 4), getUint8 buf (offset + 5) with
      | Some c0, Some c1 =>
          let vr := String (fromCharCode c0)
                      (String (fromCharCode c1) EmptyString) in
          match readLength p buf vr offset with
          | HeaderOk length valueOffset =>
              if len <? valueOffset + length then
                if resyncOnOverrun p then Continued valueOffset
                else Broke valueOffset
              else
                match dispatchTag (boundedText p) buf st tag vr length
                        valueOffset with
                | Some st' =>
                    Completed (setOffset st' (nextOffset vr length valueOffset))
                | None => Raised valueOffset
                end
          | HeaderBreak o => Broke o
          | HeaderRaise o => Raised o
          end
      | _, _ => Raised offset
      end
  | _, _ => Raised offset
  end.

(** [while (offset < arrayBuffer.byteLength - 8) { try {...} catch {...} }].
    [None]: the fuel ran out before the loop ended. *)
Fixpoint parseLoop (p : Policy) (fuel : nat) (buf : list byte)
    (st : ParseState) : option ParseState :=
  if offset st <? byteLength buf - 8 then
    match fuel with
    | O => None
    | S fuel' =>
        match tryElement p buf st with
        | Completed st' => parseLoop p fuel' buf st'
        | Broke o => Some (setOffset st o)
        | Continued o => parseLoop p fuel' buf (setOffset st o)
        | Raised o =>
            let o' := o + catchSkip p in
            if byteLength buf <=? o' then Some (setOffset st o')
            else parseLoop p fuel' buf (setOffset st o')
        end
    end
  else Some st.

(** "Skip preamble (128 bytes) and magic word ('DICM')". [None]: a read
    threw. *)
Definition startOffset (buf : list byte) : option Z :=
  if 132 <? byteLength buf then
    m0 ← getUint8 buf 128; m1 ← getUint8 buf 129;
    m2 ← getUint8 buf 130; m3 ← getUint8 buf 131;
    Some (if bool_decide ([m0; m1; m2; m3] = [68; 73; 67; 77])
          then 132 else 0)
  else Some 0.

Definition initialState (offset : Z) : ParseState :=
  mkParseState offset emptyMetadata None 0 0 8 0.

(** [Number.isInteger(Math.sqrt(n))] for an integer [0 <= n < 2^53]: the
    binary64 square root is exact on perfect squares and not an integer
    otherwise. *)
Definition isPerfectSquare (n : Z) : bool := Z.sqrt n * Z.sqrt n =? n.

End TagStream.

Import TagStream.

(** ** src/dicom-parser.js: [parseDicom] *)

Module DicomParserParse.

Local Open Scope Z_scope.

Definition policy : Policy := mkPolicy false false false false 4.

(** "If we couldn't extract dimensions from metadata, estimate them". *)
Definition estimateDimensions (st : ParseState) : Z * Z :=
  if (prows st =? 0) || (pcolumns st =? 0) then
    let totalPixels :=
      match ppixelData st with
      | Some px => Z.of_nat (alength px)
      | None => 0
      end in
    if 0 <? totalPixels then
      if isPerfectSquare totalPixels
      then (Z.sqrt totalPixels, Z.sqrt totalPixels)
      else if totalPixels =? 512 * 512 then (512, 512)
      else if totalPixels =? 256 * 256 then (256, 256)
      else if totalPixels =? 1024 * 1024 then (1024, 1024)
      else (512, 512)
    else (512, 512)
  else (prows st, pcolumns st).

Definition finish (dims : Z * Z) (st : ParseState) : DicomData :=
  mkDicomData (pmetadata st) (ppixelData st)
    (Z.to_nat dims.1) (Z.to_nat dims.2)
    (pbitsAllocated st) (ppixelRepresentation st).

(** [parseDicom(arrayBuffer)] with a bound on the iterations of the loop.
    [None]: the bound was reached. *)
Definition parseDicomFuel (fuel : nat) (arrayBuffer : list byte)
  : option (Result DicomData) :=
  match startOffset arrayBuffer with
  | None => Some (Throw "RangeError")
  | Some offset =>
      st ← parseLoop policy fuel arrayBuffer (initialState offset);
      Some (Ok (finish (estimateDimensions st) st))
  end.

(** One iteration consumes at least four bytes, so the length of the
    buffer bounds the number of iterations. *)
Definition parseDicom (arrayBuffer : list byte) : option (Result DicomData) :=
  parseDicomFuel (length arrayBuffer) arrayBuffer.

End DicomParserParse.

(** ** src/dicom-parser.js: the whole of [processDicomFolder] *)

Module DicomParserFolder.

(** [processDicomFolder(files)]; [None] only if a parse reached its
    iteration bound. *)
Definition processDicomFolder (maxArguments : nat) (files : list File)
  : option (Result Volume) :=
  parsed ← mapM (fun f =>
                   r ← DicomParserParse.parseDicom (arrayBuffer f);
                   Some (name f, r)) files;
  Some (DicomParser.assemble maxArguments (DicomParser.collectSlices parsed)).

End DicomParserFolder.

(** ** src/dicom-parser-fixed.js: [parseDicom] *)

Module DicomParserFixed.

Local Open Scope Z_scope.

Definition policy : Policy := mkPolicy true true true true 16.

Definition estimateDimensions (st : ParseState) : Z * Z :=
  if (prows st =? 0) || (pcolumns st =? 0) then
    match ppixelData st with
    | Some px =>
        let totalPixels := Z.of_nat (alength px) in
        if 0 <? totalPixels then
          if isPerfectSquare totalPixels
          then (Z.sqrt totalPixels, Z.sqrt totalPixels)
          else if totalPixels =? 512 * 512 then (512, 512)
          else if totalPixels =? 256 * 256 then (256, 256)
          else if totalPixels =? 1024 * 1024 then (1024, 1024)
          else (Z.sqrt totalPixels, Z.sqrt totalPixels + 1)
        else (512, 512)
    | None => (512, 512)
    end
  else (prows st, pcolumns st).

Definition parseDicomFuel (fuel : nat) (arrayBuffer : list byte)
  : option (Result DicomData) :=
  match startOffset arrayBuffer with
  | None => Some (Throw "RangeError")
  | Some offset =>
      st ← parseLoop policy fuel arrayBuffer (initialState offset);
      Some (Ok (DicomParserParse.finish (estimateDimensions st) st))
  end.

Definition parseDicom (arrayBuffer : list byte) : option (Result DicomData) :=
  parseDicomFuel (length arrayBuffer) arrayBuffer.

End DicomParserFixed.

(** ** src/dicom-parser-robust.js: [processDicomFolder] *)

Module DicomParserRobust.

(** The record pushed for one parsed file; [slicesLength] is
    [slices.length] at that moment, used as the instance number. *)
Definition acceptSlice (slicesLength : nat) (fileName : string)
    (dicomData : DicomData) : option SliceRecord :=
  match pixelData dicomData with
  | None => None
  | Some px =>
      if decide (0 < alength px) then
        let expectedPixels := rows dicomData * columns dicomData in
        if decide (expectedPixels <= alength px) then
          Some (mkSlice (slice0 px expectedPixels) (metadata dicomData)
                  (rows dicomData) (columns dicomData)
                  (Some (Z.of_nat slicesLength)) fileName)
        else if decide (100 < alength px) then
          match JS.set (newArray Uint8Array expectedPixels) px with
          | Some paddedData =>
              Some (mkSlice paddedData (metadata dicomData)
                      (rows dicomData) (columns dicomData)
                      (Some (Z.of_nat slicesLength)) fileName)
          | None => None
          end
        else None
      else None
  end.

Definition collectSlices (parsed : list (string * Result DicomData))
  : list SliceRecord :=
  foldl (fun slices f =>
           match f.2 with
           | Ok dicomData =>
               match acceptSlice (length slices) f.1 dicomData with
               | Some s => slices ++ [s]
               | None => slices
               end
           | Throw _ => slices
           end)
        [] parsed.

(** [commonDims] of the last resort, as (w, h); [pixels] is [w * h]. *)
Definition commonDims : list (nat * nat) :=
  [(512, 512); (256, 256); (1024, 1024); (512, 256)].

(** "Last resort: try to treat any file as a potential image". *)
Definition lastResort (files : list File) (slices : list SliceRecord)
  : list SliceRecord :=
  foldl (fun slices file =>
           let uint8Array := byteValue <$> arrayBuffer file in
           match
             List.find (fun dim => bool_decide (dim.1 * dim.2 <= length uint8Array))
                       commonDims
           with
           | Some dim =>
               slices ++
               [mkSlice
                  (mkTypedArray Uint8Array (take (dim.1 * dim.2) uint8Array))
                  emptyMetadata dim.2 dim.1
                  (Some (Z.of_nat (length slices))) (name file)]
           | None => slices
           end)
        slices files.

(** [(a.instanceNumber || 0) - (b.instanceNumber || 0)]. *)
Definition compareSlices (a b : SliceRecord) : Z :=
  (default 0 (orZero <$> instanceNumber a)
   - default 0 (orZero <$> instanceNumber b))%Z.

Definition is16Bit (slices : list SliceRecord) : bool :=
  existsb (fun s => bool_decide (kind (sdata s) = Uint16Array)) slices.

(** [processDicomFolder] after the first parse loop. *)
Definition assemble (maxArguments : nat) (files : list File)
    (slices : list SliceRecord) : Result Volume :=
  let slices :=
    match slices with
    | [] => lastResort files slices
    | _ => slices
    end in
  match slices with
  | [] =>
      Throw "No valid DICOM files found with pixel data after extensive recovery attempts"
  | _ =>
      let sorted := sort compareSlices slices in
      buildVolume maxArguments (is16Bit sorted) false sorted
  end.

(** [processDicomFolder], given the parser. *)
Definition processWith (maxArguments : nat)
    (parseDicom : list byte -> Result DicomData) (files : list File)
  : Result Volume :=
  assemble maxArguments files
    (collectSlices
       (map (fun f => (name f, parseDicom (arrayBuffer f))) files)).

End DicomParserRobust.

(** ** src/dicom-parser-robust.js: [findPixelData], [findImageDimensions]
       and [parseDicom] *)

Module DicomParserRobustParse.

Local Open Scope Z_scope.

(** [uint8Array[i]]: an index read of a typed array does not throw; out of
    range it is `undefined`, which [String.fromCharCode] and [<<] convert
    to 0. *)
Definition byteAt (buf : list byte) (i : Z) : Z := default 0 (getUint8 buf i).

(** [String.fromCharCode(uint8Array[i + 4], uint8Array[i + 5])]. *)
Definition vrOf (buf : list byte) (i : Z) : string :=
  String (fromCharCode (byteAt buf (i + 4)))
    (String (fromCharCode (byteAt buf (i + 5))) EmptyString).

(** What [findPixelData] returns when it finds the tag. *)
Record PixelDataInfo : Type := mkPixelDataInfo {
  ioffset : Z;
  ilength : Z;
  ivr : string
}.

(** The body of [if (group === 0x7FE0 && element === 0x0010)] for the tag
    at [i]. [None]: a [DataView] read threw a RangeError. *)
Definition pixelDataAt (buf : list byte) (i : Z) : option PixelDataInfo :=
  let len := byteLength buf in
  let offset := i + 6 in
  let vr := vrOf buf i in
  header ←
    (if String.eqb vr "OB" || String.eqb vr "OW" then
       tempLength ← getUint16 buf offset;
       let tempOffset := offset + 2 in
       if (tempLength =? 0) && (tempOffset + 4 <=? len) then
         let tempOffset := tempOffset + 2 in
         length ← getUint32 buf tempOffset;
         Some (length, tempOffset + 4)
       else Some (tempLength, tempOffset)
     else
       length ← getUint32 buf offset;
       Some (length, offset + 4));
  let length := header.1 in
  let dataOffset := header.2 in
  let length := if len - dataOffset <? length then len - dataOffset
                else length in
  let length := if len <? dataOffset + length then len - dataOffset
                else length in
  Some (mkPixelDataInfo dataOffset length vr).

(** [for (let i = 0; i < arrayBuffer.byteLength - 12; i++)], [n] indices
    left from [i] on. The result is `null` ([Some None]) or the
    information of the first tag found; [None]: a RangeError. *)
Fixpoint findPixelDataFrom (buf : list byte) (i : Z) (n : nat)
  : option (option PixelDataInfo) :=
  match n with
  | O => Some None
  | S n' =>
      group ← getUint16 buf i;
      element ← getUint16 buf (i + 2);
      if (group =? 32736 (* 0x7FE0 *)) && (element =? 16 (* 0x0010 *))
      then Some <$> pixelDataAt buf i
      else findPixelDataFrom buf (i + 1) n'
  end.

Definition findPixelData (arrayBuffer : list byte)
  : option (option PixelDataInfo) :=
  findPixelDataFrom arrayBuffer 0 (Z.to_nat (byteLength arrayBuffer - 12)).

(** [findImageDimensions]: the loop over [i], with [dims = (rows,
    columns)]; a later occurrence of a tag overwrites an earlier one. *)
Fixpoint findImageDimensionsFrom (buf : list byte) (i : Z) (n : nat)
    (dims : Z * Z) : option (Z * Z) :=
  match n with
  | O => Some dims
  | S n' =>
      group ← getUint16 buf i;
      element ← getUint16 buf (i + 2);
      dims ←
        (if group =? 40 (* 0x0028 *) then
           if element =? 16 (* 0x0010 *) then
             let offset := i + 8 in
             if offset + 2 <=? byteLength buf then
               rows ← getUint16 buf offset; Some (rows, dims.2)
             else Some dims
           else if element =? 17 (* 0x0011 *) then
             let offset := i + 8 in
             if offset + 2 <=? byteLength buf then
               columns ← getUint16 buf offset; Some (dims.1, columns)
             else Some dims
           else Some dims
         else Some dims);
      findImageDimensionsFrom buf (i + 1) n' dims
  end.

Definition findImageDimensions (arrayBuffer : list byte) : option (Z * Z) :=
  findImageDimensionsFrom arrayBuffer 0
    (Z.to_nat (byteLength arrayBuffer - 8)) (512, 512).

(** The loop that sets [hasHighValues]:
    [for (i = 0; i < Math.min(pixelBytes.length, 1000); i += 2)] with
    [value = (pixelBytes[i + 1] << 8) | pixelBytes[i]]. *)
Definition hasHighValues (pixelBytes : list Z) : bool :=
  existsb
    (fun k =>
       255 <? Z.lor (Z.shiftl (nth (2 * k + 1)%nat pixelBytes 0) 8)
                    (nth (2 * k)%nat pixelBytes 0))
    (seq 0 (Z.to_nat ((Z.min (Z.of_nat (length pixelBytes)) 1000 + 1) / 2))).

(** The body of [if (pixelDataInfo)]. [new Uint8Array(buffer, offset,
    length)] is a RangeError ([None]) when the region is not inside the
    buffer. *)
Definition taggedPixelData (buf : list byte) (info : PixelDataInfo)
  : option TypedArray :=
  if (0 <=? ioffset info) && (0 <=? ilength info)
     && (ioffset info + ilength info <=? byteLength buf)
  then
    let pixelBytes :=
      sliceBytes buf (ioffset info) (ioffset info + ilength info) in
    if Z.of_nat (length pixelBytes) mod 2 =? 0 then
      if hasHighValues pixelBytes then viewOf Uint16Array pixelBytes
      else Some (mkTypedArray Uint8Array pixelBytes)
    else Some (mkTypedArray Uint8Array pixelBytes)
  else None.

(** "If we still don't have pixel data, try to estimate from file size":
    the new value of [pixelData]. [None]: a RangeError. *)
Definition afterHeader (buf : list byte) (dims : Z * Z)
  : option (option TypedArray) :=
  let estimatedTotalPixels := dims.1 * dims.2 in
  let remainingBytes := byteLength buf - (128 + 4) in
  if estimatedTotalPixels <=? remainingBytes then
    m0 ← getUint8 buf 128; m1 ← getUint8 buf 129;
    m2 ← getUint8 buf 130; m3 ← getUint8 buf 131;
    let dataStart :=
      if bool_decide ([m0; m1; m2; m3] = [68; 73; 67; 77]) then 132 else 0 in
    let pixelBytes := sliceBytes buf dataStart (byteLength buf) in
    if estimatedTotalPixels <=? Z.of_nat (length pixelBytes) then
      Some (Some (mkTypedArray Uint8Array
                    (take (Z.to_nat estimatedTotalPixels) pixelBytes)))
    else Some None
  else Some None.

(** The literals [0.1] and [0.5] as binary64 numbers. *)
Definition tenth : number := 0x1.999999999999ap-4%float.
Definition half : number := 0x1p-1%float.

(** [Math.abs(a - b) < size * factor] on integers [a], [b], [size]. *)
Definition within (a b size : Z) (factor : number) : bool :=
  PrimFloat.ltb (ofZ (Z.abs (a - b))) (PrimFloat.mul (ofZ size) factor).

(** "try to find the largest contiguous block of data". *)
Definition largestBlock (buf : list byte) (dims : Z * Z)
  : option TypedArray :=
  let estimatedSize := dims.1 * dims.2 in
  let dataStart := Z.max 0 (byteLength buf - estimatedSize * 2) in
  if estimatedSize <=? byteLength buf - dataStart then
    let pixelBytes := sliceBytes buf dataStart (byteLength buf) in
    if within (Z.of_nat (length pixelBytes)) estimatedSize estimatedSize tenth
    then Some (mkTypedArray Uint8Array pixelBytes)
    else None
  else None.

(** "Final fallback": the whole file as pixel data. *)
Definition wholeFile (buf : list byte) (dims : Z * Z) : option TypedArray :=
  let estimatedSize := dims.1 * dims.2 in
  if within (byteLength buf) estimatedSize estimatedSize half
  then Some (mkTypedArray Uint8Array (byteValue <$> buf))
  else None.

(** [commonSizes], as [[w, h]]. *)
Definition commonSizes : list (Z * Z) :=
  [(512, 512); (256, 256); (1024, 1024); (128, 128);
   (256, 512); (512, 256); (1024, 512); (512, 1024)].

(** [for (let w = Math.floor(sqrt); w > 0; w--)]: the first divisor of
    [totalPixels] from [w] downwards. *)
Fixpoint factorFrom (totalPixels : Z) (w : nat) : option Z :=
  match w with
  | O => None
  | S w' =>
      if totalPixels mod Z.of_nat w =? 0 then Some (Z.of_nat w)
      else factorFrom totalPixels w'
  end.

(** "if we have pixel data but wrong dimensions, try to infer correct
    dimensions": the new [dims = (rows, columns)]. The square root of a
    buffer length is exact on perfect squares, and its floor is the
    integer square root. *)
Definition inferDimensions (dims : Z * Z) (totalPixels : Z) : Z * Z :=
  if dims.1 * dims.2 =? totalPixels then dims
  else
    let dims :=
      match List.find (fun wh => wh.1 * wh.2 =? totalPixels) commonSizes with
      | Some wh => (wh.2, wh.1)
      | None => dims
      end in
    if dims.1 * dims.2 =? totalPixels then dims
    else if isPerfectSquare totalPixels
    then (Z.sqrt totalPixels, Z.sqrt totalPixels)
    else
      match factorFrom totalPixels (Z.to_nat (Z.sqrt totalPixels)) with
      | Some w => (totalPixels / w, w)
      | None => dims
      end.

(** [parseDicom(arrayBuffer)]; [None]: a RangeError escaped. *)
Definition parseDicomBody (arrayBuffer : list byte) : option DicomData :=
  pixelDataInfo ← findPixelData arrayBuffer;
  pixelData ←
    match pixelDataInfo with
    | Some info => Some <$> taggedPixelData arrayBuffer info
    | None => Some None
    end;
  dims ← findImageDimensions arrayBuffer;
  pixelData ←
    match pixelData with
    | Some px => Some (Some px)
    | None => afterHeader arrayBuffer dims
    end;
  let pixelData :=
    match pixelData with
    | Some px => Some px
    | None => largestBlock arrayBuffer dims
    end in
  let pixelData :=
    match pixelData with
    | Some px => Some px
    | None => wholeFile arrayBuffer dims
    end in
  let dims :=
    match pixelData with
    | Some px => inferDimensions dims (Z.of_nat (alength px))
    | None => dims
    end in
  Some (mkDicomData emptyMetadata pixelData
          (Z.to_nat dims.1) (Z.to_nat dims.2)
          (match pixelData with
           | Some px => if decide (kind px = Uint16Array) then 16 else 8
           | None => 8
           end)
          0).

Definition parseDicom (arrayBuffer : list byte) : Result DicomData :=
  match parseDicomBody arrayBuffer with
  | Some dicomData => Ok dicomData
  | None => Throw "RangeError"
  end.

(** [processDicomFolder(files)] of dicom-parser-robust.js. *)
Definition processDicomFolder (maxArguments : nat) (files : list File)
  : Result Volume :=
  DicomParserRobust.processWith maxArguments parseDicom files.

End DicomParserRobustParse.

(** ** src/dicom-parser-fixed.js: the recovery pass and
       [processDicomFolder] *)

Module DicomParserFixedFolder.

Local Open Scope Z_scope.

(** "Look for rows and columns in the file": the loop over [j], with
    [dims = (rows, cols)]. The tag is compared as text, here in lower
    case. *)
Fixpoint scanDimensionsFrom (buf : list byte) (j : Z) (n : nat)
    (dims : Z * Z) : option (Z * Z) :=
  match n with
  | O => Some dims
  | S n' =>
      tagGroup ← hex4 <$> getUint16 buf j;
      tagElement ← hex4 <$> getUint16 buf (j + 2);
      dims ←
        (if String.eqb tagGroup "0028" then
           if String.eqb tagElement "0010" then
             let offsetToValue := j + 8 in
             if offsetToValue + 2 <=? byteLength buf then
               rows ← getUint16 buf offsetToValue; Some (rows, dims.2)
             else Some dims
           else if String.eqb tagElement "0011" then
             let offsetToValue := j + 8 in
             if offsetToValue + 2 <=? byteLength buf then
               cols ← getUint16 buf offsetToValue; Some (dims.1, cols)
             else Some dims
           else Some dims
         else Some dims);
      scanDimensionsFrom buf (j + 1) n' dims
  end.

Definition scanDimensions (buf : list byte) : option (Z * Z) :=
  scanDimensionsFrom buf 0 (Z.to_nat (byteLength buf - 8)) (512, 512).

(** The body of [if (group === '7fe0' && element === '0010')] for the tag
    at [i]: the record pushed, or [Some None] when the scan goes on;
    [None]: an exception. [slicesLength] is [slices.length]. *)
Definition recoverAt (buf : list byte) (slicesLength : nat)
    (fileName : string) (i : Z) : option (option SliceRecord) :=
  let dataOffset := i + 8 in
  if dataOffset + 4 <=? byteLength buf then
    pixelDataLength ← getUint32 buf dataOffset;
    let dataOffset := dataOffset + 4 in
    if dataOffset + pixelDataLength <=? byteLength buf then
      let pixelData :=
        mkTypedArray Uint8Array
          (sliceBytes buf dataOffset (dataOffset + pixelDataLength)) in
      dims ← scanDimensions buf;
      let rows := Z.to_nat dims.1 in
      let cols := Z.to_nat dims.2 in
      if decide (100 < alength pixelData)%nat then
        let expectedPixels := (rows * cols)%nat in
        sliceData ←
          (if decide (expectedPixels <= alength pixelData)%nat
           then Some (slice0 pixelData expectedPixels)
           else JS.set (newArray Uint8Array expectedPixels) pixelData);
        Some (Some (mkSlice sliceData emptyMetadata rows cols
                      (Some (Z.of_nat slicesLength)) fileName))
      else Some None
    else Some None
  else Some None.

(** [for (let i = 0; i < arrayBuffer.byteLength - 4; i++)], [n] indices
    left from [i] on; the loop ends at the first record pushed. *)
Fixpoint recoverFrom (buf : list byte) (slicesLength : nat)
    (fileName : string) (i : Z) (n : nat) : option (option SliceRecord) :=
  match n with
  | O => Some None
  | S n' =>
      group ← hex4 <$> getUint16 buf i;
      element ← hex4 <$> getUint16 buf (i + 2);
      if String.eqb group "7fe0" && String.eqb element "0010" then
        found ← recoverAt buf slicesLength fileName i;
        match found with
        | Some s => Some (Some s)
        | None => recoverFrom buf slicesLength fileName (i + 1) n'
        end
      else recoverFrom buf slicesLength fileName (i + 1) n'
  end.

(** The [try] block of the recovery pass for one file; an exception is
    caught and leaves [slices] as it is. *)
Definition recoverFile (slices : list SliceRecord) (file : File)
  : list SliceRecord :=
  match
    recoverFrom (arrayBuffer file) (length slices) (name file) 0
      (Z.to_nat (byteLength (arrayBuffer file) - 4))
  with
  | Some (Some s) => slices ++ [s]
  | _ => slices
  end.

(** "Try to find any files with pixel data even if they weren't properly
    identified". *)
Definition recoveryPass (files : list File) (slices : list SliceRecord)
  : list SliceRecord :=
  foldl recoverFile slices files.

(** [processDicomFolder] after the first loop, whose statements are those
    of dicom-parser.js; so are the statements after the recovery pass. *)
Definition assemble (maxArguments : nat) (files : list File)
    (slices : list SliceRecord) : Result Volume :=
  DicomParser.assemble maxArguments
    match slices with
    | [] => recoveryPass files slices
    | _ => slices
    end.

(** [processDicomFolder(files)]; [None] only if a parse reached its
    iteration bound. *)
Definition processDicomFolder (maxArguments : nat) (files : list File)
  : option (Result Volume) :=
  parsed ← mapM (fun f =>
                   r ← DicomParserFixed.parseDicom (arrayBuffer f);
                   Some (name f, r)) files;
  Some (assemble maxArguments files (DicomParser.collectSlices parsed)).

End DicomParserFixedFolder.

(** ** The renderer: [VolumeRenderer.loadVolume] *)

Module VolumeRenderer.

(** [this.textureLayout]. *)
Record TextureLayout : Type := mkLayout {
  width : nat;
  height : nat;
  slices : nat;
  volumeSize : nat * nat * nat
}.

(** What [loadVolume] leaves behind: the uploaded texels and the layout. *)
Record Texture : Type := mkTexture {
  textureData : list Z;
  textureLayout : TextureLayout
}.

(** [Math.ceil(Math.sqrt(d))] for an integer [d < 2^53]: the binary64
    square root of a non-square lies strictly between two integers. *)
Definition ceilSqrt (d : nat) : nat :=
  let s := Nat.sqrt d in
  if s * s =? d then s else S s.

(** [Math.ceil(a / b)] for integers, [b > 0]. (For [b = 0], which only
    [depth = 0] produces, JavaScript gives NaN and an empty texture; the
    embedding gives 0 and an empty texture.) *)
Definition ceilDiv (a b : nat) : nat :=
  if a mod b =? 0 then a / b else S (a / b).

(** [Math.max(0, Math.min(255, Math.round(v)))] for an integer [v]. *)
Definition clampByte (v : Z) : Z := Z.max 0 (Z.min 255 v).

(** "Calculate texture layout" and "Fill texture data". *)
Definition packAtlas (width height depth : nat) (data : list Z) : Texture :=
  let slicesPerRow := ceilSqrt depth in
  let rows := ceilDiv depth slicesPerRow in
  let texWidth := slicesPerRow * width in
  let texHeight := rows * height in
  let textureData :=
    foldl (fun t z =>
      let sliceRow := z / slicesPerRow in
      let sliceCol := z mod slicesPerRow in
      foldl (fun t y =>
        foldl (fun t x =>
          let volumeIdx := z * width * height + y * width + x in
          let texX := sliceCol * width + x in
          let texY := sliceRow * height + y in
          let texIdx := texY * texWidth + texX in
          if (volumeIdx <? length data) && (texIdx <? length t)
          then <[texIdx := clampByte (nth volumeIdx data 0%Z)]> t
          else t)
        t (seq 0 width))
      t (seq 0 height))
    (replicate (texWidth * texHeight) 0%Z) (seq 0 depth) in
  mkTexture textureData
    (mkLayout texWidth texHeight depth (width, height, depth)).

Definition commonDims : list nat := [64; 128; 256; 512; 1024].

(** "Try to fix by calculating actual dimensions": the adjusted width and
    height when [foundFactors]. With [depth = 0] the slice size is
    Infinity and nothing is found. *)
Definition adjustDimensions (len depth : nat) : option (nat * nat) :=
  if depth =? 0 then None
  else
    let likelySliceSize := len / depth in
    match
      List.find (fun dim =>
                   (likelySliceSize mod dim =? 0)
                   && bool_decide (likelySliceSize / dim ∈ commonDims))
                commonDims
    with
    | Some dim => Some (dim, likelySliceSize / dim)
    | None =>
        let s := Nat.sqrt likelySliceSize in
        if s * s =? likelySliceSize then Some (s, s) else None
    end.

(** [loadVolume(volumeData)]. [None]: the call does not return (the
    adjusted depth is Infinity and the loop over [z] never ends). *)
Definition loadVolume (volumeData : Volume) : option Texture :=
  let '(width, height, depth) := dimensions volumeData in
  let values := elems (data volumeData) in
  let expectedSize := width * height * depth in
  let original := Some (packAtlas width height depth values) in
  if negb (length values =? expectedSize) then
    if 0 <? length values then
      match adjustDimensions (length values) depth with
      | Some (newWidth, newHeight) =>
          if newWidth * newHeight =? 0 then None
          else
            let newDepth := length values / (newWidth * newHeight) in
            Some (packAtlas newWidth newHeight newDepth values)
      | None => original
      end
    else original
  else original.

End VolumeRenderer.

(** ** The renderer: the fragment shader *)

Module Shader.

Local Open Scope Q_scope.

Record vec3 : Type := mkVec3 { vx : Q; vy : Q; vz : Q }.
Record vec4 : Type := mkVec4 { cr : Q; cg : Q; cb : Q; ca : Q }.

(** The uniforms read after the ray is set up. *)
Record Uniforms : Type := mkUniforms {
  u_slices : Q;
  u_threshold : Q;
  u_opacity : Q;
  u_windowLevel : Q;
  u_windowWidth : Q
}.

(** [a / b]; GLSL leaves the result of a division by zero undefined. *)
Definition gdiv (a b : Q) : option Q :=
  if Qeq_bool b 0 then None else Some (a / b).

Definition Qltb (a b : Q) : bool := negb (Qle_bool b a).

Definition qmax (a b : Q) : Q := if Qle_bool a b then b else a.
Definition qmin (a b : Q) : Q := if Qle_bool a b then a else b.

(** [clamp(x, lo, hi) = min(max(x, lo), hi)]. *)
Definition clamp (x lo hi : Q) : Q := qmin (qmax x lo) hi.

Definition scale (v : vec3) (k : Q) : vec3 :=
  mkVec3 (vx v * k) (vy v * k) (vz v * k).
Definition vadd (v w : vec3) : vec3 :=
  mkVec3 (vx v + vx w) (vy v + vy w) (vz v + vz w).

(** [vec3 rayOrigin = vec3(0.5, 0.5, 0.5)]. *)
Definition rayOrigin : vec3 := mkVec3 (1#2) (1#2) (1#2).




(** The variables of the ray marching loop. *)
Record MarchState : Type := mkMarch {
  accumulatedColor : vec4;
  accumulatedAlpha : Q;
  currentPosition : vec3;
  steps : nat
}.

Definition outsideVolume (p : vec3) : bool :=
  Qltb (vx p) 0 || Qltb 1 (vx p) || Qltb (vy p) 0 || Qltb 1 (vy p)
  || Qltb (vz p) 0 || Qltb 1 (vz p).

(** "Apply window leveling". *)
Definition windowed (u : Uniforms) (density : Q) : option Q :=
  let windowMin := u_windowLevel u - u_windowWidth u * (1#2) in
  let windowMax := u_windowLevel u + u_windowWidth u * (1#2) in
  normalizedDensity ← gdiv (density - windowMin) (windowMax - windowMin);
  Some (clamp normalizedDensity 0 1).

(** "Front-to-back alpha compositing" with a sample of intensity
    [normalizedDensity]. *)
Definition composite (u : Uniforms) (normalizedDensity : Q)
    (st : MarchState) : vec4 * Q :=
  let intensity := normalizedDensity in
  let alpha := intensity * u_opacity u * (5#100) in
  let acc := accumulatedColor st in
  let k := 1 - accumulatedAlpha st in
  (mkVec4 (cr acc + intensity * alpha * k) (cg acc + intensity * alpha * k)
          (cb acc + intensity * alpha * k) (ca acc + alpha * k),
   accumulatedAlpha st + alpha * k).

Section Marching.
(** The texture fetch [sampleVolume(pos)], and the uniforms. *)
Variable sampleVolume : vec3 -> Q.
Variable u : Uniforms.

(** The body of the loop after the two [break] tests. *)
Definition marchStep (step : vec3) (st : MarchState) : option MarchState :=
  let density := sampleVolume (currentPosition st) in
  normalizedDensity ← windowed u density;
  limit ← gdiv (u_threshold u) 255;
  let acc :=
    if Qltb limit normalizedDensity then composite u normalizedDensity st
    else (accumulatedColor st, accumulatedAlpha st) in
  Some (mkMarch acc.1 acc.2 (vadd (currentPosition st) step)
          (S (steps st))).

(** [for (int i = 0; i < 200; i++)], [n] iterations left. *)
Fixpoint march (n : nat) (step : vec3) (st : MarchState)
  : option MarchState :=
  match n with
  | O => Some st
  | S n' =>
      if Qle_bool (95#100) (accumulatedAlpha st)
         || bool_decide (200 < steps st)%nat
      then Some st
      else if outsideVolume (currentPosition st) then Some st
      else st' ← marchStep step st; march n' step st'
  end.




End Marching.

End Shader.

(** ** The renderer: [sampleVolume] of the fragment shader, and the
       uniforms that [render] gives it *)

Module Sampler.

Import Shader.

Local Open Scope Q_scope.

(** The uniforms that describe the atlas. *)
Record AtlasUniforms : Type := mkAtlasUniforms {
  u_textureWidth : Q;
  u_textureHeight : Q;
  u_volumeSize : vec3
}.

Definition floor (x : Q) : Q := inject_Z (Qfloor x).

(** [fract(x) = x - floor(x)]. *)
Definition fract (x : Q) : Q := x - floor x.

(** [mod(x, y) = x - y * floor(x / y)]. *)
Definition gmod (x y : Q) : option Q :=
  q ← gdiv x y; Some (x - y * floor q).

(** [mix(x, y, a) = x * (1 - a) + y * a]. *)
Definition mix (x y a : Q) : Q := x * (1 - a) + y * a.

(** [ceil(sqrt(x))]: the least integer [k >= 0] with [k * k >= x], which
    is the least with [k * k >= ceil(x)]; the square root of a negative
    number is undefined. *)
Definition ceilSqrt (x : Q) : option Q :=
  if Qltb x 0 then None
  else
    let n := Qceiling x in
    let s := Z.sqrt n in
    Some (inject_Z (if (s * s =? n)%Z then s else (s + 1)%Z)).

(** The coordinates at which [sampleVolume] reads the texture: [uv],
    [nextUv] when it interpolates, and the weight [sliceFrac]. *)
Record Fetches : Type := mkFetches {
  uv : Q * Q;
  nextUv : option (Q * Q);
  sliceFrac : Q
}.

(** [sampleVolume(pos)] up to the texture reads. [None]: a division by
    zero or the square root of a negative number. *)
Definition fetches (u_slices : Q) (a : AtlasUniforms) (pos : vec3)
  : option Fetches :=
  let pos := mkVec3 (clamp (vx pos) (1 # 1000) (999 # 1000))
                    (clamp (vy pos) (1 # 1000) (999 # 1000))
                    (clamp (vz pos) (1 # 1000) (999 # 1000)) in
  let sliceF := vz pos * u_slices in
  let sliceIdx := floor sliceF in
  let sliceFrac := fract sliceF in
  slicesPerRow ← ceilSqrt u_slices;
  q ← gdiv sliceIdx slicesPerRow;
  let row := floor q in
  col ← gmod sliceIdx slicesPerRow;
  sliceSizeX ← gdiv (vx (u_volumeSize a)) (u_textureWidth a);
  sliceSizeY ← gdiv (vy (u_volumeSize a)) (u_textureHeight a);
  sliceOffsetX ← gdiv (col * vx (u_volumeSize a)) (u_textureWidth a);
  sliceOffsetY ← gdiv (row * vy (u_volumeSize a)) (u_textureHeight a);
  let uv := (vx pos * sliceSizeX + sliceOffsetX,
             vy pos * sliceSizeY + sliceOffsetY) in
  if Qltb 0 sliceFrac && Qltb sliceIdx (u_slices - 1) then
    let nextSliceIdx := sliceIdx + 1 in
    nq ← gdiv nextSliceIdx slicesPerRow;
    let nextRow := floor nq in
    nextCol ← gmod nextSliceIdx slicesPerRow;
    nextSliceOffsetX ←
      gdiv (nextCol * vx (u_volumeSize a)) (u_textureWidth a);
    nextSliceOffsetY ←
      gdiv (nextRow * vy (u_volumeSize a)) (u_textureHeight a);
    Some (mkFetches uv
            (Some (uv.1 - sliceOffsetX + nextSliceOffsetX,
                   uv.2 - sliceOffsetY + nextSliceOffsetY))
            sliceFrac)
  else Some (mkFetches uv None sliceFrac).

(** [sampleVolume(pos)], for the texture read
    [texture2D(u_volumeTexture, uv).r]. *)
Definition sampleVolume (texture2D : Q * Q -> Q) (u_slices : Q)
    (a : AtlasUniforms) (pos : vec3) : option Q :=
  f ← fetches u_slices a pos;
  let value1 := texture2D (uv f) in
  Some match nextUv f with
       | Some next => mix value1 (texture2D next) (sliceFrac f)
       | None => value1
       end.

Definition ofNat (n : nat) : Q := inject_Z (Z.of_nat n).

(** The values that [render] gives to [u_slices], [u_textureWidth],
    [u_textureHeight] and [u_volumeSize]: those of [this.textureLayout],
    or the defaults when no volume was loaded. *)
Definition renderUniforms (textureLayout : option VolumeRenderer.TextureLayout)
  : Q * AtlasUniforms :=
  match textureLayout with
  | Some t =>
      (ofNat (VolumeRenderer.slices t),
       mkAtlasUniforms (ofNat (VolumeRenderer.width t))
         (ofNat (VolumeRenderer.height t))
         (let '(w, h, d) := VolumeRenderer.volumeSize t in
          mkVec3 (ofNat w) (ofNat h) (ofNat d)))
  | None => (0, mkAtlasUniforms 1 1 (mkVec3 1 1 1))
  end.

End Sampler.

(** ** Vocabulary of the statements *)

Module Spec.

(** A short sample buffer after "Pad with zeros": the samples, converted to
    8 bits by the [Uint8Array] that receives them, then zeros up to [n]. *)
Definition zeroPadded (px : TypedArray) (n : nat) : TypedArray :=
  mkTypedArray Uint8Array
    ((wrap Uint8Array <$> elems px) ++ replicate (n - alength px) 0%Z).

(** The sample buffer stored for a parsed file with samples [px]. *)
Definition storedData (d : DicomData) (px : TypedArray) : TypedArray :=
  if decide (rows d * columns d <= alength px)
  then slice0 px (rows d * columns d)
  else zeroPadded px (rows d * columns d).

(** The record pushed for a usable file, up to its instance number. *)
Definition pushed (inst : Z) (fileName : string) (d : DicomData)
    (px : TypedArray) : SliceRecord :=
  mkSlice (storedData d px) (metadata d) (rows d) (columns d)
    (Some inst) fileName.

(** The condition under which a parsed file contributes a slice. *)
Definition usable (d : DicomData) : Prop :=
  exists px, pixelData d = Some px /\ 0 < alength px /\
             (rows d * columns d <= alength px \/ 100 < alength px).

(** The minimum and the maximum of a field, and the range the
    normalisation divides by; 0 for an empty field. *)
Definition fieldMin (field : list Z) : Z :=
  match field with [] => 0%Z | x :: xs => minList x xs end.
Definition fieldMax (field : list Z) : Z :=
  match field with [] => 0%Z | x :: xs => maxList x xs end.
Definition fieldRange (field : list Z) : Z :=
  orOne (fieldMax field - fieldMin field).

(** The flat index of voxel [(x, y)] of slice [z] in the volume, and of the
    texel that receives it in an atlas of [spr] slices per row: row
    [z / spr] and column [z mod spr] of the grid of slices. *)
Definition voxelIndex (W H z y x : nat) : nat := z * W * H + y * W + x.
Definition texelIndex (W H spr z y x : nat) : nat :=
  (z / spr * H + y) * (spr * W) + (z mod spr * W + x).

(** One guarded store of a fill loop:
    [if (ok && idx < t.length) t[idx] = val]. *)
Definition guardedStore {C A : Type} (idx : C -> nat) (val : C -> A)
    (ok : C -> bool) (t : list A) (c : C) : list A :=
  if ok c && (idx c <? length t) then <[idx c := val c]> t else t.

(** The voxels of a volume, in the order of the three loops. *)
Definition coords (W H D : nat) : list (nat * nat * nat) :=
  z ← seq 0 D; y ← seq 0 H; x ← seq 0 W; [(z, y, x)].

(** The number by which a record is ordered (0 for `undefined`). *)
Definition instanceKey (s : SliceRecord) : Z := default 0%Z (instanceNumber s).

(** The outcome of the parse of a file contributes a slice. *)
Definition accepted (f : string * Result DicomData) : bool :=
  match f.2 with
  | Ok d => bool_decide (is_Some (DicomParser.acceptSlice f.1 d))
  | Throw _ => false
  end.

End Spec.

(** ** Vocabulary of the further properties *)

Module Props.

Local Open Scope Z_scope.

(** The four bytes at [i] are the PixelData tag (7FE0,0010), little
    endian. *)
Definition isPixelDataTag (buf : list byte) (i : Z) : bool :=
  match getUint16 buf i, getUint16 buf (i + 2) with
  | Some group, Some element => (group =? 32736) && (element =? 16)
  | _, _ => false
  end.

(** The parse of a file returned at least one sample. *)
Definition hasSamples (r : Result DicomData) : bool :=
  match r with
  | Ok d =>
      match pixelData d with
      | Some px => bool_decide (0 < alength px)%nat
      | None => false
      end
  | Throw _ => false
  end.

(** The records of [slices] are numbered 0, 1, 2, ... in their order. *)
Definition numbered (slices : list SliceRecord) : Prop :=
  instanceNumber <$> slices
  = (fun i => Some (Z.of_nat i)) <$> seq 0 (length slices).

(** What the recovery pass of dicom-parser-fixed.js pushes: bytes, as
    many as rows times columns. *)
Definition recovered (s : SliceRecord) : Prop :=
  kind (sdata s) = Uint8Array /\
  alength (sdata s) = (srows s * scolumns s)%nat.

(** The flat index, in an atlas of [width] by [height] texels, of the
    texel whose area contains the texture coordinates [uv]. *)
Definition texelOf (width height : nat) (uv : Q * Q) : nat :=
  (Z.to_nat (Qfloor (uv.2 * inject_Z (Z.of_nat height))) * width
   + Z.to_nat (Qfloor (uv.1 * inject_Z (Z.of_nat width))))%nat.

(** The voxel coordinate along an axis of [n] voxels of a position
    component, after the clamp of [sampleVolume]. *)
Definition voxelOf (n : nat) (p : Q) : nat :=
  Z.to_nat (Qfloor (Shader.clamp p (1 # 1000) (999 # 1000)
                    * inject_Z (Z.of_nat n))).

(** The normalisation of the least and of the greatest voxel of a field
    whose greatest and least voxels differ by [range], and the same for
    the [n] ranges from [range] on. *)
Definition endpointsAt (range : Z) : bool :=
  (normalizeVoxel 0 range 0 =? 0) && (normalizeVoxel 0 range range =? 255).

Fixpoint endpointsFrom (range : Z) (n : nat) : bool :=
  match n with
  | O => true
  | S n' => endpointsAt range && endpointsFrom (range + 1) n'
  end.

(** [v] is a value of the element type of a typed array of kind [k]. *)
Definition inKind (k : ArrayKind) (v : Z) : Prop := wrap k v = v.

(** The outcomes of [parseDicom] of dicom-parser-robust.js for the files of
    a batch, and the records that the first loop of its
    [processDicomFolder] pushes for them. *)
Definition robustParsed (files : list File)
  : list (string * Result DicomData) :=
  map (fun f => (name f, DicomParserRobustParse.parseDicom (arrayBuffer f)))
      files.

Definition robustSlices (files : list File) : list SliceRecord :=
  DicomParserRobust.collectSlices (robustParsed files).

End Props.

(** ** Concrete batches used in the examples *)

Module Examples.

(** The parse of a file with 8-bit samples. *)
Definition parsed8 (inst : option Z) (r c : nat) (samples : list Z)
  : Result DicomData :=
  Ok (mkDicomData (mkMetadata inst None None None None None None)
        (Some (mkTypedArray Uint8Array samples)) r c 8 0).

(** Two 2x2 slices around a file whose parse threw. *)
Definition batch1 : list (string * Result DicomData) :=
  [("s1.dcm", parsed8 (Some 2%Z) 2 2 [1; 2; 3; 4]%Z);
   ("s2.dcm", Throw "unreadable");
   ("s3.dcm", parsed8 (Some 1%Z) 2 2 [5; 6; 7; 8; 9]%Z)]%string.

(** The records that [batch1] leaves in [slices]. *)
Definition stored1 : SliceRecord :=
  mkSlice (mkTypedArray Uint8Array [1; 2; 3; 4]%Z)
    (mkMetadata (Some 2%Z) None None None None None None) 2 2 (Some 2%Z)
    "s1.dcm".
Definition stored3 : SliceRecord :=
  mkSlice (mkTypedArray Uint8Array [5; 6; 7; 8]%Z)
    (mkMetadata (Some 1%Z) None None None None None None) 2 2 (Some 1%Z)
    "s3.dcm".

(** Four 4x4 slices with instance numbers 3, 1, 4, 2. *)
Definition numbered : list (string * Result DicomData) :=
  [("f0", parsed8 (Some 3%Z) 4 4 (replicate 16 30%Z));
   ("f1", parsed8 (Some 1%Z) 4 4 (replicate 16 10%Z));
   ("f2", parsed8 (Some 4%Z) 4 4 (replicate 16 40%Z));
   ("f3", parsed8 (Some 2%Z) 4 4 (replicate 16 20%Z))]%string.

(** An 11x11 slice with only 101 samples, and one with 100. *)
Definition short101 : DicomData :=
  mkDicomData emptyMetadata
    (Some (mkTypedArray Uint8Array (replicate 101 9%Z))) 11 11 8 0.
Definition short100 : DicomData :=
  mkDicomData emptyMetadata
    (Some (mkTypedArray Uint8Array (replicate 100 9%Z))) 11 11 8 0.

(** A buffer given by the values of its bytes. *)
Definition bytesOf (l : list Z) : list byte :=
  (fun z => default Byte.x00 (Byte.of_N (Z.to_N z))) <$> l.

(** An element (0020,0013) "IS" that declares 10000 bytes (0x2710). *)
Definition overrunHeader : list Z := [32; 0; 19; 0; 73; 83; 16; 39]%Z.

(** An element (0020,0013) "IS" of length 2 with the value 5. *)
Definition instanceFive : list Z := [32; 0; 19; 0; 73; 83; 2; 0; 5; 0]%Z.

(** The overrunning element with only 50 bytes left after its header: a
    well-formed InstanceNumber element and 40 zero bytes. *)
Definition overrun : list byte :=
  bytesOf (overrunHeader ++ instanceFive ++ replicate 40 0%Z).

(** A volume of three slices of 2x1 voxels. *)
Definition threeSlices : TypedArray :=
  mkTypedArray Uint8Array [10; 11; 20; 21; 30; 31]%Z.

(** The initial parameters of the renderer ([init]): threshold 100,
    opacity 0.8, window level 128, window width 256; four slices loaded. *)
Definition defaults : Shader.Uniforms :=
  Shader.mkUniforms 4 100 (8 # 10) 128 256.

(** The unit direction into the volume (the ray of the centre pixel
    without rotation). *)
Definition inward : Shader.vec3 := Shader.mkVec3 0 0 (- 1).


(** The four bytes of a 32-bit length, little endian. *)
Definition le32 (n : Z) : list Z :=
  [n mod 256; n / 256 mod 256; n / 65536 mod 256; n / 16777216 mod 256]%Z.

(** A file that is one element (7FE0,0010) with the value representation
    "UN" and a 32-bit length, followed by the bytes of its value. *)
Definition pixelFile (name : string) (value : list Z) : File :=
  mkFile name
    (bytesOf ([224; 127; 16; 0; 85; 78]%Z
              ++ le32 (Z.of_nat (length value)) ++ value)).

(** Four 16-bit samples: 1000, 0, 300 and 800. *)
Definition ct16 : File :=
  pixelFile "ct.dcm" [232; 3; 0; 0; 44; 1; 32; 3]%Z.

(** Sixteen 8-bit samples, and four. *)
Definition imageA : File :=
  pixelFile "a.dcm" [7; 0; 7; 0; 7; 0; 7; 0; 7; 0; 7; 0; 7; 0; 7; 0]%Z.
Definition imageB : File := pixelFile "b.dcm" [1; 0; 2; 0]%Z.
Definition twoImages : list File := [imageA; imageB].

(** What [parseDicom] of dicom-parser-robust.js returns for [imageB]. *)
Definition parsedB : DicomData :=
  mkDicomData emptyMetadata
    (Some (mkTypedArray Uint8Array [1; 0; 2; 0]%Z)) 2 2 8 0.

(** A file of three bytes. *)
Definition noise : File := mkFile "n.dcm" (bytesOf [1; 2; 3]%Z).

(** The initial parameters after [setThreshold(0)]. *)
Definition noThreshold : Shader.Uniforms :=
  Shader.mkUniforms 4 0 (8 # 10) 128 256.

(** The variables of the marching loop before the first step of a ray. *)
Definition start : Shader.MarchState :=
  Shader.mkMarch (Shader.mkVec4 0 0 0 0) 0 Shader.rayOrigin 0.

End Examples.

(** * Properties *)

(** ** Typed arrays *)

Section TypedArrayFacts.

Lemma alength_store a i v : alength (store a i v) = alength a.
Proof. unfold alength, store; simpl. apply length_insert. Qed.

Lemma kind_store a i v : kind (store a i v) = kind a.
Proof. reflexivity. Qed.

Lemma alength_newArray k n : alength (newArray k n) = n.
Proof. unfold alength, newArray; simpl. apply length_replicate. Qed.

(** A loop of stores is a loop of list updates. *)
Lemma foldl_store {B} (h : B -> nat) (g : B -> Z) (l : list B) a :
  foldl (fun t i => store t (h i) (g i)) a l
  = mkTypedArray (kind a)
      (foldl (fun e i => <[h i := wrap (kind a) (g i)]> e) (elems a) l).
Proof.
  revert a. induction l as [|b l IH]; intros a; simpl.
  - by destruct a.
  - rewrite IH. reflexivity.
Qed.

Lemma length_foldl_insert {A B} (h : B -> nat) (g : B -> A) (l : list B) e :
  length (foldl (fun e i => <[h i := g i]> e) e l) = length e.
Proof.
  revert e. induction l as [|b l IH]; intros e; simpl; [done|].
  rewrite IH. apply length_insert.
Qed.

(** Writing [g 0 .. g (n-1)] at the indices [0 .. n-1]. *)
Lemma foldl_insert_prefix {A} (g : nat -> A) (l : list A) n :
  n <= length l ->
  foldl (fun t i => <[i := g i]> t) l (seq 0 n) = (g <$> seq 0 n) ++ drop n l.
Proof.
  induction n as [|n IH]; intros Hn; [done|].
  rewrite seq_S, foldl_app, IH by lia. simpl.
  rewrite fmap_app. simpl.
  destruct (drop n l) as [|x rest] eqn:Hd.
  { apply (f_equal length) in Hd. rewrite length_drop in Hd. simpl in Hd. lia. }
  assert (drop (S n) l = rest) as ->.
  { rewrite <- (Nat.add_1_r n), <- drop_drop, Hd. done. }
  rewrite insert_app_r_alt by (rewrite length_fmap, length_seq; lia).
  rewrite length_fmap, length_seq, Nat.sub_diag. simpl.
  by rewrite <- app_assoc.
Qed.

Lemma fmap_nth_seq {A B} (f : A -> B) (d : A) (l : list A) :
  (fun i => f (nth i l d)) <$> seq 0 (length l) = f <$> l.
Proof.
  apply list_eq. intros i.
  rewrite !list_lookup_fmap.
  destruct (decide (i < length l)) as [Hi|Hi].
  - rewrite lookup_seq_lt by done. simpl.
    destruct (lookup_lt_is_Some_2 l i Hi) as [x Hx].
    rewrite Hx. simpl. f_equal. f_equal.
    by apply nth_lookup_Some with (d := d) in Hx.
  - rewrite lookup_seq_ge by lia. rewrite lookup_ge_None_2 by lia. done.
Qed.

(** [target.set(source)] keeps the kind of the target, converts the source
    and leaves the rest of the target. *)
Lemma set_spec target source :
  alength source <= alength target ->
  JS.set target source
  = Some (mkTypedArray (kind target)
            ((wrap (kind target) <$> elems source)
             ++ drop (alength source) (elems target))).
Proof.
  intros Hle. unfold JS.set. rewrite decide_True by done. f_equal.
  rewrite (foldl_store (fun i => i) (load source)). f_equal.
  rewrite (foldl_insert_prefix (fun i => wrap (kind target) (load source i)))
    by done.
  f_equal. unfold load, alength.
  apply (fmap_nth_seq (wrap (kind target)) 0%Z).
Qed.

Lemma set_None target source :
  alength target < alength source -> JS.set target source = None.
Proof. intros H. unfold JS.set. rewrite decide_False by lia. done. Qed.

End TypedArrayFacts.

(** ** Acceptance of a parsed file *)

Section Acceptance.

Lemma drop_newArray k n m :
  drop m (elems (newArray k n)) = replicate (n - m) 0%Z.
Proof. unfold newArray; simpl. apply drop_replicate. Qed.

Lemma padded_spec px n :
  alength px <= n ->
  JS.set (newArray Uint8Array n) px = Some (Spec.zeroPadded px n).
Proof.
  intros Hle. rewrite set_spec by (rewrite alength_newArray; done).
  unfold Spec.zeroPadded. rewrite drop_newArray. done.
Qed.

Lemma alength_zeroPadded px n :
  alength px <= n -> alength (Spec.zeroPadded px n) = n.
Proof.
  intros Hle. unfold Spec.zeroPadded, alength in *; simpl.
  rewrite length_app, length_fmap, length_replicate. lia.
Qed.

Lemma alength_storedData d px :
  alength (Spec.storedData d px) = rows d * columns d.
Proof.
  unfold Spec.storedData. case_decide.
  - unfold slice0, alength in *; simpl. rewrite length_take. lia.
  - apply alength_zeroPadded. lia.
Qed.

Lemma storedData_long d px :
  rows d * columns d <= alength px ->
  Spec.storedData d px = slice0 px (rows d * columns d).
Proof. intros. unfold Spec.storedData. by rewrite decide_True. Qed.

Lemma storedData_short d px :
  alength px < rows d * columns d ->
  Spec.storedData d px = Spec.zeroPadded px (rows d * columns d).
Proof. intros. unfold Spec.storedData. rewrite decide_False by lia. done. Qed.

Ltac acceptance_cases px :=
  destruct (pixelData _) as [px|]; [|split; [done|intros (?&?&_); done]];
  repeat case_decide;
  [ split;
    [ intros [= <-]; exists px; unfold Spec.pushed;
      rewrite storedData_long by done; eauto
    | intros (?&[= <-]&_&_&->); unfold Spec.pushed;
      rewrite storedData_long by done; done ]
  | rewrite padded_spec by lia; split;
    [ intros [= <-]; exists px; unfold Spec.pushed;
      rewrite storedData_short by lia; eauto
    | intros (?&[= <-]&_&_&->); unfold Spec.pushed;
      rewrite storedData_short by lia; done ]
  | split; [done|]; intros (?&[= <-]&_&[?|?]&_); lia
  | split; [done|]; intros (?&[= <-]&?&_); lia ].

(** What [acceptSlice] of dicom-parser.js pushes. *)
Lemma acceptSlice_Some fileName d s :
  DicomParser.acceptSlice fileName d = Some s <->
  exists px, pixelData d = Some px /\ 0 < alength px /\
    (rows d * columns d <= alength px \/ 100 < alength px) /\
    s = Spec.pushed (instanceNumberOrZero (metadata d)) fileName d px.
Proof. unfold DicomParser.acceptSlice. acceptance_cases px. Qed.

(** What [acceptSlice] of dicom-parser-robust.js pushes. *)
Lemma robust_acceptSlice_Some n fileName d s :
  DicomParserRobust.acceptSlice n fileName d = Some s <->
  exists px, pixelData d = Some px /\ 0 < alength px /\
    (rows d * columns d <= alength px \/ 100 < alength px) /\
    s = Spec.pushed (Z.of_nat n) fileName d px.
Proof. unfold DicomParserRobust.acceptSlice. acceptance_cases px. Qed.

Lemma acceptSlice_is_Some fileName d :
  is_Some (DicomParser.acceptSlice fileName d) <-> Spec.usable d.
Proof.
  unfold Spec.usable. split.
  - intros [s Hs]. apply acceptSlice_Some in Hs as (px&?&?&?&_). eauto.
  - intros (px&?&?&?). eexists. apply acceptSlice_Some. eauto 6.
Qed.

(** The parse loop keeps, in enumeration order, one record per accepted
    file. *)
Lemma collectSlices_omap parsed :
  DicomParser.collectSlices parsed
  = omap (fun f => match f.2 with
                   | Ok d => DicomParser.acceptSlice f.1 d
                   | Throw _ => None
                   end) parsed.
Proof.
  unfold DicomParser.collectSlices.
  set (g := fun f : string * Result DicomData => _).
  enough (forall acc, foldl (fun slices f =>
            match f.2 with
            | Ok dicomData =>
                match DicomParser.acceptSlice f.1 dicomData with
                | Some s => slices ++ [s]
                | None => slices
                end
            | Throw _ => slices
            end) acc parsed = acc ++ omap g parsed) as H by apply H.
  induction parsed as [|f parsed IH]; intros acc; simpl.
  - by rewrite app_nil_r.
  - rewrite IH. unfold g at 2. destruct (f.2) as [d|]; [|done].
    destruct (DicomParser.acceptSlice f.1 d); [|done].
    by rewrite <- app_assoc.
Qed.

Lemma collectSlices_length parsed :
  length (DicomParser.collectSlices parsed)
  = length (filter (fun f => Spec.accepted f = true) parsed).
Proof.
  rewrite collectSlices_omap.
  induction parsed as [|[fileName r] parsed IH]; [done|].
  destruct (Spec.accepted (fileName, r)) eqn:E.
  - rewrite filter_cons_True by done. simpl.
    unfold Spec.accepted in E; simpl in E. destruct r as [d|]; [|done].
    apply bool_decide_eq_true in E as [s Hs]. simpl. rewrite Hs. simpl.
    f_equal. exact IH.
  - rewrite filter_cons_False by (rewrite E; done). simpl.
    unfold Spec.accepted in E; simpl in E. destruct r as [d|]; [|done].
    apply bool_decide_eq_false in E.
    destruct (DicomParser.acceptSlice fileName d); [|exact IH].
    exfalso. apply E. eauto.
Qed.

Lemma elem_of_collectSlices s parsed :
  s ∈ DicomParser.collectSlices parsed <->
  exists fileName d, (fileName, Ok d) ∈ parsed /\
                     DicomParser.acceptSlice fileName d = Some s.
Proof.
  rewrite collectSlices_omap, list_elem_of_omap. split.
  - intros ([fileName r]&Hin&Hs). simpl in Hs.
    destruct r as [d|]; [|done]. eauto.
  - intros (fileName&d&Hin&Hs). exists (fileName, Ok d). done.
Qed.

(** The same for dicom-parser-robust.js, whose records carry their
    position as instance number. *)
Lemma robust_collectSlices_elem s parsed :
  s ∈ DicomParserRobust.collectSlices parsed ->
  exists n fileName d, (fileName, Ok d) ∈ parsed /\
    DicomParserRobust.acceptSlice n fileName d = Some s.
Proof.
  unfold DicomParserRobust.collectSlices.
  enough (forall acc,
    s ∈ foldl (fun slices f =>
            match f.2 with
            | Ok dicomData =>
                match DicomParserRobust.acceptSlice (length slices) f.1
                        dicomData with
                | Some s => slices ++ [s]
                | None => slices
                end
            | Throw _ => slices
            end) acc parsed ->
    s ∈ acc \/ exists n fileName d, (fileName, Ok d) ∈ parsed /\
      DicomParserRobust.acceptSlice n fileName d = Some s) as H.
  { intros Hs. destruct (H [] Hs) as [Hnil|?]; [|done].
    by apply not_elem_of_nil in Hnil. }
  induction parsed as [|[fileName r] parsed IH]; intros acc; simpl.
  - auto.
  - intros Hs. apply IH in Hs as [Hs|(n&f&d&Hin&Ha)].
    + destruct r as [d|]; [|auto].
      destruct (DicomParserRobust.acceptSlice (length acc) fileName d) eqn:Ha;
        [|auto].
      apply elem_of_app in Hs as [?|Hs]; [auto|].
      apply list_elem_of_singleton in Hs as ->.
      right. exists (length acc), fileName, d. split; [left|done].
    + right. exists n, f, d. split; [by right|done].
Qed.

End Acceptance.

(** ** Sorting and assembly *)

Section Assembly.

Lemma insertSorted_length {A} (cmp : A -> A -> Z) x l :
  length (insertSorted cmp x l) = S (length l).
Proof.
  induction l as [|y l IH]; simpl; [done|].
  destruct (cmp x y <=? 0)%Z; simpl; [done|]. by rewrite IH.
Qed.

Lemma sort_length {A} (cmp : A -> A -> Z) l : length (sort cmp l) = length l.
Proof.
  induction l as [|x l IH]; simpl; [done|].
  unfold sort in *. simpl. by rewrite insertSorted_length, IH.
Qed.

Lemma insertSorted_perm {A} (cmp : A -> A -> Z) x l :
  insertSorted cmp x l ≡ₚ x :: l.
Proof.
  induction l as [|y l IH]; simpl; [done|].
  destruct (cmp x y <=? 0)%Z; [done|].
  rewrite IH. apply Permutation_swap.
Qed.

(** The sort rearranges the slices; it neither drops nor repeats one. *)
Lemma sort_perm {A} (cmp : A -> A -> Z) l : sort cmp l ≡ₚ l.
Proof.
  induction l as [|x l IH]; [done|].
  unfold sort in *. simpl. by rewrite insertSorted_perm, IH.
Qed.

Lemma alength_fillSlice sliceSize z sliceData volumeData :
  alength (fillSlice sliceSize z sliceData volumeData) = alength volumeData.
Proof.
  unfold fillSlice.
  rewrite (foldl_store (fun i => z * sliceSize + i) (load sliceData)).
  unfold alength; simpl. apply length_foldl_insert.
Qed.

Lemma kind_fillSlice sliceSize z sliceData volumeData :
  kind (fillSlice sliceSize z sliceData volumeData) = kind volumeData.
Proof.
  unfold fillSlice.
  by rewrite (foldl_store (fun i => z * sliceSize + i) (load sliceData)).
Qed.

Lemma fillVolume_invariant sliceSize slices volumeData :
  alength (fillVolume sliceSize slices volumeData) = alength volumeData
  /\ kind (fillVolume sliceSize slices volumeData) = kind volumeData.
Proof.
  unfold fillVolume. generalize (seq 0 (length slices)) as zs.
  intros zs. revert volumeData.
  induction zs as [|z zs IH]; intros volumeData; simpl; [done|].
  destruct (IH (match slices !! z with
                | Some s => fillSlice sliceSize z (sdata s) volumeData
                | None => volumeData
                end)) as [-> ->].
  destruct (slices !! z); [|done].
  by rewrite alength_fillSlice, kind_fillSlice.
Qed.

Lemma alength_assembled is16 signed sorted rows cols :
  alength (assembled is16 signed sorted rows cols)
  = rows * cols * length sorted.
Proof.
  unfold assembled.
  destruct (fillVolume_invariant (rows * cols) sorted
    (if is16 then if signed then newArray Int16Array (rows * cols * length sorted)
                  else newArray Uint16Array (rows * cols * length sorted)
     else newArray Uint8Array (rows * cols * length sorted))) as [-> _].
  destruct is16, signed; apply alength_newArray.
Qed.

(** The loop of the normalisation writes every voxel once: it is a map
    over the field. *)
Lemma normalize_loop (f : Z -> Z) volumeData :
  foldl (fun nv i =>
           mkTypedArray (kind nv) (<[i := f (load volumeData i)]> (elems nv)))
        (newArray Uint8Array (alength volumeData))
        (seq 0 (alength volumeData))
  = mkTypedArray Uint8Array (f <$> elems volumeData).
Proof.
  assert (forall (l : list nat) (a : TypedArray),
    foldl (fun nv i =>
             mkTypedArray (kind nv) (<[i := f (load volumeData i)]> (elems nv)))
          a l
    = mkTypedArray (kind a)
        (foldl (fun e i => <[i := f (load volumeData i)]> e) (elems a) l))
    as Hfold.
  { induction l as [|i l IH]; intros a; simpl; [by destruct a|].
    by rewrite IH. }
  rewrite Hfold. cbn [kind elems newArray]. f_equal.
  rewrite (foldl_insert_prefix (fun i => f (load volumeData i)))
    by (rewrite length_replicate; done).
  rewrite drop_replicate, Nat.sub_diag, app_nil_r.
  unfold load, alength. apply (fmap_nth_seq f 0%Z).
Qed.

(** Within the argument limit of the engine the normalisation is that map,
    with the minimum and the range of the whole field. *)
Lemma normalize_map maxArguments volumeData :
  alength volumeData <= maxArguments ->
  normalize maxArguments (alength volumeData) volumeData
  = Ok (mkTypedArray Uint8Array
          (normalizeVoxel (Spec.fieldMin (elems volumeData))
                          (Spec.fieldRange (elems volumeData))
           <$> elems volumeData)).
Proof.
  intros Hle. unfold normalize, spread. fold (alength volumeData).
  rewrite !decide_True by done. cbn [bind]. f_equal.
  unfold Spec.fieldRange, Spec.fieldMax, Spec.fieldMin, Math_max, Math_min.
  destruct (elems volumeData) as [|x xs] eqn:He.
  { unfold alength. rewrite He. done. }
  rewrite <- He. apply normalize_loop.
Qed.

(** Beyond it the first of the two spread calls throws. *)
Lemma normalize_RangeError maxArguments volumeSize volumeData :
  maxArguments < alength volumeData ->
  normalize maxArguments volumeSize volumeData = Throw "RangeError".
Proof.
  intros Hlt. unfold normalize, spread. fold (alength volumeData).
  by rewrite decide_False by lia.
Qed.

Lemma minList_spec x xs :
  minList x xs ∈ x :: xs /\ forall v, v ∈ x :: xs -> (minList x xs <= v)%Z.
Proof.
  unfold minList. revert x. induction xs as [|y xs IH]; intros x; simpl.
  - split; [left|]. intros v Hv. apply list_elem_of_singleton in Hv. lia.
  - destruct (IH (Z.min x y)) as [Hin Hle]. split.
    + apply elem_of_cons in Hin as [->|Hin].
      * destruct (Z.min_spec x y) as [[_ ->]|[_ ->]]; [left|right; left].
      * right; by right.
    + intros v Hv. apply elem_of_cons in Hv as [->|Hv].
      * specialize (Hle (Z.min x y) ltac:(left)). lia.
      * apply elem_of_cons in Hv as [->|Hv].
        -- specialize (Hle (Z.min x y) ltac:(left)). lia.
        -- apply Hle. by right.
Qed.

Lemma maxList_spec x xs :
  maxList x xs ∈ x :: xs /\ forall v, v ∈ x :: xs -> (v <= maxList x xs)%Z.
Proof.
  unfold maxList. revert x. induction xs as [|y xs IH]; intros x; simpl.
  - split; [left|]. intros v Hv. apply list_elem_of_singleton in Hv. lia.
  - destruct (IH (Z.max x y)) as [Hin Hle]. split.
    + apply elem_of_cons in Hin as [->|Hin].
      * destruct (Z.max_spec x y) as [[_ ->]|[_ ->]]; [right; left|left].
      * right; by right.
    + intros v Hv. apply elem_of_cons in Hv as [->|Hv].
      * specialize (Hle (Z.max x y) ltac:(left)). lia.
      * apply elem_of_cons in Hv as [->|Hv].
        -- specialize (Hle (Z.max x y) ltac:(left)). lia.
        -- apply Hle. by right.
Qed.

(** [fieldMin] and [fieldMax] are the least and the greatest voxel of the
    whole field. *)
Lemma field_extrema field :
  field <> [] ->
  Spec.fieldMin field ∈ field /\ Spec.fieldMax field ∈ field /\
  forall v, v ∈ field -> (Spec.fieldMin field <= v <= Spec.fieldMax field)%Z.
Proof.
  destruct field as [|x xs]; [done|]. intros _. simpl.
  destruct (minList_spec x xs) as [? Hmin], (maxList_spec x xs) as [? Hmax].
  split; [done|]. split; [done|]. intros v Hv. split; auto.
Qed.

End Assembly.

(** ** The volume that [processDicomFolder] returns *)

Section Volume.

Lemma sort_cons {A} (cmp : A -> A -> Z) l :
  l <> [] -> exists first rest, sort cmp l = first :: rest.
Proof.
  intros Hl. destruct (sort cmp l) as [|first rest] eqn:Hs; [|eauto].
  apply (f_equal length) in Hs. rewrite sort_length in Hs.
  destruct l; [done|simpl in Hs; lia].
Qed.

(** What the statements from "Create 3D volume" on give: the field, after
    the normalisation if a slice has 16 bits, unless the normalisation
    throws. *)
Lemma buildVolume_spec maxArguments is16 signed first rest :
  let sorted := first :: rest in
  let size := srows first * scolumns first * length sorted in
  let field := assembled is16 signed sorted (srows first) (scolumns first) in
  buildVolume maxArguments is16 signed sorted
  = if is16 && negb (bool_decide (size <= maxArguments))
    then Throw "RangeError"
    else Ok (mkVolume
               (if is16
                then mkTypedArray Uint8Array
                       (normalizeVoxel (Spec.fieldMin (elems field))
                                       (Spec.fieldRange (elems field))
                        <$> elems field)
                else field)
               (scolumns first, srows first, length sorted)).
Proof.
  intros sorted size field.
  assert (alength field = size) as Hal by apply alength_assembled.
  change (buildVolume maxArguments is16 signed sorted)
    with (bind (if is16 then normalize maxArguments size field else Ok field)
            (fun volumeData =>
               Ok (mkVolume volumeData
                     (scolumns first, srows first, length sorted)))).
  destruct is16; [|done]. cbn [andb]. case_bool_decide as Hle; cbn [negb].
  - rewrite <- Hal, normalize_map by (rewrite Hal; exact Hle). done.
  - rewrite normalize_RangeError by (rewrite Hal; lia). done.
Qed.

Lemma assemble_spec maxArguments slices :
  slices <> [] ->
  DicomParser.assemble maxArguments slices
  = buildVolume maxArguments
      (DicomParser.is16Bit (sort DicomParser.compareSlices slices))
      (DicomParser.isSigned (sort DicomParser.compareSlices slices))
      (sort DicomParser.compareSlices slices).
Proof. by destruct slices. Qed.

Lemma is16Bit_sort slices :
  DicomParser.is16Bit (sort DicomParser.compareSlices slices) = true <->
  exists s, s ∈ slices /\ is16BitKind (kind (sdata s)) = true.
Proof.
  unfold DicomParser.is16Bit. rewrite existsb_exists.
  split; intros (s&Hs&H16); exists s; split; try done.
  - apply list_elem_of_In in Hs. by rewrite sort_perm in Hs.
  - apply list_elem_of_In. by rewrite sort_perm.
Qed.

Lemma ToUint8_range x : (0 <= ToUint8 x < 256)%Z.
Proof.
  unfold ToUint8. destruct (Prim2SF x); try lia.
  apply Z.mod_pos_bound. lia.
Qed.

Lemma wrap_Uint8_range v : (0 <= wrap Uint8Array v < 256)%Z.
Proof. simpl. apply Z.mod_pos_bound. lia. Qed.

Lemma Forall_foldl_insert {A B} (P : A -> Prop) (h : B -> nat) (g : B -> A)
    (l : list B) e :
  (forall b, P (g b)) -> Forall P e ->
  Forall P (foldl (fun e i => <[h i := g i]> e) e l).
Proof.
  intros Hg. revert e. induction l as [|b l IH]; intros e He; simpl; [done|].
  apply IH. by apply Forall_insert.
Qed.

(** An 8-bit field holds bytes after the fill loops. *)
Lemma assembled_bytes signed sorted rows cols :
  Forall (fun v => (0 <= v < 256)%Z)
    (elems (assembled false signed sorted rows cols)).
Proof.
  unfold assembled, fillVolume.
  generalize (seq 0 (length sorted)) as zs.
  assert (kind (newArray Uint8Array (rows * cols * length sorted)) = Uint8Array
          /\ Forall (fun v => (0 <= v < 256)%Z)
               (elems (newArray Uint8Array (rows * cols * length sorted))))
    as Hinit.
  { split; [done|]. simpl. apply Forall_replicate. lia. }
  revert Hinit. generalize (newArray Uint8Array (rows * cols * length sorted)).
  intros a Ha zs. revert a Ha.
  induction zs as [|z zs IH]; intros a [Hk Ha]; simpl; [done|].
  apply IH. destruct (sorted !! z) as [s|]; [|done].
  unfold fillSlice.
  rewrite (foldl_store (fun i => z * (rows * cols) + i) (load (sdata s))).
  simpl. split; [done|]. rewrite Hk.
  apply Forall_foldl_insert; [intros; apply wrap_Uint8_range|done].
Qed.

(** What the statements from "Create 3D volume" on return: a volume of
    bytes whose length is the product of its dimensions; or the RangeError
    of the normalisation, when a slice has 16 bits and the field has more
    voxels than a call takes arguments. *)
Lemma buildVolume_result maxArguments is16 signed first rest :
  let sorted := first :: rest in
  let size := srows first * scolumns first * length sorted in
  match buildVolume maxArguments is16 signed sorted with
  | Ok vol =>
      dimensions vol = (scolumns first, srows first, length sorted) /\
      alength (data vol) = scolumns first * srows first * length sorted /\
      Forall (fun v => (0 <= v < 256)%Z) (elems (data vol)) /\
      (is16 = true -> size <= maxArguments)
  | Throw message =>
      message = "RangeError"%string /\ is16 = true /\ maxArguments < size
  end.
Proof.
  intros sorted size. subst sorted. rewrite buildVolume_spec.
  set (sorted := first :: rest) in *.
  pose proof (alength_assembled is16 signed sorted (srows first)
                (scolumns first)) as Hal.
  destruct is16; cbn [andb].
  - case_bool_decide as Hle; cbn [negb].
    + cbn [dimensions data]. split; [done|]. split; [|split; [|done]].
      * unfold alength in *. cbn [elems]. rewrite length_fmap, Hal. lia.
      * cbn [elems]. apply Forall_fmap, Forall_true. intros v.
        apply ToUint8_range.
    + split; [done|]. split; [done|]. fold size in Hle. lia.
  - cbn [dimensions data]. split; [done|]. split; [rewrite Hal; lia|].
    split; [apply assembled_bytes|done].
Qed.

(** Every volume that [assemble] returns holds bytes, as many as the
    product of its dimensions, and has a positive depth. *)
Lemma assemble_Ok maxArguments slices vol :
  DicomParser.assemble maxArguments slices = Ok vol ->
  exists first,
    slices <> [] /\
    head (sort DicomParser.compareSlices slices) = Some first /\
    dimensions vol = (scolumns first, srows first, length slices) /\
    alength (data vol) = scolumns first * srows first * length slices /\
    Forall (fun v => (0 <= v < 256)%Z) (elems (data vol)).
Proof.
  intros Hvol. assert (slices <> []) as Hne by (by intros ->).
  rewrite assemble_spec in Hvol by done.
  destruct (sort_cons DicomParser.compareSlices _ Hne) as (first&rest&Hs).
  pose proof (sort_length DicomParser.compareSlices slices) as Hlen.
  rewrite Hs in *.
  pose proof (buildVolume_result maxArguments
                (DicomParser.is16Bit (first :: rest))
                (DicomParser.isSigned (first :: rest)) first rest) as Hr.
  cbv zeta in Hr. rewrite Hvol, Hlen in Hr. destruct Hr as (?&?&?&_).
  by exists first.
Qed.

End Volume.

(** ** The order of the slices *)

Section Order.

(** Every record that dicom-parser.js pushes has a number as
    [instanceNumber] (0 when the file has no InstanceNumber), so the
    comparator never reaches [localeCompare]. *)
Lemma collected_instanceNumber parsed s :
  s ∈ DicomParser.collectSlices parsed ->
  exists fileName d,
    (fileName, Ok d) ∈ parsed /\
    instanceNumber s = Some (instanceNumberOrZero (metadata d)).
Proof.
  intros Hs. apply elem_of_collectSlices in Hs as (fileName&d&Hin&Ha).
  apply acceptSlice_Some in Ha as (px&_&_&_&->). eauto.
Qed.

Lemma compareSlices_numeric parsed a b :
  a ∈ DicomParser.collectSlices parsed ->
  b ∈ DicomParser.collectSlices parsed ->
  exists x y, instanceNumber a = Some x /\ instanceNumber b = Some y /\
              DicomParser.compareSlices a b = (x - y)%Z.
Proof.
  intros Ha Hb.
  apply collected_instanceNumber in Ha as (?&da&_&Ha).
  apply collected_instanceNumber in Hb as (?&db&_&Hb).
  exists (instanceNumberOrZero (metadata da)),
         (instanceNumberOrZero (metadata db)).
  unfold DicomParser.compareSlices. rewrite Ha, Hb.
  split; [done|]. split; [done|].
  unfold orZero. repeat case_match; lia.
Qed.

End Order.

Section KeyedSort.

Context {A : Type} (key : A -> Z).

Local Abbreviation byKey := (fun a b : A => (key a - key b)%Z).

Lemma insertSorted_ext (cmp cmp' : A -> A -> Z) x l :
  (forall b, b ∈ l -> cmp x b = cmp' x b) ->
  insertSorted cmp x l = insertSorted cmp' x l.
Proof.
  induction l as [|y l IH]; intros Hc; simpl; [done|].
  rewrite (Hc y) by left. case_match; [done|].
  f_equal. apply IH. intros b Hb. apply Hc. by right.
Qed.

(** The sort only consults the comparator on the elements of the list. *)
Lemma sort_ext_in (cmp cmp' : A -> A -> Z) l :
  (forall a b, a ∈ l -> b ∈ l -> cmp a b = cmp' a b) ->
  sort cmp l = sort cmp' l.
Proof.
  induction l as [|x l IH]; intros Hc; [done|].
  unfold sort in *. simpl. rewrite IH by (intros; apply Hc; by right).
  apply insertSorted_ext. intros b Hb. apply Hc; [left|].
  right. apply list_elem_of_In. apply list_elem_of_In in Hb.
  by rewrite <- (sort_perm cmp' l).
Qed.

Lemma insertSorted_keyed_sorted x l :
  StronglySorted (fun a b => (key a <= key b)%Z) l ->
  StronglySorted (fun a b => (key a <= key b)%Z) (insertSorted byKey x l).
Proof.
  induction 1 as [|y l Hs IH Hy]; simpl.
  - repeat constructor.
  - destruct (Z.leb_spec (key x - key y) 0) as [Hle|Hgt].
    + constructor; [by constructor|].
      constructor; [lia|]. eapply Forall_impl; [exact Hy|].
      intros b Hb. simpl in Hb. lia.
    + constructor; [done|]. rewrite insertSorted_perm.
      constructor; [lia|done].
Qed.

(** The slices come out in ascending order of their key. *)
Lemma sort_keyed_sorted l :
  StronglySorted (fun a b => (key a <= key b)%Z) (sort byKey l).
Proof.
  induction l as [|x l IH]; [constructor|].
  unfold sort in *. simpl. by apply insertSorted_keyed_sorted.
Qed.

Lemma insertSorted_keyed_stable k x l :
  filter (fun a => key a = k) (insertSorted byKey x l)
  = filter (fun a => key a = k) (x :: l).
Proof.
  induction l as [|y l IH]; simpl; [done|].
  destruct (Z.leb_spec (key x - key y) 0) as [Hle|Hgt]; [done|].
  rewrite filter_cons, IH, !filter_cons.
  repeat case_decide; try done; lia.
Qed.

(** Slices with equal keys keep their enumeration order. *)
Lemma sort_keyed_stable k l :
  filter (fun a => key a = k) (sort byKey l) = filter (fun a => key a = k) l.
Proof.
  induction l as [|x l IH]; [done|].
  unfold sort in *. simpl.
  rewrite insertSorted_keyed_stable, !filter_cons, IH. done.
Qed.

End KeyedSort.

Lemma compareSlices_keyed parsed :
  sort DicomParser.compareSlices (DicomParser.collectSlices parsed)
  = sort (fun a b => (Spec.instanceKey a - Spec.instanceKey b)%Z)
      (DicomParser.collectSlices parsed).
Proof.
  apply sort_ext_in. intros a b Ha Hb.
  destruct (compareSlices_numeric parsed a b Ha Hb) as (x&y&Hx&Hy&->).
  unfold Spec.instanceKey. by rewrite Hx, Hy.
Qed.

(** ** The tag stream decoder *)

Section Decoder.

Local Open Scope Z_scope.

Lemma byteValue_range b : 0 <= byteValue b < 256.
Proof.
  unfold byteValue. pose proof (Byte.to_N_bounded b). lia.
Qed.

Lemma getUint8_Some buf i b :
  getUint8 buf i = Some b -> 0 <= i < byteLength buf /\ 0 <= b < 256.
Proof.
  unfold getUint8, byteLength. destruct (Z.ltb_spec i 0); [done|].
  destruct (buf !! Z.to_nat i) as [x|] eqn:Hx; [|done].
  intros [= <-]. apply lookup_lt_Some in Hx.
  split; [lia|apply byteValue_range].
Qed.

Lemma getUint8_in_range buf i :
  0 <= i < byteLength buf -> is_Some (getUint8 buf i).
Proof.
  unfold getUint8, byteLength. intros Hi.
  destruct (Z.ltb_spec i 0); [lia|].
  destruct (lookup_lt_is_Some_2 buf (Z.to_nat i)) as [x ->]; [lia|].
  by eexists.
Qed.

Lemma getUint16_Some buf i v :
  getUint16 buf i = Some v -> 0 <= i /\ i + 2 <= byteLength buf /\ 0 <= v.
Proof.
  unfold getUint16. destruct (getUint8 buf i) as [b0|] eqn:H0; [|done].
  destruct (getUint8 buf (i + 1)) as [b1|] eqn:H1; [|done].
  simpl. intros [= <-].
  apply getUint8_Some in H0. apply getUint8_Some in H1. lia.
Qed.

Lemma getUint16_in_range buf i :
  0 <= i -> i + 2 <= byteLength buf -> is_Some (getUint16 buf i).
Proof.
  intros H0 H2. unfold getUint16.
  destruct (getUint8_in_range buf i) as [b0 ->]; [lia|].
  destruct (getUint8_in_range buf (i + 1)) as [b1 ->]; [lia|].
  by eexists.
Qed.

Lemma getUint32_Some buf i v :
  getUint32 buf i = Some v -> 0 <= i /\ i + 4 <= byteLength buf /\ 0 <= v.
Proof.
  unfold getUint32. destruct (getUint16 buf i) as [lo|] eqn:H0; [|done].
  destruct (getUint16 buf (i + 2)) as [hi|] eqn:H1; [|done].
  simpl. intros [= <-].
  apply getUint16_Some in H0. apply getUint16_Some in H1. lia.
Qed.

(** The two files decode the length of an element in the same way: the
    [else break] of dicom-parser-fixed.js leaves where the next test of
    dicom-parser.js leaves. *)
Lemma readLength_policy p p' buf vr o :
  readLength p buf vr o = readLength p' buf vr o.
Proof.
  unfold readLength. destruct (isLongVR vr); [|done].
  destruct (Z.leb_spec (o + 6 + 4) (byteLength buf)) as [Hle|Hgt]; [done|].
  destruct (breakBeforeGroupLength p), (breakBeforeGroupLength p'); try done.
  - destruct (Z.leb_spec (o + 6 + 4) (byteLength buf)); [lia|done].
  - destruct (Z.leb_spec (o + 6 + 4) (byteLength buf)); [lia|done].
Qed.

(** Decoding a header moves forward: the value starts at least 8 bytes
    after the tag, and its length is not negative. *)
Lemma readLength_progress p buf vr o :
  match readLength p buf vr o with
  | HeaderOk length valueOffset => o + 8 <= valueOffset /\ 0 <= length
  | HeaderBreak o' => o <= o'
  | HeaderRaise o' => o <= o'
  end.
Proof.
  unfold readLength.
  repeat (case_match; simplify_eq; try lia);
    repeat match goal with
           | H : getUint32 _ _ = Some _ |- _ => apply getUint32_Some in H
           | H : getUint16 _ _ = Some _ |- _ => apply getUint16_Some in H
           end; lia.
Qed.

Lemma nextOffset_ge vr length valueOffset :
  valueOffset + length <= nextOffset vr length valueOffset.
Proof. unfold nextOffset. case_match; lia. Qed.

Lemma offset_setOffset st o : offset (setOffset st o) = o.
Proof. reflexivity. Qed.

(** One pass through the [try] block never moves back, and moves at least
    8 bytes forward when the loop goes on without an exception. *)
Lemma tryElement_progress p buf st :
  match tryElement p buf st with
  | Completed st' => offset st + 8 <= offset st'
  | Continued o => offset st + 8 <= o
  | Broke o => offset st <= o
  | Raised o => offset st <= o
  end.
Proof.
  unfold tryElement.
  destruct (getUint16 buf (offset st)); [|lia].
  destruct (getUint16 buf (offset st + 2)); [|lia].
  destruct (checkTagRoom p && _); [lia|].
  destruct (getUint8 buf (offset st + 4)); [|lia].
  destruct (getUint8 buf (offset st + 5)); [|lia].
  match goal with
  | |- context [readLength p buf ?vr ?o] =>
      pose proof (readLength_progress p buf vr o) as Hh;
      destruct (readLength p buf vr o) as [len vo|o'|o']
  end; [|lia..].
  destruct (byteLength buf <? vo + len).
  { destruct (resyncOnOverrun p); lia. }
  destruct (dispatchTag _ _ _ _ _ _ _); [|lia].
  rewrite offset_setOffset. pose proof (nextOffset_ge
    (String (fromCharCode z1) (String (fromCharCode z2) EmptyString)) len vo).
  lia.
Qed.

(** The loop ends: with a positive [catchSkip], [fuel] iterations suffice
    as soon as [fuel] is at least the distance to the end of the loop. *)
Lemma parseLoop_terminates p buf :
  0 < catchSkip p ->
  forall fuel st,
    byteLength buf - 8 - offset st <= Z.of_nat fuel ->
    is_Some (parseLoop p fuel buf st).
Proof.
  intros Hskip. induction fuel as [|fuel IH]; intros st Hfuel; simpl.
  - destruct (Z.ltb_spec (offset st) (byteLength buf - 8)); [lia|by eexists].
  - destruct (Z.ltb_spec (offset st) (byteLength buf - 8)); [|by eexists].
    pose proof (tryElement_progress p buf st) as Hp.
    destruct (tryElement p buf st) as [st'|o|o|o].
    + apply IH. lia.
    + by eexists.
    + apply IH. rewrite offset_setOffset. lia.
    + destruct (byteLength buf <=? o + catchSkip p); [by eexists|].
      apply IH. rewrite offset_setOffset. lia.
Qed.

Lemma startOffset_Some buf :
  exists o, startOffset buf = Some o /\ (o = 0 \/ o = 132).
Proof.
  unfold startOffset. destruct (Z.ltb_spec 132 (byteLength buf)); [|eauto].
  destruct (getUint8_in_range buf 128) as [m0 ->]; [lia|].
  destruct (getUint8_in_range buf 129) as [m1 ->]; [lia|].
  destruct (getUint8_in_range buf 130) as [m2 ->]; [lia|].
  destruct (getUint8_in_range buf 131) as [m3 ->]; [lia|].
  simpl. case_bool_decide; eauto.
Qed.

(** [parseDicom] of dicom-parser.js returns for every buffer. *)
Lemma parseDicom_returns buf :
  exists d, DicomParserParse.parseDicom buf = Some (Ok d).
Proof.
  unfold DicomParserParse.parseDicom, DicomParserParse.parseDicomFuel.
  destruct (startOffset_Some buf) as (o&->&Ho).
  destruct (parseLoop_terminates DicomParserParse.policy buf ltac:(done)
              (length buf) (initialState o)) as [st ->].
  { unfold byteLength. simpl. lia. }
  simpl. eauto.
Qed.

(** [parseDicom] of dicom-parser-fixed.js returns for every buffer. *)
Lemma fixed_parseDicom_returns buf :
  exists d, DicomParserFixed.parseDicom buf = Some (Ok d).
Proof.
  unfold DicomParserFixed.parseDicom, DicomParserFixed.parseDicomFuel.
  destruct (startOffset_Some buf) as (o&->&Ho).
  destruct (parseLoop_terminates DicomParserFixed.policy buf ltac:(done)
              (length buf) (initialState o)) as [st ->].
  { unfold byteLength. simpl. lia. }
  simpl. eauto.
Qed.

(** An element whose declared length overruns the buffer ends the [try]
    block at its value offset: a [break] in dicom-parser.js, a [continue]
    in dicom-parser-fixed.js. *)
Lemma tryElement_overrun p buf st vr len valueOffset :
  0 <= offset st < byteLength buf - 8 ->
  vrAt buf (offset st) = Some vr ->
  readLength p buf vr (offset st) = HeaderOk len valueOffset ->
  byteLength buf < valueOffset + len ->
  tryElement p buf st
  = if resyncOnOverrun p then Continued valueOffset else Broke valueOffset.
Proof.
  intros Ho Hvr Hh Hover. unfold tryElement, vrAt in *.
  destruct (getUint16_in_range buf (offset st)) as [g ->]; [lia..|].
  destruct (getUint16_in_range buf (offset st + 2)) as [e ->]; [lia..|].
  destruct (Z.ltb_spec (byteLength buf) (offset st + 8)); [lia|].
  rewrite andb_false_r.
  destruct (getUint8 buf (offset st + 4)) as [c0|]; [|done].
  destruct (getUint8 buf (offset st + 5)) as [c1|]; [|done].
  simpl in Hvr. injection Hvr as <-. rewrite Hh.
  destruct (Z.ltb_spec (byteLength buf) (valueOffset + len)); [done|lia].
Qed.

End Decoder.

(** ** No pixel data out of the tag stream

    The tag of an element is compared as text: [toString(16)] writes the
    digits above 9 in lower case, and the literal of the PixelData test,
    '7FE00010', has them in upper case. *)

Section PixelDataTag.

Local Open Scope Z_scope.

Lemma hexDigit_not_upper_E d : hexDigit d <> "E"%char.
Proof.
  destruct d as [|q|q]; [done| |done].
  do 4 (destruct q as [q|q|]; try done).
Qed.

Lemma tag_never_PixelData group element :
  String.eqb (hex4 group ++ hex4 element) "7FE00010" = false.
Proof.
  apply String.eqb_neq. unfold hex4. simpl. intros [= _ _ H _].
  by apply hexDigit_not_upper_E in H.
Qed.

(** No branch of the chain other than the first assigns [pixelData]. *)
Lemma dispatchTag_pixelData bounded buf st group element vr length vo st' :
  dispatchTag bounded buf st (hex4 group ++ hex4 element) vr length vo
    = Some st' ->
  ppixelData st' = ppixelData st.
Proof.
  unfold dispatchTag. rewrite tag_never_PixelData.
  repeat case_match; intros; simplify_option_eq; done.
Qed.

Lemma tryElement_pixelData p buf st st' :
  tryElement p buf st = Completed st' -> ppixelData st' = ppixelData st.
Proof.
  unfold tryElement.
  destruct (getUint16 buf (offset st)) as [group|]; [|done].
  destruct (getUint16 buf (offset st + 2)) as [element|]; [|done].
  destruct (checkTagRoom p && _); [done|].
  destruct (getUint8 buf (offset st + 4)); [|done].
  destruct (getUint8 buf (offset st + 5)); [|done].
  destruct (readLength _ _ _ _) as [len vo|?|?]; [|done..].
  destruct (byteLength buf <? vo + len); [by destruct (resyncOnOverrun p)|].
  destruct (dispatchTag _ _ _ _ _ _ _) as [st1|] eqn:Hd; [|done].
  intros [= <-]. simpl. by eapply dispatchTag_pixelData.
Qed.

Lemma parseLoop_pixelData p buf fuel st st' :
  parseLoop p fuel buf st = Some st' -> ppixelData st' = ppixelData st.
Proof.
  revert st. induction fuel as [|fuel IH]; intros st; simpl.
  - case_match; [done|]. by intros [= <-].
  - case_match; [|by intros [= <-]].
    destruct (tryElement p buf st) as [st1|o|o|o] eqn:Ht.
    + intros H1. rewrite (IH _ H1). by eapply tryElement_pixelData.
    + by intros [= <-].
    + intros H1. by rewrite (IH _ H1).
    + case_match; [by intros [= <-]|]. intros H1. by rewrite (IH _ H1).
Qed.

(** [parseDicom] of dicom-parser.js never returns pixel data. *)
Lemma parseDicom_no_pixelData buf r :
  DicomParserParse.parseDicom buf = Some (Ok r) -> pixelData r = None.
Proof.
  unfold DicomParserParse.parseDicom, DicomParserParse.parseDicomFuel.
  destruct (startOffset buf) as [o|]; [|done].
  destruct (parseLoop _ _ _ _) as [st|] eqn:Hl; [|done].
  simpl. intros [= <-]. simpl.
  by rewrite (parseLoop_pixelData _ _ _ _ _ Hl).
Qed.

(** So [processDicomFolder] of dicom-parser.js accepts no file of any
    batch, and throws. *)
Lemma processDicomFolder_always_throws maxArguments files :
  DicomParserFolder.processDicomFolder maxArguments files
  = Some (Throw "No valid DICOM files found with pixel data").
Proof.
  unfold DicomParserFolder.processDicomFolder.
  assert (exists parsed,
    mapM (fun f => r ← DicomParserParse.parseDicom (arrayBuffer f);
                   Some (name f, r)) files = Some parsed
    /\ DicomParser.collectSlices parsed = []) as (parsed&->&Hnil).
  { induction files as [|f files (parsed&IH&Hnil)]; [by exists []|].
    destruct (parseDicom_returns (arrayBuffer f)) as [d Hd].
    exists ((name f, Ok d) :: parsed). split.
    - cbn. rewrite Hd. cbn. rewrite IH. done.
    - rewrite collectSlices_omap in *. cbn.
      unfold DicomParser.acceptSlice.
      rewrite (parseDicom_no_pixelData _ _ Hd). exact Hnil. }
  simpl. by rewrite Hnil.
Qed.

End PixelDataTag.

(** ** The atlas *)

Section GuardedWrites.

Context {C A : Type} (idx : C -> nat) (val : C -> A) (ok : C -> bool).

Local Abbreviation step := (Spec.guardedStore idx val ok).

Lemma guarded_length t cs : length (foldl step t cs) = length t.
Proof.
  revert t. induction cs as [|c cs IH]; intros t; simpl; [done|].
  rewrite IH. unfold Spec.guardedStore. case_match; [apply length_insert|done].
Qed.

(** A texel that no store addresses keeps its value. *)
Lemma guarded_untouched i t cs :
  (forall c, c ∈ cs -> idx c <> i) -> foldl step t cs !! i = t !! i.
Proof.
  revert t. induction cs as [|c cs IH]; intros t Hcs; simpl; [done|].
  rewrite IH by (intros c' Hc'; apply Hcs; by right).
  unfold Spec.guardedStore. case_match; [|done].
  apply list_lookup_insert_ne, Hcs. left.
Qed.

(** A texel addressed by a store of the loop ends with the value of that
    store, when the stores to one address agree. *)
Lemma guarded_written c t cs :
  ok c = true -> idx c < length t ->
  (forall c', c' ∈ cs -> idx c' = idx c -> val c' = val c) ->
  t !! idx c = Some (val c) \/ c ∈ cs ->
  foldl step t cs !! idx c = Some (val c).
Proof.
  intros Hok. revert t. induction cs as [|c0 cs IH]; intros t Hlen Hagree Hc.
  { destruct Hc as [?|Hc]; [done|]. by apply not_elem_of_nil in Hc. }
  simpl. apply IH.
  - unfold Spec.guardedStore. case_match; [by rewrite length_insert|done].
  - intros c' Hc'. apply Hagree. by right.
  - destruct Hc as [Ht|Hc].
    + left. unfold Spec.guardedStore. case_match; [|done].
      destruct (decide (idx c0 = idx c)) as [Heq|Hne].
      * rewrite Heq, list_lookup_insert_eq by done.
        f_equal. apply Hagree; [left|done].
      * by rewrite list_lookup_insert_ne.
    + apply elem_of_cons in Hc as [->|Hc]; [|by right].
      left. unfold Spec.guardedStore. rewrite Hok.
      destruct (Nat.ltb_spec (idx c0) (length t)); [|lia]. simpl.
      by apply list_lookup_insert_eq.
Qed.

End GuardedWrites.

Section AtlasArithmetic.

(** A number written as [a * n + b] with [b < n] has one such writing. *)
Lemma radix_unique n a b a' b' :
  b < n -> b' < n -> a * n + b = a' * n + b' -> a = a' /\ b = b'.
Proof.
  intros Hb Hb' Heq.
  assert (a = a') as ->; [|lia].
  destruct (Nat.lt_trichotomy a a') as [Hlt|[->|Hlt]]; [nia|done|nia].
Qed.

(** [ceilSqrt d] is the least [s] with [d <= s * s]. *)
Lemma ceilSqrt_spec d :
  0 < d ->
  (VolumeRenderer.ceilSqrt d - 1) * (VolumeRenderer.ceilSqrt d - 1) < d
  /\ d <= VolumeRenderer.ceilSqrt d * VolumeRenderer.ceilSqrt d.
Proof.
  intros Hd. unfold VolumeRenderer.ceilSqrt.
  pose proof (Nat.sqrt_spec d ltac:(lia)) as [Hlo Hhi].
  destruct (Nat.eqb_spec (Nat.sqrt d * Nat.sqrt d) d) as [Heq|Hne].
  - split; [|lia]. destruct (Nat.sqrt d); [lia|]. simpl in *. nia.
  - split; [|lia]. replace (S (Nat.sqrt d) - 1) with (Nat.sqrt d) by lia.
    lia.
Qed.

Lemma ceilSqrt_pos d : 0 < d -> 0 < VolumeRenderer.ceilSqrt d.
Proof. intros Hd. pose proof (ceilSqrt_spec d Hd). nia. Qed.

(** [ceilDiv a b] is the least [r] with [a <= r * b]. *)
Lemma ceilDiv_spec a b :
  0 < a -> 0 < b ->
  (VolumeRenderer.ceilDiv a b - 1) * b < a
  /\ a <= VolumeRenderer.ceilDiv a b * b.
Proof.
  intros Ha Hb. unfold VolumeRenderer.ceilDiv.
  pose proof (Nat.div_mod_eq a b) as Hdm.
  pose proof (Nat.mod_upper_bound a b ltac:(lia)) as Hm.
  destruct (Nat.eqb_spec (a mod b) 0) as [Heq|Hne].
  - rewrite Heq in Hdm. split; [|lia].
    destruct (a / b); [lia|]. simpl. nia.
  - split; [|nia]. replace (S (a / b) - 1) with (a / b) by lia. nia.
Qed.

(** Distinct voxels go to distinct texels. *)
Lemma texelIndex_inj W H spr z y x z' y' x' :
  0 < spr -> y < H -> x < W -> y' < H -> x' < W ->
  Spec.texelIndex W H spr z y x = Spec.texelIndex W H spr z' y' x' ->
  z = z' /\ y = y' /\ x = x'.
Proof.
  intros Hspr Hy Hx Hy' Hx' Heq. unfold Spec.texelIndex in Heq.
  pose proof (Nat.mod_upper_bound z spr ltac:(lia)) as Hm.
  pose proof (Nat.mod_upper_bound z' spr ltac:(lia)) as Hm'.
  apply radix_unique in Heq as [Hrow Hcol]; [|nia..].
  apply radix_unique in Hrow as [Hr ->]; [|done..].
  apply radix_unique in Hcol as [Hc ->]; [|done..].
  split; [|done].
  rewrite (Nat.div_mod_eq z spr), (Nat.div_mod_eq z' spr). by rewrite Hr, Hc.
Qed.

(** Every voxel of a volume has its texel inside the atlas. *)
Lemma texelIndex_lt W H spr rows D z y x :
  0 < spr -> D <= rows * spr -> z < D -> y < H -> x < W ->
  Spec.texelIndex W H spr z y x < spr * W * (rows * H).
Proof.
  intros Hspr HD Hz Hy Hx. unfold Spec.texelIndex.
  pose proof (Nat.mod_upper_bound z spr ltac:(lia)) as Hm.
  pose proof (Nat.div_mod_eq z spr) as Hdm.
  assert (z / spr < rows) as Hrow by nia.
  assert (z mod spr * W + x < spr * W) as Hcol by nia.
  assert (z / spr * H + y < rows * H) as Hr by nia.
  nia.
Qed.

Lemma voxelIndex_lt W H D z y x :
  z < D -> y < H -> x < W -> Spec.voxelIndex W H z y x < W * H * D.
Proof.
  intros Hz Hy Hx. unfold Spec.voxelIndex.
  assert (y * W + x < H * W) as Hyx by nia.
  assert (S z * (W * H) <= D * (W * H)) as Hzd
    by (apply Nat.mul_le_mono_r; lia).
  nia.
Qed.

Lemma elem_of_coords W H D z y x :
  (z, y, x) ∈ Spec.coords W H D <-> z < D /\ y < H /\ x < W.
Proof.
  unfold Spec.coords. rewrite list_elem_of_bind. split.
  - intros (z'&Hin&Hz). apply list_elem_of_bind in Hin as (y'&Hin&Hy).
    apply list_elem_of_bind in Hin as (x'&Hin&Hx).
    apply list_elem_of_singleton in Hin as [= -> -> ->].
    apply elem_of_seq in Hz, Hy, Hx. lia.
  - intros (Hz&Hy&Hx). exists z. split; [|apply elem_of_seq; lia].
    apply list_elem_of_bind. exists y. split; [|apply elem_of_seq; lia].
    apply list_elem_of_bind. exists x. split; [|apply elem_of_seq; lia].
    by apply list_elem_of_singleton.
Qed.

Lemma foldl_bind {X Y Z} (f : X -> Z -> X) (g : Y -> list Z) a l :
  foldl f a (l ≫= g) = foldl (fun a b => foldl f a (g b)) a l.
Proof.
  revert a. induction l as [|b l IH]; intros a; [done|].
  cbn. rewrite foldl_app. apply IH.
Qed.

End AtlasArithmetic.

Section Atlas.

Lemma foldl_ext_all {X Y} (f g : X -> Y -> X) a l :
  (forall a x, f a x = g a x) -> foldl f a l = foldl g a l.
Proof.
  intros Hfg. revert a. induction l as [|x l IH]; intros a; simpl; [done|].
  by rewrite Hfg, IH.
Qed.

(** The three loops of "Fill texture data" as one loop over the voxels. *)
Lemma packAtlas_textureData W H D values :
  VolumeRenderer.textureData (VolumeRenderer.packAtlas W H D values)
  = foldl
      (fun t c =>
         if (Spec.voxelIndex W H c.1.1 c.1.2 c.2 <? length values)
            && (Spec.texelIndex W H (VolumeRenderer.ceilSqrt D)
                  c.1.1 c.1.2 c.2 <? length t)
         then <[Spec.texelIndex W H (VolumeRenderer.ceilSqrt D)
                  c.1.1 c.1.2 c.2
                := VolumeRenderer.clampByte
                     (nth (Spec.voxelIndex W H c.1.1 c.1.2 c.2) values 0%Z)]> t
         else t)
      (replicate
         (VolumeRenderer.ceilSqrt D * W
          * (VolumeRenderer.ceilDiv D (VolumeRenderer.ceilSqrt D) * H)) 0%Z)
      (Spec.coords W H D).
Proof.
  unfold Spec.coords. rewrite foldl_bind.
  unfold VolumeRenderer.packAtlas; cbn [VolumeRenderer.textureData].
  apply foldl_ext_all; intros t z. rewrite foldl_bind.
  apply foldl_ext_all; intros t' y. rewrite foldl_bind.
  apply foldl_ext_all; intros t'' x. reflexivity.
Qed.

Lemma clampByte_id v : (0 <= v <= 255)%Z -> VolumeRenderer.clampByte v = v.
Proof. unfold VolumeRenderer.clampByte. lia. Qed.

End Atlas.

(** ** The fragment shader *)

Section ShaderFacts.

Local Open Scope Q_scope.
Import Shader.

Lemma Qltb_lt a b : Qltb a b = true <-> a < b.
Proof.
  unfold Qltb. rewrite negb_true_iff, <- not_true_iff_false, Qle_bool_iff.
  split; [apply Qnot_le_lt|apply Qlt_not_le].
Qed.

Lemma Qltb_ge a b : Qltb a b = false <-> b <= a.
Proof. unfold Qltb. by rewrite negb_false_iff, Qle_bool_iff. Qed.

Lemma gdiv_Some a b : ~ b == 0 -> gdiv a b = Some (a / b).
Proof.
  intros Hb. unfold gdiv. destruct (Qeq_bool b 0) eqn:E; [|done].
  by apply Qeq_bool_iff in E.
Qed.

Lemma qmax_spec a b : (a <= b /\ qmax a b = b) \/ (b < a /\ qmax a b = a).
Proof.
  unfold qmax. destruct (Qle_bool a b) eqn:E.
  - left. by apply Qle_bool_iff in E.
  - right. split; [|done]. apply Qnot_le_lt. intros H.
    apply Qle_bool_iff in H. congruence.
Qed.

Lemma qmin_spec a b : (a <= b /\ qmin a b = a) \/ (b < a /\ qmin a b = b).
Proof.
  unfold qmin. destruct (Qle_bool a b) eqn:E.
  - left. by apply Qle_bool_iff in E.
  - right. split; [|done]. apply Qnot_le_lt. intros H.
    apply Qle_bool_iff in H. congruence.
Qed.

(** [clamp] respects the equality of rationals. *)
Lemma clamp_compat x y lo hi : x == y -> clamp x lo hi == clamp y lo hi.
Proof.
  intros Hxy. unfold clamp.
  destruct (qmax_spec x lo) as [[? ->]|[? ->]],
           (qmax_spec y lo) as [[? ->]|[? ->]];
    repeat match goal with
           | |- context [qmin ?a ?b] =>
               destruct (qmin_spec a b) as [[? ->]|[? ->]]
           end; lra.
Qed.

(** The denominator of the window is the window width. *)
Lemma windowed_spec u density :
  ~ u_windowWidth u == 0 ->
  exists normalizedDensity,
    windowed u density = Some normalizedDensity /\
    normalizedDensity
    == clamp ((density - (u_windowLevel u - u_windowWidth u / 2))
              / u_windowWidth u) 0 1.
Proof.
  intros Hw. unfold windowed.
  rewrite gdiv_Some by (intros H; apply Hw; lra).
  eexists. split; [reflexivity|]. apply clamp_compat.
  assert (u_windowLevel u + u_windowWidth u * (1 # 2)
          - (u_windowLevel u - u_windowWidth u * (1 # 2))
          == u_windowWidth u) as -> by lra.
  assert (u_windowWidth u * (1 # 2) == u_windowWidth u / 2) as ->
    by (unfold Qdiv; reflexivity).
  reflexivity.
Qed.



Lemma march_S sampleVolume u n step st :
  march sampleVolume u (S n) step st
  = if Qle_bool (95 # 100) (accumulatedAlpha st)
       || bool_decide (200 < steps st)%nat
    then Some st
    else if outsideVolume (currentPosition st) then Some st
    else st' ← marchStep sampleVolume u step st;
         march sampleVolume u n step st'.
Proof. reflexivity. Qed.





End ShaderFacts.

(** ** The scanning parser of dicom-parser-robust.js *)

Section RobustScan.

Local Open Scope Z_scope.
Import DicomParserRobustParse.

Lemma getUint32_in_range buf i :
  0 <= i -> i + 4 <= byteLength buf -> is_Some (getUint32 buf i).
Proof.
  intros H0 H4. unfold getUint32.
  destruct (getUint16_in_range buf i) as [lo ->]; [lia..|].
  destruct (getUint16_in_range buf (i + 2)) as [hi ->]; [lia..|].
  by eexists.
Qed.

Lemma getUint32_None buf i :
  0 <= i -> getUint32 buf i = None <-> byteLength buf < i + 4.
Proof.
  intros H0. split.
  - intros Hn. destruct (Z.lt_ge_cases (byteLength buf) (i + 4)); [done|].
    destruct (getUint32_in_range buf i) as [v Hv]; [lia..|]. congruence.
  - intros Hlt. destruct (getUint32 buf i) as [v|] eqn:Hv; [|done].
    apply getUint32_Some in Hv. lia.
Qed.

(** The only read of [findPixelData] that can leave the buffer is the
    32-bit length after a zero 16-bit length, when the tag starts 13 bytes
    before the end. *)
Lemma pixelDataAt_None buf i :
  0 <= i -> i + 12 < byteLength buf ->
  pixelDataAt buf i = None <->
  (vrOf buf i = "OB" \/ vrOf buf i = "OW")%string /\
  getUint16 buf (i + 6) = Some 0 /\ i = byteLength buf - 13.
Proof.
  intros H0 Hlen. unfold pixelDataAt.
  destruct (getUint16_in_range buf (i + 6)) as [t Ht]; [lia..|].
  destruct (getUint32_in_range buf (i + 6)) as [l Hl]; [lia..|].
  rewrite Ht, Hl. cbn [mbind option_bind].
  assert (forall A (x : option (Z * Z)) (f : Z * Z -> A),
            x ≫= (fun h => Some (f h)) = None <-> x = None) as Hbind.
  { intros A [h|] f; by cbn. }
  rewrite Hbind.
  destruct (String.eqb_spec (vrOf buf i) "OB") as [Hob|Hob];
    destruct (String.eqb_spec (vrOf buf i) "OW") as [How|How];
    cbn [orb]; [congruence| | |split; [done|intros ([?|?]&_); done]].
  all: destruct (Z.eqb_spec t 0) as [->|Hnz]; cbn [andb];
    [|split; [done|intros (_&[= ?]&_); done]].
  all: destruct (Z.leb_spec (i + 6 + 2 + 4) (byteLength buf)); [|lia].
  all: destruct (getUint32 buf (i + 6 + 2 + 2)) as [l2|] eqn:Hl2;
    cbn [mbind option_bind].
  all: try (apply getUint32_Some in Hl2; split; [done|lia]).
  all: apply getUint32_None in Hl2; [|lia]; split; [intros _|done].
  all: split; [tauto|split; [done|lia]].
Qed.

Lemma pixelDataAt_inside buf i info :
  0 <= i -> i + 12 < byteLength buf ->
  pixelDataAt buf i = Some info ->
  i + 8 <= ioffset info /\ 0 <= ilength info /\
  ioffset info + ilength info <= byteLength buf.
Proof.
  intros H0 Hlen. unfold pixelDataAt.
  destruct (if _ : bool then _ else _) as [[length dataOffset]|] eqn:Hh;
    [|done].
  simpl. intros [= <-]. simpl.
  assert (i + 8 <= dataOffset <= byteLength buf /\ 0 <= length) as Hd.
  { repeat (first [case_match | progress simplify_option_eq]);
      repeat match goal with
             | H : getUint32 _ _ = Some _ |- _ => apply getUint32_Some in H
             | H : getUint16 _ _ = Some _ |- _ => apply getUint16_Some in H
             end; lia. }
  repeat case_match; lia.
Qed.

(** The loop of [findPixelData] stops at the first tag. *)
Lemma findPixelDataFrom_first buf n i :
  0 <= i -> (n <> O -> i + Z.of_nat n + 12 <= byteLength buf) ->
  (exists j, i <= j < i + Z.of_nat n /\
     Props.isPixelDataTag buf j = true /\
     (forall k, i <= k < j -> Props.isPixelDataTag buf k = false) /\
     findPixelDataFrom buf i n = Some <$> pixelDataAt buf j)
  \/ ((forall k, i <= k < i + Z.of_nat n -> Props.isPixelDataTag buf k = false)
      /\ findPixelDataFrom buf i n = Some None).
Proof.
  revert i. induction n as [|n IH]; intros i H0 Hlen.
  { right. split; [intros; lia|done]. }
  cbn [findPixelDataFrom]. specialize (Hlen ltac:(done)).
  destruct (getUint16_in_range buf i) as [g Hg]; [lia..|].
  destruct (getUint16_in_range buf (i + 2)) as [e He]; [lia..|].
  rewrite Hg, He. cbn [mbind option_bind].
  destruct ((g =? 32736) && (e =? 16)) eqn:Htag.
  - left. exists i. split; [lia|]. split.
    { unfold Props.isPixelDataTag. by rewrite Hg, He. }
    split; [intros; lia|done].
  - destruct (IH (i + 1)) as [(j&Hj&Hjt&Hbefore&Hr)|[Hnone Hr]]; [lia..| |].
    + left. exists j. split; [lia|]. split; [done|]. split; [|done].
      intros k Hk. destruct (decide (k = i)) as [->|];
        [unfold Props.isPixelDataTag; by rewrite Hg, He|apply Hbefore; lia].
    + right. split; [|done]. intros k Hk.
      destruct (decide (k = i)) as [->|];
        [unfold Props.isPixelDataTag; by rewrite Hg, He|apply Hnone; lia].
Qed.

Lemma findPixelData_first buf :
  (exists j, 0 <= j < byteLength buf - 12 /\
     Props.isPixelDataTag buf j = true /\
     (forall k, 0 <= k < j -> Props.isPixelDataTag buf k = false) /\
     findPixelData buf = Some <$> pixelDataAt buf j)
  \/ ((forall k, 0 <= k < byteLength buf - 12 ->
         Props.isPixelDataTag buf k = false)
      /\ findPixelData buf = Some None).
Proof.
  unfold findPixelData.
  destruct (findPixelDataFrom_first buf (Z.to_nat (byteLength buf - 12)) 0)
    as [(j&Hj&?)|[Hnone ?]]; [lia|lia| |].
  - left. exists j. split; [lia|done].
  - right. split; [|done]. intros k Hk. apply Hnone. lia.
Qed.

(** Whatever [findPixelData] returns lies inside the buffer. *)
Lemma findPixelData_inside buf info :
  findPixelData buf = Some (Some info) ->
  exists i, 0 <= i < byteLength buf - 12 /\
    Props.isPixelDataTag buf i = true /\
    (forall k, 0 <= k < i -> Props.isPixelDataTag buf k = false) /\
    ivr info = vrOf buf i /\
    i + 8 <= ioffset info /\ 0 <= ilength info /\
    ioffset info + ilength info <= byteLength buf.
Proof.
  destruct (findPixelData_first buf) as [(j&Hj&Htag&Hfirst&->)|[_ ->]];
    [|done].
  destruct (pixelDataAt buf j) as [info'|] eqn:Hat; [|done].
  intros [= ->]. exists j. split; [done|]. split; [done|]. split; [done|].
  split.
  { unfold pixelDataAt in Hat.
    destruct (if _ : bool then _ else _); [|done].
    cbn in Hat. by injection Hat as <-. }
  apply pixelDataAt_inside in Hat; [done|lia..].
Qed.

Lemma findPixelData_None buf :
  findPixelData buf = None <->
  0 <= byteLength buf - 13 /\
  (forall k, 0 <= k < byteLength buf - 13 ->
     Props.isPixelDataTag buf k = false) /\
  Props.isPixelDataTag buf (byteLength buf - 13) = true /\
  (vrOf buf (byteLength buf - 13) = "OB"
   \/ vrOf buf (byteLength buf - 13) = "OW")%string /\
  getUint16 buf (byteLength buf - 7) = Some 0.
Proof.
  destruct (findPixelData_first buf) as [(j&Hj&Htag&Hfirst&->)|[Hnone ->]].
  - destruct (pixelDataAt buf j) as [info|] eqn:Hat; cbn.
    + split; [done|]. intros (?&Hbefore&Hlast&Hvr&Hz).
      assert (pixelDataAt buf j = None); [|congruence].
      apply pixelDataAt_None; [lia..|].
      destruct (decide (j = byteLength buf - 13)) as [->|].
      * split; [done|]. split; [|done].
        by replace (byteLength buf - 13 + 6) with (byteLength buf - 7) by lia.
      * rewrite Hbefore in Htag; [done|lia].
    + split; [intros _|done].
      apply pixelDataAt_None in Hat as (Hvr&Hz&->); [|lia..].
      split; [lia|]. split; [done|]. split; [done|]. split; [done|].
      by replace (byteLength buf - 7) with (byteLength buf - 13 + 6) by lia.
  - split; [done|]. intros (?&_&Hlast&_).
    rewrite Hnone in Hlast; [done|lia].
Qed.

End RobustScan.

(** ** [parseDicom] of dicom-parser-robust.js *)

Section RobustParse.

Local Open Scope Z_scope.
Import DicomParserRobustParse.

Lemma getUint16_lt buf i v : getUint16 buf i = Some v -> 0 <= v < 65536.
Proof.
  unfold getUint16. destruct (getUint8 buf i) as [b0|] eqn:H0; [|done].
  destruct (getUint8 buf (i + 1)) as [b1|] eqn:H1; [|done].
  simpl. intros [= <-].
  apply getUint8_Some in H0. apply getUint8_Some in H1. lia.
Qed.

(** [findImageDimensions] never reads outside the buffer, and what it
    returns are 16-bit values. *)
Lemma findImageDimensionsFrom_Some buf n i dims :
  0 <= i -> (n <> O -> i + Z.of_nat n + 8 <= byteLength buf) ->
  0 <= dims.1 < 65536 -> 0 <= dims.2 < 65536 ->
  exists dims', findImageDimensionsFrom buf i n dims = Some dims' /\
                0 <= dims'.1 < 65536 /\ 0 <= dims'.2 < 65536.
Proof.
  revert i dims. induction n as [|n IH]; intros i dims H0 Hlen Hr Hc.
  { by exists dims. }
  cbn [findImageDimensionsFrom]. specialize (Hlen ltac:(done)).
  destruct (getUint16_in_range buf i) as [g ->]; [lia..|].
  destruct (getUint16_in_range buf (i + 2)) as [e ->]; [lia..|].
  cbn [mbind option_bind].
  assert (exists dims1,
    (if g =? 40 then
       if e =? 16 then
         if i + 8 + 2 <=? byteLength buf
         then getUint16 buf (i + 8) ≫= λ rows : Z, Some (rows, dims.2)
         else Some dims
       else if e =? 17 then
         if i + 8 + 2 <=? byteLength buf
         then getUint16 buf (i + 8) ≫= λ columns : Z, Some (dims.1, columns)
         else Some dims
       else Some dims
     else Some dims) = Some dims1
    /\ 0 <= dims1.1 < 65536 /\ 0 <= dims1.2 < 65536) as (dims1&->&?&?).
  { destruct (g =? 40); [|by exists dims].
    destruct (e =? 16); [|destruct (e =? 17); [|by exists dims]].
    all: destruct (Z.leb_spec (i + 8 + 2) (byteLength buf)); [|by exists dims].
    all: destruct (getUint16_in_range buf (i + 8)) as [v Hv]; [lia..|].
    all: rewrite Hv; cbn; apply getUint16_lt in Hv; eexists; split; done. }
  cbn. apply IH; [lia|lia|done..].
Qed.

Lemma findImageDimensions_Some buf :
  exists dims, findImageDimensions buf = Some dims /\
               0 <= dims.1 < 65536 /\ 0 <= dims.2 < 65536.
Proof.
  unfold findImageDimensions. apply findImageDimensionsFrom_Some; simpl; lia.
Qed.

Lemma length_sliceBytes buf a b :
  0 <= a -> a <= b -> b <= byteLength buf ->
  Z.of_nat (length (sliceBytes buf a b)) = b - a.
Proof.
  intros. unfold sliceBytes, byteLength in *.
  rewrite length_fmap, length_take, length_drop. lia.
Qed.

Lemma length_pairsLE bs :
  Z.of_nat (length bs) mod 2 = 0 ->
  Z.of_nat (length (pairsLE bs)) = Z.of_nat (length bs) / 2.
Proof.
  assert (forall n (l : list Z), (length l <= n)%nat ->
            Z.of_nat (length l) mod 2 = 0 ->
            Z.of_nat (length (pairsLE l)) = Z.of_nat (length l) / 2) as H.
  { induction n as [|n IH]; intros [|b0 [|b1 l]] Hn Hm; simpl in *;
      try done; try lia.
    rewrite Nat2Z.inj_succ, IH.
    - replace (Z.of_nat (S (S (length l)))) with (Z.of_nat (length l) + 1 * 2)
        by lia.
      rewrite Z.div_add by done. lia.
    - lia.
    - replace (Z.of_nat (S (S (length l)))) with (Z.of_nat (length l) + 1 * 2)
        in Hm by lia.
      by rewrite Z.mod_add in Hm. }
  intros. by eapply H.
Qed.

(** The region that [findPixelData] returned is turned into samples
    without an exception: the bytes themselves, or their 16-bit view when
    their number is even and [hasHighValues]. *)
Lemma taggedPixelData_Some buf info :
  0 <= ioffset info -> 0 <= ilength info ->
  ioffset info + ilength info <= byteLength buf ->
  exists px, taggedPixelData buf info = Some px /\
    let bytes := sliceBytes buf (ioffset info) (ioffset info + ilength info) in
    if (ilength info mod 2 =? 0) && hasHighValues bytes
    then px = mkTypedArray Uint16Array (pairsLE bytes)
    else px = mkTypedArray Uint8Array bytes.
Proof.
  intros Ho Hl Hin. unfold taggedPixelData.
  destruct (Z.leb_spec 0 (ioffset info)); [|lia].
  destruct (Z.leb_spec 0 (ilength info)); [|lia].
  destruct (Z.leb_spec (ioffset info + ilength info) (byteLength buf)); [|lia].
  cbn [andb]. rewrite length_sliceBytes by lia.
  replace (ioffset info + ilength info - ioffset info) with (ilength info)
    by lia.
  destruct (ilength info mod 2 =? 0) eqn:Heven; cbn [andb]; [|eauto].
  destruct (hasHighValues _) eqn:Hhigh; [|eauto].
  unfold viewOf. rewrite length_sliceBytes by lia.
  replace (ioffset info + ilength info - ioffset info) with (ilength info)
    by lia.
  rewrite Heven. eauto.
Qed.

Lemma afterHeader_Some buf dims :
  0 <= dims.1 -> 0 <= dims.2 ->
  exists r, afterHeader buf dims = Some r.
Proof.
  intros Hr Hc. unfold afterHeader.
  destruct (Z.leb_spec (dims.1 * dims.2) (byteLength buf - (128 + 4)));
    [|eauto].
  assert (0 <= dims.1 * dims.2) by lia.
  destruct (getUint8_in_range buf 128) as [m0 ->]; [lia|].
  destruct (getUint8_in_range buf 129) as [m1 ->]; [lia|].
  destruct (getUint8_in_range buf 130) as [m2 ->]; [lia|].
  destruct (getUint8_in_range buf 131) as [m3 ->]; [lia|].
  cbn. case_match; eauto.
Qed.

Lemma factorFrom_Some totalPixels n :
  (0 < n)%nat ->
  exists w, factorFrom totalPixels n = Some w /\ 0 < w /\
            totalPixels mod w = 0.
Proof.
  induction n as [|n IH]; [lia|]. intros _. cbn [factorFrom].
  destruct (Z.eqb_spec (totalPixels mod Z.of_nat (S n)) 0) as [Hd|Hd].
  { exists (Z.of_nat (S n)). split; [done|]. split; [lia|done]. }
  destruct n as [|n]; [by rewrite Z.mod_1_r in Hd|].
  apply IH. lia.
Qed.

(** After "try to infer correct dimensions", rows times columns is the
    number of samples. *)
Lemma inferDimensions_product dims totalPixels :
  0 <= dims.1 -> 0 <= dims.2 -> 0 <= totalPixels ->
  (inferDimensions dims totalPixels).1 * (inferDimensions dims totalPixels).2
    = totalPixels /\
  0 <= (inferDimensions dims totalPixels).1 /\
  0 <= (inferDimensions dims totalPixels).2.
Proof.
  intros Hr Hc Ht. unfold inferDimensions.
  destruct (Z.eqb_spec (dims.1 * dims.2) totalPixels) as [|Hne]; [done|].
  destruct (List.find _ commonSizes) as [wh|] eqn:Hfind.
  - apply List.find_some in Hfind as [Hin Hwh].
    apply Z.eqb_eq in Hwh. cbn [fst snd].
    replace (wh.2 * wh.1 =? totalPixels) with true
      by (symmetry; apply Z.eqb_eq; lia).
    cbn [fst snd]. split; [lia|].
    unfold commonSizes in Hin. cbn in Hin.
    repeat (destruct Hin as [<-|Hin]; [cbn; lia|]). done.
  - destruct (Z.eqb_spec (dims.1 * dims.2) totalPixels); [done|].
    unfold isPerfectSquare.
    destruct (Z.eqb_spec (Z.sqrt totalPixels * Z.sqrt totalPixels) totalPixels)
      as [Hsq|Hsq].
    { cbn [fst snd]. pose proof (Z.sqrt_nonneg totalPixels). lia. }
    assert (0 < Z.sqrt totalPixels) as Hpos.
    { destruct (Z.eq_dec totalPixels 0) as [->|]; [done|].
      apply Z.sqrt_pos. lia. }
    destruct (factorFrom_Some totalPixels (Z.to_nat (Z.sqrt totalPixels)))
      as (w&->&Hw&Hdiv); [lia|].
    cbn [fst snd]. split; [|split; [apply Z.div_pos; lia|lia]].
    rewrite Z.mul_comm. symmetry. apply Z.div_exact; lia.
Qed.

(** [parseDicom] of dicom-parser-robust.js throws only where
    [findPixelData] does. *)
Lemma parseDicomBody_None buf :
  parseDicomBody buf = None <-> findPixelData buf = None.
Proof.
  unfold parseDicomBody.
  destruct (findPixelData buf) as [info|] eqn:Hfind; [|done].
  cbn [mbind option_bind]. split; [|done]. intros Hnone. exfalso.
  destruct (findImageDimensions_Some buf) as (dims&Hdims&Hr&Hc).
  destruct (afterHeader_Some buf dims) as [r Hr']; [lia..|].
  destruct info as [info|].
  - apply findPixelData_inside in Hfind as (i&Hi&_&_&_&Ho&Hl&Hin).
    destruct (taggedPixelData_Some buf info) as (px&Hpx&_); [lia..|].
    rewrite Hpx, Hdims in Hnone. cbn in Hnone. done.
  - rewrite Hdims in Hnone. cbn in Hnone. rewrite Hr' in Hnone.
    cbn in Hnone. done.
Qed.

Lemma parseDicom_dimensions buf d px :
  parseDicom buf = Ok d -> pixelData d = Some px ->
  (rows d * columns d)%nat = alength px.
Proof.
  unfold parseDicom. destruct (parseDicomBody buf) as [d'|] eqn:Hbody; [|done].
  intros [= ->]. unfold parseDicomBody in Hbody.
  destruct (findPixelData buf) as [info|]; [|done].
  cbn [mbind option_bind] in Hbody.
  destruct (match info with Some _ => _ | None => _ end) as [px0|]; [|done].
  cbn [mbind option_bind] in Hbody.
  destruct (findImageDimensions_Some buf) as (dims&Hdims&Hr&Hc).
  rewrite Hdims in Hbody. cbn [mbind option_bind] in Hbody.
  destruct (match px0 with Some _ => _ | None => _ end) as [px1|]; [|done].
  cbn [mbind option_bind] in Hbody.
  set (px2 := match px1 with Some px => Some px
                        | None => largestBlock buf dims end) in Hbody.
  set (px3 := match px2 with Some px => Some px
                        | None => wholeFile buf dims end) in Hbody.
  injection Hbody as <-. cbn [pixelData rows columns].
  intros ->.
  destruct (inferDimensions_product dims (Z.of_nat (alength px)))
    as (Hprod&?&?); [lia..|].
  rewrite <- Z2Nat.inj_mul by done. rewrite Hprod. lia.
Qed.

End RobustParse.

(** ** dicom-parser-robust.js: the order of the records *)

Section RobustPipeline.

Import DicomParserRobustParse.

Lemma slice0_all px : slice0 px (alength px) = px.
Proof. destruct px as [k l]. unfold slice0, alength. simpl. by rewrite take_ge. Qed.

(** A list already in the order of the comparator is left as it is. *)
Lemma sort_sorted_id {A} (cmp : A -> A -> Z) l :
  StronglySorted (fun a b => (cmp a b <= 0)%Z) l -> sort cmp l = l.
Proof.
  induction 1 as [|x l Hl IH Hx]; [done|].
  unfold sort in *. cbn [foldr]. rewrite IH.
  destruct l as [|y l']; [done|]. cbn [insertSorted].
  apply Forall_cons in Hx as [Hxy _].
  by destruct (Z.leb_spec (cmp x y) 0); [|lia].
Qed.

Lemma numbered_from_sorted (cmp : SliceRecord -> SliceRecord -> Z) k slices :
  (forall a b x y, instanceNumber a = Some x -> instanceNumber b = Some y ->
                   cmp a b = (orZero x - orZero y)%Z) ->
  instanceNumber <$> slices
  = (fun i => Some (Z.of_nat i)) <$> seq k (length slices) ->
  StronglySorted (fun a b => (cmp a b <= 0)%Z) slices.
Proof.
  intros Hcmp. revert k.
  induction slices as [|s slices IH]; intros k Hn; [constructor|].
  cbn in Hn. injection Hn as Hs Hrest. constructor; [by eapply IH|].
  apply Forall_forall. intros b Hb.
  assert (exists j, instanceNumber b = Some (Z.of_nat j) /\ S k <= j)
    as (j&Hj&Hkj).
  { assert (instanceNumber b ∈ instanceNumber <$> slices) as Hin
      by (by apply list_elem_of_fmap_2).
    rewrite Hrest in Hin. apply list_elem_of_fmap in Hin as (j&->&Hin).
    exists j. split; [done|]. apply elem_of_seq in Hin. lia. }
  rewrite (Hcmp _ _ _ _ Hs Hj). unfold orZero. repeat case_match; lia.
Qed.

Lemma numbered_sorted slices :
  Props.numbered slices ->
  sort DicomParserRobust.compareSlices slices = slices
  /\ sort DicomParser.compareSlices slices = slices.
Proof.
  intros H. split; apply sort_sorted_id; eapply numbered_from_sorted; try done.
  - intros a b x y Ha Hb. unfold DicomParserRobust.compareSlices.
    by rewrite Ha, Hb.
  - intros a b x y Ha Hb. unfold DicomParser.compareSlices.
    by rewrite Ha, Hb.
Qed.

Lemma numbered_snoc slices s :
  Props.numbered slices ->
  instanceNumber s = Some (Z.of_nat (length slices)) ->
  Props.numbered (slices ++ [s]).
Proof.
  unfold Props.numbered. intros Hn Hs.
  rewrite fmap_app, length_app, Hn. cbn [length].
  rewrite Nat.add_1_r, seq_S, fmap_app. cbn. by rewrite Hs.
Qed.

Lemma robust_acceptSlice_number n fileName d s :
  DicomParserRobust.acceptSlice n fileName d = Some s ->
  instanceNumber s = Some (Z.of_nat n).
Proof. intros (px&_&_&_&->)%robust_acceptSlice_Some. done. Qed.

Lemma robust_collectSlices_numbered parsed :
  Props.numbered (DicomParserRobust.collectSlices parsed).
Proof.
  unfold DicomParserRobust.collectSlices.
  match goal with |- context [foldl ?f [] parsed] => set (step := f) end.
  assert (forall acc, Props.numbered acc ->
                      Props.numbered (foldl step acc parsed)) as H;
    [|by apply H].
  induction parsed as [|[fileName r] parsed IH]; intros acc Hacc;
    cbn [foldl]; [done|].
  apply IH. subst step. cbn [fst snd]. destruct r as [d|msg]; [|done].
  destruct (DicomParserRobust.acceptSlice _ _ _) as [s|] eqn:Hs; [|done].
  apply numbered_snoc; [done|]. by eapply robust_acceptSlice_number.
Qed.

Lemma lastResort_numbered files acc :
  Props.numbered acc ->
  Props.numbered (DicomParserRobust.lastResort files acc).
Proof.
  unfold DicomParserRobust.lastResort. revert acc.
  induction files as [|f files IH]; intros acc Hacc; cbn [foldl]; [done|].
  destruct (List.find _ _) as [dim|]; [|by apply IH].
  by apply IH, numbered_snoc.
Qed.

(** The choice of the last resort: the first of the four sizes that the
    file can fill, which is never the third or the fourth. *)
Lemma lastResort_find n :
  List.find (fun dim : nat * nat => bool_decide (dim.1 * dim.2 <= n))
    DicomParserRobust.commonDims
  = if decide (512 * 512 <= n) then Some (512, 512)
    else if decide (256 * 256 <= n) then Some (256, 256)
    else None.
Proof.
  unfold DicomParserRobust.commonDims. cbn [List.find fst snd].
  destruct (decide (512 * 512 <= n)) as [H1|H1].
  { rewrite bool_decide_eq_true_2 by exact H1. reflexivity. }
  rewrite bool_decide_eq_false_2 by exact H1.
  destruct (decide (256 * 256 <= n)) as [H2|H2].
  { rewrite bool_decide_eq_true_2 by exact H2. reflexivity. }
  rewrite bool_decide_eq_false_2 by exact H2.
  rewrite bool_decide_eq_false_2 by lia.
  rewrite bool_decide_eq_false_2 by lia. reflexivity.
Qed.

Lemma robust_collectSlices_length_acc parsed acc :
  length (foldl (fun slices (f : string * Result DicomData) =>
           match f.2 with
           | Ok dicomData =>
               match DicomParserRobust.acceptSlice (length slices) f.1
                       dicomData with
               | Some s => slices ++ [s]
               | None => slices
               end
           | Throw _ => slices
           end) acc parsed)
  = length acc + length (filter (fun f => Spec.accepted f = true) parsed).
Proof.
  revert acc. induction parsed as [|[fileName r] parsed IH]; intros acc;
    cbn [foldl fst snd]; [cbn; lia|].
  assert (forall n d,
    is_Some (DicomParserRobust.acceptSlice n fileName d)
    <-> is_Some (DicomParser.acceptSlice fileName d)) as Hsame.
  { intros n d. split; intros [s Hs].
    - apply robust_acceptSlice_Some in Hs as (px&?&?&?&_).
      eexists. apply acceptSlice_Some. eauto 6.
    - apply acceptSlice_Some in Hs as (px&?&?&?&_).
      eexists. apply robust_acceptSlice_Some. eauto 6. }
  destruct (Spec.accepted (fileName, r)) eqn:Hacc.
  - rewrite filter_cons_True by done. cbn [length].
    unfold Spec.accepted in Hacc. cbn [fst snd] in Hacc.
    destruct r as [d|]; [|done]. apply bool_decide_eq_true in Hacc.
    apply (Hsame (length acc)) in Hacc as [s ->].
    rewrite IH, length_app. cbn. lia.
  - rewrite filter_cons_False by (by rewrite Hacc).
    unfold Spec.accepted in Hacc. cbn [fst snd] in Hacc.
    destruct r as [d|]; [|apply IH]. apply bool_decide_eq_false in Hacc.
    destruct (DicomParserRobust.acceptSlice _ _ _) as [s|] eqn:Hs;
      [|apply IH].
    exfalso. apply Hacc, (Hsame (length acc)). by eexists.
Qed.

End RobustPipeline.

(** ** A run of [processDicomFolder] of dicom-parser-robust.js *)

Section RobustRun.

Import DicomParserRobustParse.

Lemma robust_acceptSlice_is_Some n fileName d :
  is_Some (DicomParserRobust.acceptSlice n fileName d) <-> Spec.usable d.
Proof.
  unfold Spec.usable. split.
  - intros [s Hs]. apply robust_acceptSlice_Some in Hs as (px&?&?&?&_).
    eauto.
  - intros (px&?&?&?). eexists. apply robust_acceptSlice_Some. eauto 6.
Qed.

Lemma robust_collectSlices_length parsed :
  length (DicomParserRobust.collectSlices parsed)
  = length (filter (fun f => Spec.accepted f = true) parsed).
Proof.
  unfold DicomParserRobust.collectSlices.
  by rewrite robust_collectSlices_length_acc.
Qed.

Lemma filter_nil_iff {A} (P : A -> Prop) `{!forall x, Decision (P x)} l :
  filter P l = [] <-> forall x, x ∈ l -> ~ P x.
Proof.
  induction l as [|x l IH].
  - split; [intros _ y Hy; by apply not_elem_of_nil in Hy|done].
  - destruct (decide (P x)) as [Hx|Hx].
    + rewrite filter_cons_True by done. split; [done|].
      intros Hall. destruct (Hall x); [left|done].
    + rewrite filter_cons_False by done. rewrite IH. split.
      * intros Hall y Hy.
        apply elem_of_cons in Hy as [->|Hy]; [done|by apply Hall].
      * intros Hall y Hy. apply Hall. by right.
Qed.

(** No record is pushed exactly when no parse outcome is usable. *)
Lemma robust_collectSlices_nil parsed :
  DicomParserRobust.collectSlices parsed = [] <->
  forall f, f ∈ parsed -> Spec.accepted f = false.
Proof.
  rewrite <- length_zero_iff_nil, robust_collectSlices_length,
    length_zero_iff_nil, filter_nil_iff.
  split; intros H f Hf; specialize (H f Hf);
    by destruct (Spec.accepted f).
Qed.

(** What [parseDicom] of dicom-parser-robust.js returns is accepted as
    soon as it has a sample: its rows times its columns is the number of
    its samples. *)
Lemma robust_accepted_hasSamples fileName buf :
  Spec.accepted (fileName, parseDicom buf) = Props.hasSamples (parseDicom buf).
Proof.
  unfold Spec.accepted, Props.hasSamples. cbn [fst snd].
  destruct (parseDicom buf) as [d|] eqn:Hd; [|done].
  destruct (pixelData d) as [px|] eqn:Hpx.
  - pose proof (parseDicom_dimensions _ _ _ Hd Hpx) as Hdims.
    apply bool_decide_ext. rewrite acceptSlice_is_Some. unfold Spec.usable.
    rewrite Hpx. split.
    + by intros (px'&[= <-]&?&_).
    + intros Hpos. exists px. split; [done|]. split; [done|]. left. lia.
  - apply bool_decide_eq_false. rewrite acceptSlice_is_Some.
    unfold Spec.usable. rewrite Hpx. by intros (?&?&_).
Qed.

Lemma robustSlices_nil files :
  Props.robustSlices files = [] <->
  forall f, f ∈ files ->
            Props.hasSamples (parseDicom (arrayBuffer f)) = false.
Proof.
  unfold Props.robustSlices. rewrite robust_collectSlices_nil.
  unfold Props.robustParsed. split.
  - intros H f Hf. rewrite <- (robust_accepted_hasSamples (name f)).
    apply H. apply list_elem_of_fmap. by exists f.
  - intros H p Hp. apply list_elem_of_fmap in Hp as (f&->&Hf).
    rewrite robust_accepted_hasSamples. by apply H.
Qed.

Lemma robustSlices_length files :
  length (Props.robustSlices files)
  = length (filter (fun f => Props.hasSamples (parseDicom (arrayBuffer f))
                             = true) files).
Proof.
  unfold Props.robustSlices. rewrite robust_collectSlices_length.
  unfold Props.robustParsed.
  induction files as [|f files IH]; [done|]. cbn [map].
  destruct (Props.hasSamples (parseDicom (arrayBuffer f))) eqn:Hs.
  - rewrite !filter_cons_True; [cbn; by f_equal|done|].
    by rewrite robust_accepted_hasSamples.
  - rewrite !filter_cons_False; [done|by rewrite Hs|].
    by rewrite robust_accepted_hasSamples, Hs.
Qed.

(** The last resort: a record for every file of at least 256 x 256
    bytes, each with 8-bit samples. *)
Lemma lastResort_acc files acc :
  length (DicomParserRobust.lastResort files acc)
  = length acc
    + length (filter (fun f => 256 * 256 <= length (arrayBuffer f)) files)
  /\ (Forall (fun s => kind (sdata s) = Uint8Array) acc ->
      Forall (fun s => kind (sdata s) = Uint8Array)
        (DicomParserRobust.lastResort files acc)).
Proof.
  unfold DicomParserRobust.lastResort. revert acc.
  induction files as [|f files IH]; intros acc; cbn [foldl].
  { split; [cbn; lia|done]. }
  rewrite length_fmap, lastResort_find.
  destruct (decide (512 * 512 <= length (arrayBuffer f))) as [H1|H1];
    [|destruct (decide (256 * 256 <= length (arrayBuffer f))) as [H2|H2]].
  - destruct (IH (acc ++ [mkSlice
        (mkTypedArray Uint8Array
           (take ((512, 512).1 * (512, 512).2) (byteValue <$> arrayBuffer f)))
        emptyMetadata (512, 512).2 (512, 512).1
        (Some (Z.of_nat (length acc))) (name f)])) as [-> IH8].
    rewrite filter_cons_True by lia. rewrite length_app. cbn [length].
    split; [lia|]. intros Hacc. apply IH8, Forall_app. split; [done|].
    by apply Forall_singleton.
  - destruct (IH (acc ++ [mkSlice
        (mkTypedArray Uint8Array
           (take ((256, 256).1 * (256, 256).2) (byteValue <$> arrayBuffer f)))
        emptyMetadata (256, 256).2 (256, 256).1
        (Some (Z.of_nat (length acc))) (name f)])) as [-> IH8].
    rewrite filter_cons_True by lia. rewrite length_app. cbn [length].
    split; [lia|]. intros Hacc. apply IH8, Forall_app. split; [done|].
    by apply Forall_singleton.
  - destruct (IH acc) as [-> IH8].
    rewrite filter_cons_False by lia. done.
Qed.

Lemma lastResort_nil files :
  DicomParserRobust.lastResort files [] = [] <->
  forall f, f ∈ files -> length (arrayBuffer f) < 256 * 256.
Proof.
  destruct (lastResort_acc files []) as [Hlen _].
  rewrite <- length_zero_iff_nil, Hlen. cbn [length]. rewrite Nat.add_0_l.
  rewrite length_zero_iff_nil, filter_nil_iff.
  split; intros H f Hf; specialize (H f Hf); lia.
Qed.

Lemma robust_is16Bit slices :
  DicomParserRobust.is16Bit slices = true <->
  exists s, s ∈ slices /\ kind (sdata s) = Uint16Array.
Proof.
  unfold DicomParserRobust.is16Bit. rewrite existsb_exists.
  split; intros (s&Hs&H16); exists s.
  - split; [by apply list_elem_of_In|by apply bool_decide_eq_true in H16].
  - split; [by apply list_elem_of_In|by apply bool_decide_eq_true].
Qed.

(** [processDicomFolder] on a batch of which the first loop accepts a
    file. *)
Lemma robust_processDicomFolder_accepted maxArguments files :
  Props.robustSlices files <> [] ->
  processDicomFolder maxArguments files
  = buildVolume maxArguments
      (DicomParserRobust.is16Bit (Props.robustSlices files)) false
      (Props.robustSlices files).
Proof.
  intros Hne. unfold processDicomFolder, DicomParserRobust.processWith.
  fold (Props.robustParsed files). fold (Props.robustSlices files).
  unfold DicomParserRobust.assemble.
  destruct (numbered_sorted (Props.robustSlices files)) as [Hs _].
  { apply robust_collectSlices_numbered. }
  destruct (Props.robustSlices files); [done|]. by rewrite Hs.
Qed.

(** [processDicomFolder] on a batch of which the first loop accepts no
    file. *)
Lemma robust_processDicomFolder_lastResort maxArguments files :
  Props.robustSlices files = [] ->
  processDicomFolder maxArguments files
  = match DicomParserRobust.lastResort files [] with
    | [] =>
        Throw "No valid DICOM files found with pixel data after extensive recovery attempts"
    | first :: rest =>
        Ok (mkVolume
              (assembled false false (first :: rest)
                 (srows first) (scolumns first))
              (scolumns first, srows first, S (length rest)))
    end.
Proof.
  intros Hnil. unfold processDicomFolder, DicomParserRobust.processWith.
  fold (Props.robustParsed files). fold (Props.robustSlices files).
  rewrite Hnil. unfold DicomParserRobust.assemble.
  destruct (numbered_sorted (DicomParserRobust.lastResort files []))
    as [Hs _].
  { by apply lastResort_numbered. }
  destruct (lastResort_acc files []) as [_ H8]. specialize (H8 ltac:(done)).
  destruct (DicomParserRobust.lastResort files []) as [|first rest]; [done|].
  rewrite Hs.
  assert (DicomParserRobust.is16Bit (first :: rest) = false) as ->.
  { apply not_true_iff_false. rewrite robust_is16Bit.
    intros (s&Hs'&Hk). rewrite Forall_forall in H8.
    rewrite (H8 s Hs') in Hk. done. }
  by rewrite buildVolume_spec.
Qed.

End RobustRun.

(** ** dicom-parser-fixed.js: the recovery pass *)

Section FixedFolder.

Import DicomParserFixedFolder.

Lemma fixed_parseDicom_no_pixelData buf r :
  DicomParserFixed.parseDicom buf = Some (Ok r) -> pixelData r = None.
Proof.
  unfold DicomParserFixed.parseDicom, DicomParserFixed.parseDicomFuel.
  destruct (startOffset buf) as [o|]; [|done].
  destruct (parseLoop _ _ _ _) as [st|] eqn:Hl; [|done].
  simpl. intros [= <-]. simpl.
  by rewrite (parseLoop_pixelData _ _ _ _ _ Hl).
Qed.

(** The first loop of [processDicomFolder] of dicom-parser-fixed.js
    accepts no file. *)
Lemma fixed_first_pass_empty files :
  exists parsed,
    mapM (fun f => r ← DicomParserFixed.parseDicom (arrayBuffer f);
                   Some (name f, r)) files = Some parsed
    /\ DicomParser.collectSlices parsed = [].
Proof.
  induction files as [|f files (parsed&IH&Hnil)]; [by exists []|].
  destruct (fixed_parseDicom_returns (arrayBuffer f)) as [d Hd].
  exists ((name f, Ok d) :: parsed). split.
  - cbn. rewrite Hd. cbn. rewrite IH. done.
  - rewrite collectSlices_omap in *. cbn.
    unfold DicomParser.acceptSlice.
    rewrite (fixed_parseDicom_no_pixelData _ _ Hd). exact Hnil.
Qed.

(** A record pushed by the recovery pass: bytes, as many as its rows times
    its columns, numbered by its position. *)
Lemma recoverAt_Some buf n fname i s :
  recoverAt buf n fname i = Some (Some s) ->
  kind (sdata s) = Uint8Array /\
  alength (sdata s) = srows s * scolumns s /\
  instanceNumber s = Some (Z.of_nat n) /\ fileName s = fname.
Proof.
  unfold recoverAt.
  destruct (_ <=? _)%Z; [|done].
  destruct (getUint32 _ _) as [len|]; [|done]. cbn [mbind option_bind].
  destruct (_ <=? _)%Z; [|done].
  destruct (scanDimensions buf) as [dims|]; [|done]. cbn [mbind option_bind].
  set (px := mkTypedArray Uint8Array _).
  destruct (decide (100 < alength px)); [|done].
  destruct (decide (_ <= alength px)) as [Hle|Hgt]; cbn [mbind option_bind].
  - intros [= <-]. cbn. split; [done|]. split; [|done].
    unfold alength in *. cbn in *. rewrite length_take. lia.
  - rewrite padded_spec by lia. cbn [mbind option_bind].
    intros [= <-]. cbn [sdata srows scolumns instanceNumber fileName].
    split; [done|]. split; [|done]. apply alength_zeroPadded. lia.
Qed.

Lemma recoverFrom_Some buf slicesLength fname n i s :
  recoverFrom buf slicesLength fname i n = Some (Some s) ->
  kind (sdata s) = Uint8Array /\
  alength (sdata s) = srows s * scolumns s /\
  instanceNumber s = Some (Z.of_nat slicesLength) /\ fileName s = fname.
Proof.
  revert i. induction n as [|n IH]; intros i; cbn [recoverFrom]; [done|].
  destruct (getUint16 buf i); [|done].
  destruct (getUint16 buf (i + 2)); [|done]. cbn [fmap option_fmap option_map mbind option_bind].
  destruct (_ && _); [|apply IH].
  destruct (recoverAt _ _ _ _) as [[s'|]|] eqn:Hat; cbn [mbind option_bind];
    [|apply IH|done].
  intros [= ->]. by eapply recoverAt_Some.
Qed.

Lemma recoveryPass_invariant files acc :
  Props.numbered acc -> Forall Props.recovered acc ->
  Props.numbered (recoveryPass files acc)
  /\ Forall Props.recovered (recoveryPass files acc).
Proof.
  unfold recoveryPass. revert acc.
  induction files as [|f files IH]; intros acc Hn Hr; cbn [foldl]; [done|].
  apply IH; unfold recoverFile;
    destruct (recoverFrom _ _ _ _ _) as [[s|]|] eqn:Hs; try done.
  - apply recoverFrom_Some in Hs as (_&_&?&_). by apply numbered_snoc.
  - apply recoverFrom_Some in Hs as (?&?&_&_).
    apply Forall_app. split; [done|]. by apply Forall_singleton.
Qed.

Lemma recovered_8bit slices :
  Forall Props.recovered slices ->
  DicomParser.is16Bit slices = false /\ DicomParser.isSigned slices = false.
Proof.
  unfold DicomParser.is16Bit, DicomParser.isSigned.
  induction 1 as [|s slices [Hk _] _ [IH1 IH2]]; [done|].
  cbn [existsb]. by rewrite IH1, IH2, Hk.
Qed.

Lemma fixed_processDicomFolder_recovery maxArguments files :
  processDicomFolder maxArguments files
  = Some
      match recoveryPass files [] with
      | [] => Throw "No valid DICOM files found with pixel data"
      | first :: rest =>
          Ok (mkVolume
                (assembled false false (first :: rest)
                   (srows first) (scolumns first))
                (scolumns first, srows first, S (length rest)))
      end.
Proof.
  unfold processDicomFolder.
  destruct (fixed_first_pass_empty files) as (parsed&Hm&Hnil).
  rewrite Hm. cbn [mbind option_bind]. rewrite Hnil. f_equal.
  unfold assemble.
  destruct (recoveryPass_invariant files []) as [Hn Hr]; [done..|].
  destruct (recoveryPass files []) as [|first rest] eqn:Hrec; [done|].
  rewrite assemble_spec by done.
  destruct (numbered_sorted _ Hn) as [_ ->].
  destruct (recovered_8bit _ Hr) as [-> ->].
  by rewrite buildVolume_spec.
Qed.

End FixedFolder.

(** ** [sampleVolume] and the atlas *)

Section SamplerFacts.

Import Shader Sampler.

Local Open Scope Q_scope.

Lemma Qfloor_unique x k :
  inject_Z k <= x -> x < inject_Z (k + 1) -> Qfloor x = k.
Proof.
  intros Hle Hlt.
  pose proof (Qfloor_le x) as H1. pose proof (Qlt_floor x) as H2.
  assert (Qfloor x < k + 1)%Z by (rewrite Zlt_Qlt; lra).
  assert (k < Qfloor x + 1)%Z by (rewrite Zlt_Qlt; lra).
  lia.
Qed.

Lemma Qfloor_add_Z k x : Qfloor (inject_Z k + x) = (k + Qfloor x)%Z.
Proof.
  pose proof (Qfloor_le x) as H1. pose proof (Qlt_floor x) as H2.
  apply Qfloor_unique.
  - rewrite inject_Z_plus. lra.
  - replace (k + Qfloor x + 1)%Z with (k + (Qfloor x + 1))%Z by lia.
    rewrite inject_Z_plus. lra.
Qed.

Lemma inject_Z_pos b : (0 < b)%Z -> 0 < inject_Z b.
Proof. intros Hb. change 0 with (inject_Z 0). by rewrite <- Zlt_Qlt. Qed.

Lemma Qfloor_div a b :
  (0 < b)%Z -> Qfloor (inject_Z a / inject_Z b) = (a / b)%Z.
Proof.
  intros Hb. pose proof (inject_Z_pos b Hb) as Hbq.
  pose proof (Z.mod_pos_bound a b Hb).
  pose proof (Z.div_mod a b ltac:(lia)).
  apply Qfloor_unique.
  - apply Qle_shift_div_l; [done|]. rewrite <- inject_Z_mult.
    rewrite <- Zle_Qle. nia.
  - apply Qlt_shift_div_r; [done|]. rewrite <- inject_Z_mult.
    rewrite <- Zlt_Qlt. nia.
Qed.

Lemma gdiv_pos a b : 0 < b -> gdiv a b = Some (a / b).
Proof.
  intros Hb. unfold gdiv. destruct (Qeq_bool b 0) eqn:Heq; [|done].
  apply Qeq_bool_iff in Heq. lra.
Qed.

Lemma ofNat_pos n : (0 < n)%nat -> 0 < ofNat n.
Proof. intros Hn. apply inject_Z_pos. lia. Qed.

Lemma sqrt_of_nat n : Z.sqrt (Z.of_nat n) = Z.of_nat (Nat.sqrt n).
Proof.
  apply Z.sqrt_unique. pose proof (Nat.sqrt_spec n ltac:(lia)) as [H1 H2].
  split; [nia|]. unfold Z.succ. nia.
Qed.

(** On a slice count, [ceil(sqrt(u_slices))] of the shader is
    [Math.ceil(Math.sqrt(depth))] of [loadVolume]. *)
Lemma ceilSqrt_ofNat n :
  Sampler.ceilSqrt (ofNat n) = Some (ofNat (VolumeRenderer.ceilSqrt n)).
Proof.
  unfold Sampler.ceilSqrt, ofNat, VolumeRenderer.ceilSqrt.
  assert (Qltb (inject_Z (Z.of_nat n)) 0 = false) as ->.
  { unfold Qltb. apply negb_false_iff, Qle_bool_iff.
    change 0 with (inject_Z 0). rewrite <- Zle_Qle. lia. }
  rewrite Qceiling_Z, sqrt_of_nat. do 2 f_equal.
  destruct (Nat.eqb_spec (Nat.sqrt n * Nat.sqrt n) n) as [Heq|Hne].
  - destruct (Z.eqb_spec (Z.of_nat (Nat.sqrt n) * Z.of_nat (Nat.sqrt n))
                (Z.of_nat n)); [done|nia].
  - destruct (Z.eqb_spec (Z.of_nat (Nat.sqrt n) * Z.of_nat (Nat.sqrt n))
                (Z.of_nat n)); [nia|lia].
Qed.

Lemma clamp_range p :
  (1 # 1000) <= clamp p (1 # 1000) (999 # 1000) <= (999 # 1000).
Proof.
  unfold clamp, qmin, qmax.
  destruct (Qle_bool p (1 # 1000)) eqn:H1.
  - destruct (Qle_bool (1 # 1000) (999 # 1000)) eqn:H2; [|done].
    lra.
  - apply not_true_iff_false in H1. rewrite Qle_bool_iff in H1.
    destruct (Qle_bool p (999 # 1000)) eqn:H2.
    + apply Qle_bool_iff in H2. lra.
    + lra.
Qed.

(** A clamped position component falls into one of the [n] voxels. *)
Lemma voxelOf_lt n p : (0 < n)%nat -> (Props.voxelOf n p < n)%nat.
Proof.
  intros Hn. unfold Props.voxelOf.
  pose proof (clamp_range p) as [Hlo Hhi].
  set (c := clamp p (1 # 1000) (999 # 1000)) in *.
  pose proof (ofNat_pos n Hn) as Hq. unfold ofNat in Hq.
  pose proof (Qfloor_le (c * inject_Z (Z.of_nat n))) as H1.
  pose proof (Qlt_floor (c * inject_Z (Z.of_nat n))) as H2.
  assert (Qfloor (c * inject_Z (Z.of_nat n)) < Z.of_nat n)%Z; [|lia].
  rewrite Zlt_Qlt. nra.
Qed.

Lemma voxelOf_nonneg n p :
  (0 <= Qfloor (clamp p (1 # 1000) (999 # 1000) * inject_Z (Z.of_nat n)))%Z.
Proof.
  pose proof (clamp_range p) as [Hlo Hhi].
  set (c := clamp p (1 # 1000) (999 # 1000)) in *.
  assert (0 <= inject_Z (Z.of_nat n)) as Hq.
  { change 0 with (inject_Z 0). rewrite <- Zle_Qle. lia. }
  pose proof (Qlt_floor (c * inject_Z (Z.of_nat n))) as H2.
  assert (-1 < Qfloor (c * inject_Z (Z.of_nat n)))%Z; [|lia].
  rewrite Zlt_Qlt. rewrite inject_Z_plus in H2.
  change (inject_Z (-1)) with (-1). change (inject_Z 1) with 1 in H2. nra.
Qed.

(** Texture coordinates inside the cell of slice [k] address the texel
    that [loadVolume] filled for the voxel under them. *)
Lemma texelOf_cell W H spr rows k u1 u2 cx cy :
  (0 < W)%nat -> (0 < H)%nat -> (0 < spr)%nat -> (0 < rows)%nat ->
  (0 <= k)%Z ->
  (0 <= Qfloor (cx * ofNat W))%Z -> (0 <= Qfloor (cy * ofNat H))%Z ->
  u1 == cx * (ofNat W / ofNat (spr * W))
        + (inject_Z k - ofNat spr * floor (inject_Z k / ofNat spr))
          * ofNat W / ofNat (spr * W) ->
  u2 == cy * (ofNat H / ofNat (rows * H))
        + floor (inject_Z k / ofNat spr) * ofNat H / ofNat (rows * H) ->
  Props.texelOf (spr * W) (rows * H) (u1, u2)
  = Spec.texelIndex W H spr (Z.to_nat k)
      (Z.to_nat (Qfloor (cy * ofNat H))) (Z.to_nat (Qfloor (cx * ofNat W))).
Proof.
  intros HW HH Hspr Hrows Hk Hx Hy Hu1 Hu2.
  assert (0 < ofNat (spr * W)) as Htw by (apply ofNat_pos; nia).
  assert (0 < ofNat (rows * H)) as Hth by (apply ofNat_pos; nia).
  assert (floor (inject_Z k / ofNat spr) = inject_Z (k / Z.of_nat spr))
    as Hrow.
  { unfold floor, ofNat. rewrite Qfloor_div by lia. done. }
  rewrite Hrow in Hu1, Hu2.
  assert (inject_Z k - ofNat spr * inject_Z (k / Z.of_nat spr)
          == inject_Z (k mod Z.of_nat spr)) as Hcol.
  { unfold ofNat. rewrite Z.mod_eq by lia.
    unfold Z.sub. rewrite inject_Z_plus, inject_Z_opp, inject_Z_mult. ring. }
  rewrite Hcol in Hu1.
  unfold Props.texelOf, Spec.texelIndex. cbn [fst snd].
  fold (ofNat (rows * H)). fold (ofNat (spr * W)).
  assert (u1 * ofNat (spr * W)
          == inject_Z (k mod Z.of_nat spr * Z.of_nat W) + cx * ofNat W) as E1.
  { rewrite Hu1, inject_Z_mult. fold (ofNat W). field. lra. }
  assert (u2 * ofNat (rows * H)
          == inject_Z (k / Z.of_nat spr * Z.of_nat H) + cy * ofNat H) as E2.
  { rewrite Hu2, inject_Z_mult. fold (ofNat H). field. lra. }
  rewrite (Qfloor_comp _ _ E1), (Qfloor_comp _ _ E2), !Qfloor_add_Z.
  pose proof (Z.mod_pos_bound k (Z.of_nat spr) ltac:(lia)).
  pose proof (Z.div_pos k (Z.of_nat spr) Hk ltac:(lia)).
  rewrite !Z2Nat.inj_add, !Z2Nat.inj_mul by nia.
  rewrite Z2Nat.inj_div, Z2Nat.inj_mod, !Nat2Z.id by lia.
  done.
Qed.

(** With the uniforms that [render] takes from the layout of
    [loadVolume], [sampleVolume] reads slice [z] at the texel of the voxel
    under the position, and, when it interpolates, slice [z + 1] at the
    texel of the same voxel of that slice. *)
Lemma fetches_atlas W H D pos :
  (0 < W)%nat -> (0 < H)%nat -> (0 < D)%nat ->
  let spr := VolumeRenderer.ceilSqrt D in
  let rows := VolumeRenderer.ceilDiv D spr in
  let u := renderUniforms
             (Some (VolumeRenderer.mkLayout (spr * W) (rows * H) D (W, H, D))) in
  let z := Props.voxelOf D (vz pos) in
  let y := Props.voxelOf H (vy pos) in
  let x := Props.voxelOf W (vx pos) in
  exists f, fetches u.1 u.2 pos = Some f /\
    Props.texelOf (spr * W) (rows * H) (uv f)
      = Spec.texelIndex W H spr z y x /\
    (nextUv f = None <-> ~ (0 < sliceFrac f /\ (z + 1 < D)%nat)) /\
    (forall next, nextUv f = Some next ->
       (z + 1 < D)%nat /\
       Props.texelOf (spr * W) (rows * H) next
         = Spec.texelIndex W H spr (z + 1) y x).
Proof.
  intros HW HH HD spr rows u z y x.
  pose proof (ceilSqrt_pos D HD) as Hspr. fold spr in Hspr.
  pose proof (ceilDiv_spec D spr HD Hspr) as [_ Hrows]. fold rows in Hrows.
  assert (0 < rows)%nat as Hrpos by nia.
  assert (0 < ofNat spr) as Hsq by (by apply ofNat_pos).
  assert (0 < ofNat (spr * W)) as Htw by (apply ofNat_pos; nia).
  assert (0 < ofNat (rows * H)) as Hth by (apply ofNat_pos; nia).
  pose proof (voxelOf_nonneg D (vz pos)) as Hz0.
  pose proof (voxelOf_nonneg H (vy pos)) as Hy0.
  pose proof (voxelOf_nonneg W (vx pos)) as Hx0.
  pose proof (voxelOf_lt D (vz pos) HD) as HzD. fold z in HzD.
  subst u. cbn [renderUniforms fst snd VolumeRenderer.slices
                 VolumeRenderer.width VolumeRenderer.height
                 VolumeRenderer.volumeSize].
  unfold fetches, gmod.
  cbn [u_volumeSize u_textureWidth u_textureHeight vx vy vz].
  rewrite ceilSqrt_ofNat. fold spr. cbn [mbind option_bind].
  repeat (rewrite gdiv_pos by done; cbn [mbind option_bind]).
  set (cz := clamp (vz pos) (1 # 1000) (999 # 1000)) in *.
  set (cy := clamp (vy pos) (1 # 1000) (999 # 1000)) in *.
  set (cx := clamp (vx pos) (1 # 1000) (999 # 1000)) in *.
  fold (ofNat D) in Hz0. fold (ofNat H) in Hy0. fold (ofNat W) in Hx0.
  set (k := Qfloor (cz * ofNat D)) in *.
  assert (z = Z.to_nat k) as Hzk by done.
  assert (y = Z.to_nat (Qfloor (cy * ofNat H))) as Hyk by done.
  assert (x = Z.to_nat (Qfloor (cx * ofNat W))) as Hxk by done.
  change (floor (cz * ofNat D)) with (inject_Z k).
  clearbody cx cy cz k x y z.
  assert (Qltb (inject_Z k) (ofNat D - 1) = true <-> (z + 1 < D)%nat) as Hnext.
  { rewrite Qltb_lt. unfold ofNat.
    assert (inject_Z (Z.of_nat D) - 1 == inject_Z (Z.of_nat D - 1)) as ->.
    { unfold Z.sub. rewrite inject_Z_plus. reflexivity. }
    rewrite <- Zlt_Qlt. lia. }
  assert (Props.texelOf (spr * W) (rows * H)
            (cx * (ofNat W / ofNat (spr * W))
             + (inject_Z k - ofNat spr * floor (inject_Z k / ofNat spr))
               * ofNat W / ofNat (spr * W),
             cy * (ofNat H / ofNat (rows * H))
             + floor (inject_Z k / ofNat spr) * ofNat H / ofNat (rows * H))
          = Spec.texelIndex W H spr z y x) as Huv.
  { rewrite Hzk, Hyk, Hxk. by apply texelOf_cell. }
  destruct (Qltb 0 (fract (cz * ofNat D))) eqn:Hfrac; cbn [andb].
  - destruct (Qltb (inject_Z k) (ofNat D - 1)) eqn:Hlast.
    + eexists. split; [reflexivity|]. cbn [uv nextUv sliceFrac fst snd].
      split; [exact Huv|]. apply Qltb_lt in Hfrac.
      assert (z + 1 < D)%nat as Hz1 by (by apply Hnext).
      split; [split; [done|intros Hn; destruct Hn; by split]|].
      intros next [= <-]. split; [done|].
      replace (z + 1)%nat with (Z.to_nat (k + 1)) by lia.
      rewrite Hyk, Hxk. apply texelOf_cell; try done; try lia.
      * rewrite inject_Z_plus. change (inject_Z 1) with 1. field. lra.
      * rewrite inject_Z_plus. change (inject_Z 1) with 1. field. lra.
    + eexists. split; [reflexivity|]. cbn [uv nextUv sliceFrac fst snd].
      split; [exact Huv|]. split; [|done].
      split; [|done]. intros _ [_ Hz1]. apply Hnext in Hz1. congruence.
  - eexists. split; [reflexivity|]. cbn [uv nextUv sliceFrac fst snd].
    split; [exact Huv|]. split; [|done].
    split; [|done]. intros _ [Hf _]. apply Qltb_lt in Hf. congruence.
Qed.

End SamplerFacts.

(** ** The content of the assembled field *)

Section FieldContent.

(** A store loop over [n] consecutive indices from [base] on. *)
Lemma foldl_insert_block {A} (g : nat -> A) base n l j :
  foldl (fun e i => <[base + i := g i]> e) l (seq 0 n) !! j
  = if decide (base <= j < base + n /\ j < length l)
    then Some (g (j - base)) else l !! j.
Proof.
  revert l. induction n as [|n IH]; intros l.
  { cbn. case_decide; [lia|done]. }
  rewrite seq_S, foldl_app. cbn [foldl]. rewrite Nat.add_0_l.
  destruct (decide (j = base + n)) as [->|Hne].
  - destruct (decide (base + n < length l)) as [Hlt|Hge].
    + rewrite list_lookup_insert_eq
        by (by rewrite length_foldl_insert).
      rewrite decide_True by lia. f_equal. f_equal. lia.
    + rewrite list_insert_ge
        by (rewrite length_foldl_insert; lia).
      rewrite IH. rewrite !decide_False by lia. done.
  - rewrite list_lookup_insert_ne by done. rewrite IH.
    repeat case_decide; try done; lia.
Qed.

Lemma fillSlice_lookup sliceSize z sliceData volumeData j :
  elems (fillSlice sliceSize z sliceData volumeData) !! j
  = if decide (z * sliceSize <= j
               < z * sliceSize + sliceSize `min` alength sliceData
               /\ j < alength volumeData)
    then Some (wrap (kind volumeData) (load sliceData (j - z * sliceSize)))
    else elems volumeData !! j.
Proof.
  unfold fillSlice. rewrite foldl_store. cbn [elems].
  apply (foldl_insert_block
           (fun i => wrap (kind volumeData) (load sliceData i))).
Qed.

(** After the slices below [n] were copied, block [z < n] holds the
    samples of slice [z] (as far as it has any), and the rest of the
    field is as before. *)
Lemma fillVolume_prefix_lookup sliceSize slices volumeData n z i :
  n <= length slices -> i < sliceSize ->
  z * sliceSize + i < alength volumeData ->
  elems (foldl (fun v z =>
                  match slices !! z with
                  | Some s => fillSlice sliceSize z (sdata s) v
                  | None => v
                  end) volumeData (seq 0 n)) !! (z * sliceSize + i)
  = match slices !! z with
    | Some s =>
        if decide (z < n /\ i < alength (sdata s))
        then Some (wrap (kind volumeData) (load (sdata s) i))
        else elems volumeData !! (z * sliceSize + i)
    | None => elems volumeData !! (z * sliceSize + i)
    end.
Proof.
  intros Hn Hi Hj. induction n as [|n IH].
  { cbn. destruct (slices !! z); [|done]. by rewrite decide_False by lia. }
  rewrite seq_S, foldl_app. cbn [foldl]. rewrite Nat.add_0_l.
  set (v := foldl _ volumeData (seq 0 n)) in *.
  assert (alength v = alength volumeData /\ kind v = kind volumeData)
    as [Hlen Hkind].
  { subst v. clear. induction n as [|n IH]; [done|].
    rewrite seq_S, foldl_app. cbn [foldl].
    destruct (slices !! (0 + n)); [|done].
    by rewrite alength_fillSlice, kind_fillSlice. }
  destruct (lookup_lt_is_Some_2 slices n ltac:(lia)) as [sn Hsn].
  rewrite Hsn, fillSlice_lookup, Hlen, Hkind, IH by lia.
  destruct (decide (z = n)) as [->|Hzn].
  - rewrite Hsn. destruct (decide (i < alength (sdata sn))).
    + rewrite !decide_True by lia. do 3 f_equal. lia.
    + rewrite !decide_False by lia. done.
  - rewrite (decide_False (P := _ /\ _ < alength volumeData)) by nia.
    destruct (slices !! z); [|done].
    repeat case_decide; try done; lia.
Qed.

Lemma assembled_kind is16 signed sorted rows cols :
  kind (assembled is16 signed sorted rows cols)
  = if is16 then if signed then Int16Array else Uint16Array
    else Uint8Array.
Proof.
  unfold assembled.
  destruct (fillVolume_invariant (rows * cols) sorted
              (if is16 then if signed
                            then newArray Int16Array (rows * cols * length sorted)
                            else newArray Uint16Array (rows * cols * length sorted)
               else newArray Uint8Array (rows * cols * length sorted)))
    as [_ ->].
  by destruct is16, signed.
Qed.

Lemma assembled_lookup is16 signed sorted rows cols z i s :
  sorted !! z = Some s -> i < rows * cols ->
  elems (assembled is16 signed sorted rows cols) !! (z * (rows * cols) + i)
  = Some (if decide (i < alength (sdata s))
          then wrap (kind (assembled is16 signed sorted rows cols))
                 (load (sdata s) i)
          else 0%Z).
Proof.
  intros Hs Hi. rewrite assembled_kind. unfold assembled, fillVolume.
  pose proof (lookup_lt_Some _ _ _ Hs) as Hz.
  set (v := if is16 then _ else _).
  assert (alength v = rows * cols * length sorted) as Hlen.
  { subst v. destruct is16; [destruct signed|]; apply alength_newArray. }
  assert (kind v = if is16 then if signed then Int16Array else Uint16Array
                   else Uint8Array) as Hkind.
  { subst v. by destruct is16; [destruct signed|]. }
  assert (z * (rows * cols) + i < alength v) as Hj by (rewrite Hlen; nia).
  rewrite fillVolume_prefix_lookup by (done || lia).
  rewrite Hs, Hkind. case_decide as Hd.
  - rewrite decide_True by lia. done.
  - rewrite decide_False by lia.
    assert (elems v = replicate (rows * cols * length sorted) 0%Z) as ->.
    { subst v. by destruct is16; [destruct signed|]. }
    rewrite lookup_replicate_2 by (rewrite <- Hlen; exact Hj). done.
Qed.

End FieldContent.

(** ** The end points of the normalisation *)

Section Normalisation.

Local Open Scope Z_scope.

(** For every range that 16-bit voxels can have, the binary64 computation
    sends the least voxel to 0 and the greatest to 255. *)
Lemma endpoints_16bit : Props.endpointsFrom 1 (Z.to_nat 65535) = true.
Proof. vm_compute. reflexivity. Qed.

Lemma endpointsFrom_spec n : forall range k,
  Props.endpointsFrom range n = true -> 0 <= k < Z.of_nat n ->
  Props.endpointsAt (range + k) = true.
Proof.
  induction n as [|n IH]; intros range k H Hk; [lia|].
  cbn [Props.endpointsFrom] in H. apply andb_true_iff in H as [H0 H1].
  destruct (Z.eq_dec k 0) as [->|Hnz]; [by rewrite Z.add_0_r|].
  replace (range + k) with (range + 1 + (k - 1)) by lia.
  apply IH; [done|lia].
Qed.

Lemma endpoints_range range :
  1 <= range <= 65535 ->
  normalizeVoxel 0 range 0 = 0 /\ normalizeVoxel 0 range range = 255.
Proof.
  intros Hr.
  pose proof (endpointsFrom_spec _ 1 (range - 1) endpoints_16bit) as H.
  replace (1 + (range - 1)) with range in H by lia.
  unfold Props.endpointsAt in H.
  apply andb_true_iff in H as [H0 H1]; [|lia].
  split; by apply Z.eqb_eq.
Qed.

Lemma wrap_idemp k v : Props.inKind k (wrap k v).
Proof.
  unfold Props.inKind. destruct k; cbn.
  - apply Z.mod_mod. lia.
  - apply Z.mod_mod. lia.
  - rewrite Z.sub_add. by rewrite Z.mod_mod by lia.
Qed.

Lemma inKind_16bit k v :
  is16BitKind k = true -> Props.inKind k v ->
  (k = Uint16Array /\ 0 <= v < 65536)
  \/ (k = Int16Array /\ -32768 <= v < 32768).
Proof.
  unfold Props.inKind. destruct k; cbn; [done|..]; intros _ <-.
  - left. split; [done|]. apply Z.mod_pos_bound. lia.
  - right. split; [done|].
    pose proof (Z.mod_pos_bound (v + 32768) 65536 ltac:(lia)). lia.
Qed.

(** After the fill loops every element of the field is a value of the
    element type of the field. *)
Lemma assembled_inKind is16 signed sorted rows cols :
  Forall (Props.inKind (kind (assembled is16 signed sorted rows cols)))
    (elems (assembled is16 signed sorted rows cols)).
Proof.
  rewrite assembled_kind. unfold assembled, fillVolume.
  set (K := if is16 then if signed then Int16Array else Uint16Array
            else Uint8Array).
  set (v := if is16 then _ else _).
  assert (kind v = K /\ Forall (Props.inKind K) (elems v)) as Hinit.
  { subst v K. destruct is16; [destruct signed|]; (split; [done|]);
      by apply Forall_replicate. }
  clearbody v. revert v Hinit.
  generalize (seq 0 (length sorted)) as zs.
  induction zs as [|z zs IH]; intros a [Hk Ha]; cbn [foldl]; [done|].
  apply IH. destruct (sorted !! z) as [s|]; [|done].
  unfold fillSlice.
  rewrite (foldl_store (fun i => (z * (rows * cols) + i)%nat)
             (load (sdata s))).
  cbn [kind elems]. split; [done|]. rewrite Hk.
  apply Forall_foldl_insert; [intros; apply wrap_idemp|done].
Qed.

Lemma normalize_endpoints (field : list Z) k i v :
  is16BitKind k = true ->
  Forall (Props.inKind k) field ->
  field !! i = Some v ->
  (v = Spec.fieldMin field ->
   (normalizeVoxel (Spec.fieldMin field) (Spec.fieldRange field) <$> field)
     !! i = Some 0) /\
  (v = Spec.fieldMax field -> Spec.fieldMax field <> Spec.fieldMin field ->
   (normalizeVoxel (Spec.fieldMin field) (Spec.fieldRange field) <$> field)
     !! i = Some 255).
Proof.
  intros H16 Hall Hi.
  rewrite list_lookup_fmap, Hi. cbn [fmap option_fmap option_map].
  assert (field <> []) as Hne by (by intros E; rewrite E in Hi).
  destruct (field_extrema _ Hne) as (Hmin&Hmax&Hbetween).
  assert (0 <= Spec.fieldMax field - Spec.fieldMin field <= 65535) as Hrange.
  { rewrite Forall_forall in Hall.
    pose proof (Hbetween _ Hmin) as [_ ?].
    destruct (inKind_16bit _ _ H16 (Hall _ Hmin)) as [[Hk ?]|[Hk ?]],
             (inKind_16bit _ _ H16 (Hall _ Hmax)) as [[Hk' ?]|[Hk' ?]];
      try congruence; lia. }
  unfold Spec.fieldRange, orOne.
  set (lo := Spec.fieldMin field) in *.
  set (hi := Spec.fieldMax field) in *.
  assert (forall r x, normalizeVoxel lo r x = normalizeVoxel 0 r (x - lo))
    as Hshift.
  { intros r x. unfold normalizeVoxel. by rewrite Z.sub_0_r. }
  rewrite Hshift. split.
  - intros ->. rewrite Z.sub_diag. f_equal.
    destruct (Z.eqb_spec (hi - lo) 0); apply endpoints_range; lia.
  - intros -> Hne'. f_equal.
    destruct (Z.eqb_spec (hi - lo) 0); [lia|]. apply endpoints_range. lia.
Qed.

End Normalisation.

(** * The pipeline and the renderer against their specification *)

(** C1. Whenever [processDicomFolder] returns a volume for a batch of which
    at least one file is accepted, the [dimensions] of that volume are the
    columns and the rows of the first slice record in sorted order and the
    number of accepted files, and its flat [data] has exactly
    width x height x depth elements. The only other outcome for such a
    batch is the RangeError of the normalisation: it needs a 16-bit record
    and a field of more than [maxArguments] voxels. Stated for the assembly
    of dicom-parser.js on the outcomes of the parse of each file, and for a
    run of dicom-parser-robust.js, whose assembly is the same, on the
    files. *)
Theorem C1_volume_has_width_height_depth_samples
    (maxArguments : nat) (parsed : list (string * Result DicomData))
    (files : list File) :
  (DicomParser.collectSlices parsed <> [] ->
   exists first,
     head (sort DicomParser.compareSlices (DicomParser.collectSlices parsed))
       = Some first /\
     let depth := length (filter (fun f => Spec.accepted f = true) parsed) in
     match DicomParser.assemble maxArguments
             (DicomParser.collectSlices parsed) with
     | Ok vol =>
         dimensions vol = (scolumns first, srows first, depth) /\
         alength (data vol) = scolumns first * srows first * depth
     | Throw message =>
         message = "RangeError"%string /\
         (exists s, s ∈ DicomParser.collectSlices parsed
                    /\ is16BitKind (kind (sdata s)) = true) /\
         maxArguments < scolumns first * srows first * depth
     end) /\
  (Props.robustSlices files <> [] ->
   exists first,
     head (sort DicomParserRobust.compareSlices (Props.robustSlices files))
       = Some first /\
     let depth :=
       length (filter
                 (fun f => Props.hasSamples
                             (DicomParserRobustParse.parseDicom
                                (arrayBuffer f)) = true) files) in
     match DicomParserRobustParse.processDicomFolder maxArguments files with
     | Ok vol =>
         dimensions vol = (scolumns first, srows first, depth) /\
         alength (data vol) = scolumns first * srows first * depth
     | Throw message =>
         message = "RangeError"%string /\
         (exists s, s ∈ Props.robustSlices files
                    /\ kind (sdata s) = Uint16Array) /\
         maxArguments < scolumns first * srows first * depth
     end).
Proof.
  split.
  - intros Hne. rewrite assemble_spec by done.
    pose proof (sort_length DicomParser.compareSlices
                  (DicomParser.collectSlices parsed)) as Hlen.
    rewrite collectSlices_length in Hlen.
    pose proof (is16Bit_sort (DicomParser.collectSlices parsed)) as H16.
    destruct (sort_cons DicomParser.compareSlices _ Hne) as (first&rest&Hs).
    rewrite Hs in *. exists first. split; [done|]. cbn zeta.
    pose proof (buildVolume_result maxArguments
                  (DicomParser.is16Bit (first :: rest))
                  (DicomParser.isSigned (first :: rest)) first rest) as Hres.
    cbn zeta in Hres. rewrite Hlen in Hres.
    destruct (buildVolume _ _ _ _) as [vol|message].
    + destruct Hres as (Hdim&Hal&_). done.
    + destruct Hres as (->&Hbit&Hlt). split; [done|].
      split; [by apply H16|lia].
  - intros Hne. rewrite robust_processDicomFolder_accepted by done.
    destruct (numbered_sorted (Props.robustSlices files)) as [-> _];
      [apply robust_collectSlices_numbered|].
    pose proof (robustSlices_length files) as Hlen.
    pose proof (robust_is16Bit (Props.robustSlices files)) as H16.
    destruct (Props.robustSlices files) as [|first rest]; [done|].
    exists first. split; [done|]. cbn zeta.
    pose proof (buildVolume_result maxArguments
                  (DicomParserRobust.is16Bit (first :: rest)) false
                  first rest) as Hres.
    cbn zeta in Hres. rewrite Hlen in Hres.
    destruct (buildVolume _ _ _ _) as [vol|message].
    + destruct Hres as (Hdim&Hal&_). done.
    + destruct Hres as (->&Hbit&Hlt). split; [done|].
      split; [by apply H16|lia].
Qed.

Lemma C1_witness :
  Props.robustSlices Examples.twoImages <> [] /\
  DicomParser.collectSlices Examples.batch1 <> [] /\
  (exists vol,
     DicomParserRobustParse.processDicomFolder 0 Examples.twoImages = Ok vol
     /\ dimensions vol = (4, 4, 2) /\ alength (data vol) = 32) /\
  (exists vol,
     DicomParser.assemble 0 (DicomParser.collectSlices Examples.batch1)
       = Ok vol
     /\ dimensions vol = (2, 2, 2) /\ alength (data vol) = 8).
Proof.
  assert (Props.robustSlices Examples.twoImages <> []) as Hfiles
    by (vm_compute; discriminate).
  assert (DicomParser.collectSlices Examples.batch1 <> []) as Hparsed
    by (vm_compute; discriminate).
  split; [exact Hfiles|]. split; [exact Hparsed|].
  destruct (C1_volume_has_width_height_depth_samples
              0 Examples.batch1 Examples.twoImages) as [Hbase Hrobust].
  destruct (Hbase Hparsed) as (first1&Hfirst1&Hres1).
  destruct (Hrobust Hfiles) as (first2&Hfirst2&Hres2).
  vm_compute in Hfirst1, Hfirst2.
  injection Hfirst1 as <-. injection Hfirst2 as <-.
  lazy zeta in Hres1, Hres2. clear Hbase Hrobust. split.
  - clear Hres1.
    destruct (DicomParserRobustParse.processDicomFolder 0 Examples.twoImages)
      as [vol|message] eqn:E; [|vm_compute in E; discriminate].
    exists vol. split; [reflexivity|]. vm_compute in Hres2 |- *. exact Hres2.
  - clear Hres2.
    destruct (DicomParser.assemble 0
                (DicomParser.collectSlices Examples.batch1))
      as [vol|message] eqn:E; [|vm_compute in E; discriminate].
    exists vol. split; [reflexivity|]. vm_compute in Hres1 |- *. exact Hres1.
Defined.

Example batch1_volume :
  DicomParser.assemble 0 (DicomParser.collectSlices Examples.batch1)
  = Ok (mkVolume (mkTypedArray Uint8Array [5; 6; 7; 8; 1; 2; 3; 4]%Z)
          (2, 2, 2)).
Proof. vm_compute. reflexivity. Qed.

(** C2. When a stored slice is 16-bit, the normalisation starts with
    [Math.max(...Array.from(volumeData))]: one argument for every voxel of
    the assembled field. If the field has at most [maxArguments] voxels the
    returned data is the field with every voxel [v] replaced, once, by
    [Math.round(((v - min) / range) * 255)], where [min] and [max] are the
    least and greatest voxel of the whole field and [range] is [max - min],
    or 1 when they are equal; with [min = -200] and [max = 800] the voxel
    300 becomes 128. If the field has more than [maxArguments] voxels the
    call throws a RangeError and no volume is returned. Stated for the
    assembly of dicom-parser.js on slice records, and for a run of
    dicom-parser-robust.js, whose normalisation is the same, on the
    files. *)
Theorem C2_normalisation_is_global_unless_the_spread_throws
    (maxArguments : nat) (slices : list SliceRecord) (files : list File) :
  ((exists s, s ∈ slices /\ is16BitKind (kind (sdata s)) = true) ->
   exists first field,
     head (sort DicomParser.compareSlices slices) = Some first /\
     field = elems (assembled true
                      (DicomParser.isSigned
                         (sort DicomParser.compareSlices slices))
                      (sort DicomParser.compareSlices slices)
                      (srows first) (scolumns first)) /\
     length field = srows first * scolumns first * length slices /\
     (length field <= maxArguments ->
      DicomParser.assemble maxArguments slices
      = Ok (mkVolume
              (mkTypedArray Uint8Array
                 (normalizeVoxel (Spec.fieldMin field) (Spec.fieldRange field)
                  <$> field))
              (scolumns first, srows first, length slices))) /\
     (maxArguments < length field ->
      DicomParser.assemble maxArguments slices = Throw "RangeError") /\
     (field <> [] ->
      Spec.fieldMin field ∈ field /\ Spec.fieldMax field ∈ field /\
      forall v, v ∈ field ->
                (Spec.fieldMin field <= v <= Spec.fieldMax field)%Z) /\
     (Spec.fieldMax field = Spec.fieldMin field ->
      Spec.fieldRange field = 1%Z) /\
     (Spec.fieldMax field <> Spec.fieldMin field ->
      Spec.fieldRange field
      = (Spec.fieldMax field - Spec.fieldMin field)%Z)) /\
  ((exists s, s ∈ Props.robustSlices files /\ kind (sdata s) = Uint16Array) ->
   exists first field,
     head (sort DicomParserRobust.compareSlices (Props.robustSlices files))
       = Some first /\
     field = elems (assembled true false (Props.robustSlices files)
                      (srows first) (scolumns first)) /\
     length field
       = srows first * scolumns first * length (Props.robustSlices files) /\
     (length field <= maxArguments ->
      DicomParserRobustParse.processDicomFolder maxArguments files
      = Ok (mkVolume
              (mkTypedArray Uint8Array
                 (normalizeVoxel (Spec.fieldMin field) (Spec.fieldRange field)
                  <$> field))
              (scolumns first, srows first,
               length (Props.robustSlices files)))) /\
     (maxArguments < length field ->
      DicomParserRobustParse.processDicomFolder maxArguments files
      = Throw "RangeError")) /\
  normalizeVoxel (-200) (orOne (800 - -200)) 300 = 128%Z.
Proof.
  split; [|split; [|vm_compute; reflexivity]].
  - intros H16. pose proof H16 as (s0&Hs0&_).
    assert (slices <> []) as Hne
      by (intros ->; by apply not_elem_of_nil in Hs0).
    apply is16Bit_sort in H16.
    rewrite assemble_spec by done. rewrite H16.
    destruct (sort_cons DicomParser.compareSlices _ Hne) as (first&rest&Hs).
    pose proof (sort_length DicomParser.compareSlices slices) as Hlen.
    rewrite Hs in *. rewrite buildVolume_spec. lazy zeta.
    pose proof (alength_assembled true (DicomParser.isSigned (first :: rest))
                  (first :: rest) (srows first) (scolumns first)) as Hal.
    unfold alength in Hal. rewrite <- Hlen.
    eexists first, _. split; [done|]. split; [reflexivity|].
    split; [exact Hal|].
    split.
    { intros Hle. rewrite bool_decide_eq_true_2 by lia. done. }
    split.
    { intros Hlt. rewrite bool_decide_eq_false_2 by lia. done. }
    split; [apply field_extrema|].
    unfold Spec.fieldRange, orOne.
    split; [intros ->; by rewrite Z.sub_diag|].
    intros Hneq.
    match goal with |- context [(?d =? 0)%Z] => destruct (Z.eqb_spec d 0) end;
      [lia|done].
  - intros H16. pose proof H16 as (s0&Hs0&_).
    assert (Props.robustSlices files <> []) as Hne
      by (intros Hnil; rewrite Hnil in Hs0; by apply not_elem_of_nil in Hs0).
    apply robust_is16Bit in H16.
    rewrite robust_processDicomFolder_accepted by done. rewrite H16.
    destruct (numbered_sorted (Props.robustSlices files)) as [-> _];
      [apply robust_collectSlices_numbered|].
    destruct (Props.robustSlices files) as [|first rest]; [done|].
    rewrite buildVolume_spec. lazy zeta.
    pose proof (alength_assembled true false (first :: rest)
                  (srows first) (scolumns first)) as Hal.
    unfold alength in Hal.
    eexists first, _. split; [done|]. split; [reflexivity|].
    split; [exact Hal|].
    split.
    + intros Hle. rewrite bool_decide_eq_true_2 by lia. done.
    + intros Hlt. rewrite bool_decide_eq_false_2 by lia. done.
Qed.

Lemma C2_witness :
  (exists s, s ∈ Props.robustSlices [Examples.ct16]
             /\ kind (sdata s) = Uint16Array) /\
  DicomParserRobustParse.processDicomFolder 3 [Examples.ct16]
    = Throw "RangeError" /\
  DicomParserRobustParse.processDicomFolder 4 [Examples.ct16]
    = Ok (mkVolume (mkTypedArray Uint8Array [255; 0; 77; 204]%Z) (2, 2, 1)).
Proof.
  assert (exists s, s ∈ Props.robustSlices [Examples.ct16]
                    /\ kind (sdata s) = Uint16Array) as H.
  { eexists. split; [vm_compute; left|reflexivity]. }
  split; [exact H|].
  destruct (C2_normalisation_is_global_unless_the_spread_throws
              3 [] [Examples.ct16]) as (_&Hthree&_).
  destruct (C2_normalisation_is_global_unless_the_spread_throws
              4 [] [Examples.ct16]) as (_&Hfour&_).
  destruct (Hthree H) as (first3&field3&Hfirst3&Hfield3&Hlen3&_&Hthrow).
  destruct (Hfour H) as (first4&field4&Hfirst4&Hfield4&Hlen4&Hok&_).
  clear Hthree Hfour.
  vm_compute in Hfirst3, Hfirst4.
  injection Hfirst3 as <-. injection Hfirst4 as <-.
  split.
  - apply Hthrow. rewrite Hlen3. vm_compute. lia.
  - rewrite Hok by (rewrite Hlen4; vm_compute; lia). rewrite Hfield4.
    vm_compute. reflexivity.
Defined.

(** C3. Every record that the parse loop stores carries an instance number
    (a file without InstanceNumber is stored with 0), so that the
    comparator of [slices.sort] subtracts instance numbers: the records
    come out in ascending order of instance number, records with the same
    number in the order of enumeration, with the records that went in. The
    comparator compares file names, with [localeCompare], only when one of
    its two records has no instance number. Slices with the instance
    numbers 3, 1, 4, 2 are ordered 1, 2, 3, 4. In dicom-parser-robust.js
    the records are numbered 0, 1, 2, ... as they are stored, and the sort
    leaves them in that order. *)
Theorem C3_slices_are_ordered_by_instance_number
    (parsed : list (string * Result DicomData)) (files : list File) :
  (forall a b,
     a ∈ DicomParser.collectSlices parsed ->
     b ∈ DicomParser.collectSlices parsed ->
     exists x y, instanceNumber a = Some x /\ instanceNumber b = Some y /\
                 DicomParser.compareSlices a b = (x - y)%Z) /\
  StronglySorted
    (fun a b => (Spec.instanceKey a <= Spec.instanceKey b)%Z)
    (sort DicomParser.compareSlices (DicomParser.collectSlices parsed)) /\
  (forall k,
     filter (fun s => Spec.instanceKey s = k)
       (sort DicomParser.compareSlices (DicomParser.collectSlices parsed))
     = filter (fun s => Spec.instanceKey s = k)
         (DicomParser.collectSlices parsed)) /\
  sort DicomParser.compareSlices (DicomParser.collectSlices parsed)
    ≡ₚ DicomParser.collectSlices parsed /\
  (forall a b,
     instanceNumber a = None \/ instanceNumber b = None ->
     DicomParser.compareSlices a b
     = localeCompare (fileName a) (fileName b)) /\
  instanceNumber <$> sort DicomParser.compareSlices
                       (DicomParser.collectSlices Examples.numbered)
    = [Some 1; Some 2; Some 3; Some 4]%Z /\
  Props.numbered (Props.robustSlices files) /\
  sort DicomParserRobust.compareSlices (Props.robustSlices files)
    = Props.robustSlices files.
Proof.
  split; [intros a b; apply compareSlices_numeric|].
  rewrite compareSlices_keyed.
  split; [apply sort_keyed_sorted|].
  split; [intros k; apply sort_keyed_stable|].
  split; [apply sort_perm|].
  split.
  { intros a b Hnone. unfold DicomParser.compareSlices.
    destruct (instanceNumber a), (instanceNumber b); try done.
    by destruct Hnone. }
  split; [vm_compute; reflexivity|].
  split; [apply robust_collectSlices_numbered|].
  apply numbered_sorted, robust_collectSlices_numbered.
Qed.

Lemma C3_witness :
  fileName <$> sort DicomParser.compareSlices
                 (DicomParser.collectSlices Examples.numbered)
    = ["f1"; "f3"; "f0"; "f2"]%string /\
  StronglySorted
    (fun a b => (Spec.instanceKey a <= Spec.instanceKey b)%Z)
    (sort DicomParser.compareSlices
       (DicomParser.collectSlices Examples.numbered)) /\
  instanceNumber <$> sort DicomParserRobust.compareSlices
                       (Props.robustSlices Examples.twoImages)
    = [Some 0; Some 1]%Z.
Proof.
  destruct (C3_slices_are_ordered_by_instance_number
              Examples.numbered Examples.twoImages)
    as (_&Hsorted&_&_&_&_&Hnumbered&Hid).
  split; [vm_compute; reflexivity|]. split; [exact Hsorted|].
  rewrite Hid. exact Hnumbered.
Defined.

(** C4 as stated fails on a run of dicom-parser-robust.js, whose acceptance
    is that of dicom-parser.js: in the batch a.dcm, b.dcm the first record
    has 4 x 4 samples, and b.dcm, parsed as 2 x 2 with 4 samples, is
    accepted although 4 is below 16 and not above 100. *)
Lemma C4_counterexample :
  exists first second px,
    head (sort DicomParserRobust.compareSlices
            (Props.robustSlices Examples.twoImages)) = Some first /\
    DicomParserRobustParse.parseDicom (arrayBuffer Examples.imageB)
      = Ok Examples.parsedB /\
    pixelData Examples.parsedB = Some px /\
    Props.robustSlices Examples.twoImages !! 1 = Some second /\
    DicomParserRobust.acceptSlice 1 (name Examples.imageB) Examples.parsedB
      = Some second /\
    is_Some (DicomParser.acceptSlice (name Examples.imageB) Examples.parsedB)
    /\
    srows first * scolumns first = 16 /\ alength px = 4 /\
    ~ (srows first * scolumns first <= alength px \/ 100 < alength px).
Proof.
  eexists _, _, _. split; [vm_compute; reflexivity|].
  split; [vm_compute; reflexivity|]. split; [reflexivity|].
  split; [vm_compute; reflexivity|]. split; [vm_compute; reflexivity|].
  split; [vm_compute; eauto|]. split; [reflexivity|].
  split; [reflexivity|]. vm_compute. intros [H|H]; lia.
Qed.

(** C4, amended. A parsed file is accepted if and only if it has at least
    one sample and its sample count is at least its own rows x columns, or
    below that but above 100; in the second case the stored samples are
    zero-padded on the right to its own rows x columns; a file with fewer
    samples than its rows x columns and at most 100 of them is dropped. The
    same holds in dicom-parser-robust.js, whatever the number of records
    stored before. *)
Theorem C4_acceptance_uses_own_dimensions
    (n : nat) (fileName : string) (d : DicomData) :
  (is_Some (DicomParser.acceptSlice fileName d) <->
   exists px, pixelData d = Some px /\ 0 < alength px /\
     (rows d * columns d <= alength px
      \/ (alength px < rows d * columns d /\ 100 < alength px))) /\
  (is_Some (DicomParserRobust.acceptSlice n fileName d) <->
   exists px, pixelData d = Some px /\ 0 < alength px /\
     (rows d * columns d <= alength px
      \/ (alength px < rows d * columns d /\ 100 < alength px))) /\
  (forall s px,
     DicomParser.acceptSlice fileName d = Some s
     \/ DicomParserRobust.acceptSlice n fileName d = Some s ->
     pixelData d = Some px ->
     alength px < rows d * columns d ->
     sdata s
       = mkTypedArray Uint8Array
           ((wrap Uint8Array <$> elems px)
            ++ replicate (rows d * columns d - alength px) 0%Z) /\
     alength (sdata s) = rows d * columns d) /\
  (forall px,
     pixelData d = Some px ->
     alength px < rows d * columns d -> alength px <= 100 ->
     DicomParser.acceptSlice fileName d = None /\
     DicomParserRobust.acceptSlice n fileName d = None).
Proof.
  assert (Spec.usable d <->
          exists px, pixelData d = Some px /\ 0 < alength px /\
            (rows d * columns d <= alength px
             \/ (alength px < rows d * columns d /\ 100 < alength px)))
    as Husable.
  { unfold Spec.usable.
    split; intros (px&?&?&Hc); exists px; (split; [done|]); (split; [done|]).
    - destruct (decide (rows d * columns d <= alength px)); [by left|].
      destruct Hc; [lia|]. right. lia.
    - destruct Hc as [?|[_ ?]]; auto. }
  split; [by rewrite acceptSlice_is_Some|].
  split; [by rewrite robust_acceptSlice_is_Some|].
  split.
  - intros s px Hs Hpx Hshort.
    assert (exists inst, s = Spec.pushed inst fileName d px) as [inst ->].
    { destruct Hs as [Hs|Hs].
      - apply acceptSlice_Some in Hs as (px'&Hpx'&_&_&->).
        rewrite Hpx in Hpx'. injection Hpx' as <-. eauto.
      - apply robust_acceptSlice_Some in Hs as (px'&Hpx'&_&_&->).
        rewrite Hpx in Hpx'. injection Hpx' as <-. eauto. }
    unfold Spec.pushed; simpl. rewrite storedData_short by done.
    split; [done|]. apply alength_zeroPadded. lia.
  - intros px Hpx Hshort Hsmall. split.
    + destruct (DicomParser.acceptSlice fileName d) as [s|] eqn:Hs; [|done].
      apply acceptSlice_Some in Hs as (px'&Hpx'&_&Hc&_).
      rewrite Hpx in Hpx'. injection Hpx' as <-. lia.
    + destruct (DicomParserRobust.acceptSlice n fileName d) as [s|] eqn:Hs;
        [|done].
      apply robust_acceptSlice_Some in Hs as (px'&Hpx'&_&Hc&_).
      rewrite Hpx in Hpx'. injection Hpx' as <-. lia.
Qed.

Lemma C4_witness :
  is_Some (DicomParserRobust.acceptSlice 1 "b.dcm" Examples.parsedB) /\
  is_Some (DicomParser.acceptSlice "short.dcm" Examples.short101) /\
  DicomParser.acceptSlice "short.dcm" Examples.short100 = None /\
  exists s,
    DicomParser.acceptSlice "short.dcm" Examples.short101 = Some s /\
    sdata s = mkTypedArray Uint8Array (replicate 101 9%Z ++ replicate 20 0%Z).
Proof.
  destruct (C4_acceptance_uses_own_dimensions 1 "b.dcm" Examples.parsedB)
    as (_&Hrobust&_).
  destruct (C4_acceptance_uses_own_dimensions 0 "short.dcm" Examples.short101)
    as (Hiff&_&Hpad&_).
  destruct (C4_acceptance_uses_own_dimensions 0 "short.dcm" Examples.short100)
    as (_&_&_&Hdrop).
  assert (is_Some (DicomParser.acceptSlice "short.dcm" Examples.short101))
    as Hacc.
  { apply Hiff. eexists. split; [reflexivity|].
    split; [vm_compute; lia|]. right. vm_compute. lia. }
  split.
  { apply Hrobust. eexists. split; [reflexivity|].
    split; [vm_compute; lia|]. left. vm_compute. lia. }
  split; [exact Hacc|].
  split; [eapply Hdrop; [reflexivity|vm_compute; lia..]|].
  destruct Hacc as [s Hs]. exists s. split; [done|].
  destruct (Hpad s _ (or_introl Hs) eq_refl) as [-> _]; [vm_compute; lia|].
  reflexivity.
Defined.

(** C5. For a volume of depth [D > 0] whose data has W x H x D elements,
    [loadVolume] builds an atlas of [slicesPerRow * W] by [rows * H]
    texels, where [slicesPerRow] is the least integer whose square is at
    least [D] and [rows] the least integer with [rows * slicesPerRow >= D];
    voxel [(x, y)] of every slice [z < D] is copied (clamped to a byte) to
    the texel [(column * W + x, row * H + y)] with [row = z / slicesPerRow]
    and [column = z mod slicesPerRow]; every other texel is zero. *)
Theorem C5_atlas_grid_placement (W H D : nat) (values : TypedArray) :
  0 < D -> alength values = W * H * D ->
  let spr := VolumeRenderer.ceilSqrt D in
  let rows := VolumeRenderer.ceilDiv D spr in
  exists tex,
    VolumeRenderer.loadVolume (mkVolume values (W, H, D)) = Some tex /\
    ((spr - 1) * (spr - 1) < D /\ D <= spr * spr) /\
    ((rows - 1) * spr < D /\ D <= rows * spr) /\
    VolumeRenderer.width (VolumeRenderer.textureLayout tex) = spr * W /\
    VolumeRenderer.height (VolumeRenderer.textureLayout tex) = rows * H /\
    VolumeRenderer.slices (VolumeRenderer.textureLayout tex) = D /\
    length (VolumeRenderer.textureData tex) = spr * W * (rows * H) /\
    (forall z y x, z < D -> y < H -> x < W ->
       VolumeRenderer.textureData tex
         !! ((z / spr * H + y) * (spr * W) + (z mod spr * W + x))
       = Some (VolumeRenderer.clampByte
                 (nth (z * W * H + y * W + x) (elems values) 0%Z))) /\
    (forall v, (0 <= v <= 255)%Z -> VolumeRenderer.clampByte v = v) /\
    (forall t, t < spr * W * (rows * H) ->
       (forall z y x, z < D -> y < H -> x < W ->
          t <> (z / spr * H + y) * (spr * W) + (z mod spr * W + x)) ->
       VolumeRenderer.textureData tex !! t = Some 0%Z).
Proof.
  intros HD Hlen spr rows.
  pose proof (ceilSqrt_spec D HD) as Hspr.
  pose proof (ceilSqrt_pos D HD) as Hpos.
  pose proof (ceilDiv_spec D spr HD Hpos) as Hrows.
  exists (VolumeRenderer.packAtlas W H D (elems values)).
  split.
  { unfold VolumeRenderer.loadVolume; cbn [dimensions data].
    unfold alength in Hlen. rewrite Hlen, Nat.eqb_refl. done. }
  split; [exact Hspr|]. split; [exact Hrows|].
  split; [reflexivity|]. split; [reflexivity|]. split; [reflexivity|].
  rewrite packAtlas_textureData. fold spr. fold rows.
  set (idx := fun c : nat * nat * nat =>
                Spec.texelIndex W H spr c.1.1 c.1.2 c.2).
  set (val := fun c : nat * nat * nat =>
                VolumeRenderer.clampByte
                  (nth (Spec.voxelIndex W H c.1.1 c.1.2 c.2) (elems values)
                     0%Z)).
  set (ok := fun c : nat * nat * nat =>
               Spec.voxelIndex W H c.1.1 c.1.2 c.2 <? length (elems values)).
  change (foldl _ ?t0 ?cs0) with (foldl (Spec.guardedStore idx val ok) t0 cs0).
  split; [by rewrite guarded_length, length_replicate|].
  split; [|split; [apply clampByte_id|]].
  - intros z y x Hz Hy Hx.
    change ((z / spr * H + y) * (spr * W) + (z mod spr * W + x))
      with (idx (z, y, x)).
    change (VolumeRenderer.clampByte _) with (val (z, y, x)).
    apply guarded_written.
    + unfold ok; simpl. apply Nat.ltb_lt. unfold alength in Hlen.
      rewrite Hlen. by apply voxelIndex_lt.
    + rewrite length_replicate. unfold idx; simpl.
      apply (texelIndex_lt W H spr rows D); [done|lia|done..].
    + intros [[z' y'] x'] Hin Heq. apply elem_of_coords in Hin as (?&?&?).
      unfold idx in Heq; simpl in Heq.
      apply texelIndex_inj in Heq as (->&->&->); done.
    + right. by apply elem_of_coords.
  - intros t Ht Hfree.
    rewrite guarded_untouched.
    + apply lookup_replicate_2. done.
    + intros [[z y] x] Hin. apply elem_of_coords in Hin as (?&?&?).
      unfold idx; simpl. intros Heq. by eapply Hfree.
Qed.

Lemma C5_witness :
  0 < 3 /\ alength Examples.threeSlices = 2 * 1 * 3 /\
  VolumeRenderer.ceilSqrt 3 = 2 /\ VolumeRenderer.ceilDiv 3 2 = 2 /\
  VolumeRenderer.ceilSqrt 4 = 2 /\ VolumeRenderer.ceilDiv 4 2 = 2 /\
  exists tex,
    VolumeRenderer.loadVolume (mkVolume Examples.threeSlices (2, 1, 3))
      = Some tex /\
    VolumeRenderer.textureData tex = [10; 11; 20; 21; 30; 31; 0; 0]%Z /\
    VolumeRenderer.width (VolumeRenderer.textureLayout tex) = 4 /\
    VolumeRenderer.height (VolumeRenderer.textureLayout tex) = 2.
Proof.
  assert (0 < 3) as HD by lia.
  assert (alength Examples.threeSlices = 2 * 1 * 3) as Hlen by reflexivity.
  destruct (C5_atlas_grid_placement 2 1 3 Examples.threeSlices HD Hlen)
    as (tex&Hload&_&_&Hw&Hh&_).
  split; [exact HD|]. split; [exact Hlen|].
  do 4 (split; [reflexivity|]).
  exists tex. split; [exact Hload|].
  split; [|split; [exact Hw|exact Hh]].
  injection Hload as <-. reflexivity.
Defined.

(** C6. If no file of the batch is accepted, [processDicomFolder] throws
    its error on the empty batch and builds no volume. If at least one file
    is accepted, a volume is returned unless a record is 16-bit and the
    assembled field has more than [maxArguments] voxels: then the spread of
    the normalisation throws a RangeError and no volume is returned. Stated
    for the assembly of dicom-parser.js on the outcomes of the parse of
    each file, for a run of dicom-parser.js, which always ends in the error
    on the empty batch, and for a run of dicom-parser-robust.js, where the
    batch is empty when no file has samples and the last resort finds no
    file of 256 x 256 bytes. *)
Theorem C6_empty_batch_throws_and_the_spread_may_throw
    (maxArguments : nat) (parsed : list (string * Result DicomData))
    (files : list File) :
  (DicomParser.collectSlices parsed = [] <->
   forall f, f ∈ parsed -> Spec.accepted f = false) /\
  (DicomParser.collectSlices parsed = [] ->
   DicomParser.assemble maxArguments (DicomParser.collectSlices parsed)
   = Throw "No valid DICOM files found with pixel data") /\
  (DicomParser.collectSlices parsed <> [] ->
   exists first,
     head (sort DicomParser.compareSlices (DicomParser.collectSlices parsed))
       = Some first /\
     let size := srows first * scolumns first
                 * length (DicomParser.collectSlices parsed) in
     let is16Bit := exists s, s ∈ DicomParser.collectSlices parsed
                              /\ is16BitKind (kind (sdata s)) = true in
     (is16Bit /\ maxArguments < size ->
      DicomParser.assemble maxArguments (DicomParser.collectSlices parsed)
      = Throw "RangeError") /\
     (~ is16Bit \/ size <= maxArguments ->
      exists vol,
        DicomParser.assemble maxArguments (DicomParser.collectSlices parsed)
        = Ok vol)) /\
  DicomParserFolder.processDicomFolder maxArguments files
    = Some (Throw "No valid DICOM files found with pixel data") /\
  (DicomParserRobustParse.processDicomFolder maxArguments files
   = Throw "No valid DICOM files found with pixel data after extensive recovery attempts"
   <->
   forall f, f ∈ files ->
     Props.hasSamples (DicomParserRobustParse.parseDicom (arrayBuffer f))
       = false /\
     length (arrayBuffer f) < 256 * 256) /\
  (Props.robustSlices files <> [] ->
   exists first,
     head (sort DicomParserRobust.compareSlices (Props.robustSlices files))
       = Some first /\
     let size := srows first * scolumns first
                 * length (Props.robustSlices files) in
     let is16Bit := exists s, s ∈ Props.robustSlices files
                              /\ kind (sdata s) = Uint16Array in
     (is16Bit /\ maxArguments < size ->
      DicomParserRobustParse.processDicomFolder maxArguments files
      = Throw "RangeError") /\
     (~ is16Bit \/ size <= maxArguments ->
      exists vol,
        DicomParserRobustParse.processDicomFolder maxArguments files
        = Ok vol)) /\
  (Props.robustSlices files = [] ->
   DicomParserRobust.lastResort files [] <> [] ->
   exists vol,
     DicomParserRobustParse.processDicomFolder maxArguments files = Ok vol).
Proof.
  split; [|split; [|split; [|split; [|split; [|split]]]]].
  - rewrite <- length_zero_iff_nil, collectSlices_length, length_zero_iff_nil.
    rewrite filter_nil_iff. split; intros Hall f Hf.
    + specialize (Hall f Hf). by destruct (Spec.accepted f).
    + rewrite (Hall f Hf). done.
  - intros ->. reflexivity.
  - intros Hne. rewrite assemble_spec by done.
    pose proof (sort_length DicomParser.compareSlices
                  (DicomParser.collectSlices parsed)) as Hlen.
    pose proof (is16Bit_sort (DicomParser.collectSlices parsed)) as H16.
    destruct (sort_cons DicomParser.compareSlices _ Hne) as (first&rest&Hs).
    rewrite Hs in *. exists first. split; [done|]. lazy zeta.
    rewrite buildVolume_spec. lazy zeta. rewrite Hlen. split.
    + intros [Hbit Hlt]. apply H16 in Hbit. rewrite Hbit.
      rewrite bool_decide_eq_false_2 by lia. done.
    + intros [Hbit|Hle].
      * destruct (DicomParser.is16Bit (first :: rest)) eqn:E; [|eauto].
        exfalso. apply Hbit. by apply H16.
      * rewrite (bool_decide_eq_true_2 _ Hle), andb_false_r. eauto.
  - apply processDicomFolder_always_throws.
  - split.
    + intros Hthrow.
      destruct (decide (Props.robustSlices files = [])) as [Hnil|Hne].
      * rewrite robust_processDicomFolder_lastResort in Hthrow by done.
        destruct (DicomParserRobust.lastResort files []) eqn:Hlast; [|done].
        intros f Hf. split.
        -- by apply (proj1 (robustSlices_nil files) Hnil).
        -- by apply (proj1 (lastResort_nil files) Hlast).
      * rewrite robust_processDicomFolder_accepted in Hthrow by done.
        destruct (Props.robustSlices files) as [|first rest]; [done|].
        pose proof (buildVolume_result maxArguments
                      (DicomParserRobust.is16Bit (first :: rest)) false
                      first rest) as Hres.
        lazy zeta in Hres. rewrite Hthrow in Hres. by destruct Hres.
    + intros Hall.
      rewrite robust_processDicomFolder_lastResort
        by (apply robustSlices_nil; intros f Hf; apply (Hall f Hf)).
      assert (DicomParserRobust.lastResort files [] = []) as ->; [|done].
      apply lastResort_nil. intros f Hf. apply (Hall f Hf).
  - intros Hne. rewrite robust_processDicomFolder_accepted by done.
    destruct (numbered_sorted (Props.robustSlices files)) as [-> _];
      [apply robust_collectSlices_numbered|].
    pose proof (robust_is16Bit (Props.robustSlices files)) as H16.
    destruct (Props.robustSlices files) as [|first rest]; [done|].
    exists first. split; [done|]. lazy zeta.
    rewrite buildVolume_spec. lazy zeta. split.
    + intros [Hbit Hlt]. apply H16 in Hbit. rewrite Hbit.
      rewrite bool_decide_eq_false_2 by lia. done.
    + intros [Hbit|Hle].
      * destruct (DicomParserRobust.is16Bit (first :: rest)) eqn:E; [|eauto].
        exfalso. apply Hbit. by apply H16.
      * rewrite (bool_decide_eq_true_2 _ Hle), andb_false_r. eauto.
  - intros Hnil Hlast.
    rewrite robust_processDicomFolder_lastResort by done.
    destruct (DicomParserRobust.lastResort files []); [done|eauto].
Qed.

Lemma C6_witness :
  DicomParserRobustParse.processDicomFolder 3 [Examples.noise]
    = Throw "No valid DICOM files found with pixel data after extensive recovery attempts" /\
  Props.robustSlices [Examples.ct16] <> [] /\
  DicomParserRobustParse.processDicomFolder 3 [Examples.ct16]
    = Throw "RangeError" /\
  (exists vol,
     DicomParserRobustParse.processDicomFolder 4 [Examples.ct16] = Ok vol) /\
  DicomParserFolder.processDicomFolder 3 [Examples.ct16]
    = Some (Throw "No valid DICOM files found with pixel data").
Proof.
  destruct (C6_empty_batch_throws_and_the_spread_may_throw
              3 [] [Examples.noise]) as (_&_&_&_&Hempty&_).
  destruct (C6_empty_batch_throws_and_the_spread_may_throw
              3 [] [Examples.ct16]) as (_&_&_&Hbase&_&Hthree&_).
  destruct (C6_empty_batch_throws_and_the_spread_may_throw
              4 [] [Examples.ct16]) as (_&_&_&_&_&Hfour&_).
  assert (Props.robustSlices [Examples.ct16] <> []) as Hne
    by (vm_compute; discriminate).
  assert (exists s, s ∈ Props.robustSlices [Examples.ct16]
                    /\ kind (sdata s) = Uint16Array) as H16.
  { eexists. split; [vm_compute; left|reflexivity]. }
  split.
  { apply Hempty. intros f Hf. apply list_elem_of_singleton in Hf as ->.
    split; [vm_compute; reflexivity|].
    change (length (arrayBuffer Examples.noise)) with 3. lia. }
  split; [exact Hne|].
  destruct (Hthree Hne) as (first3&Hfirst3&Hthrow&_).
  destruct (Hfour Hne) as (first4&Hfirst4&_&Hok).
  clear Hempty Hthree Hfour.
  vm_compute in Hfirst3, Hfirst4.
  injection Hfirst3 as <-. injection Hfirst4 as <-.
  split; [apply Hthrow; split; [exact H16|vm_compute; lia]|].
  split; [apply Hok; right; vm_compute; lia|exact Hbase].
Defined.

(** C7. For every buffer, [parseDicom] returns (it never throws, and its
    loop ends), in dicom-parser.js and in dicom-parser-fixed.js; and at an
    element whose declared length would read past the end of the buffer,
    the element is abandoned with every variable but [offset] unchanged:
    dicom-parser.js stops decoding there, dicom-parser-fixed.js goes on
    decoding at the value offset of the element. *)
Theorem C7_overrunning_element_is_abandoned_not_raised (buf : list byte) :
  (exists d, DicomParserParse.parseDicom buf = Some (Ok d)) /\
  (exists d, DicomParserFixed.parseDicom buf = Some (Ok d)) /\
  forall st vr len valueOffset fuel,
    (0 <= offset st < byteLength buf - 8)%Z ->
    vrAt buf (offset st) = Some vr ->
    readLength DicomParserParse.policy buf vr (offset st)
      = HeaderOk len valueOffset ->
    (byteLength buf < valueOffset + len)%Z ->
    parseLoop DicomParserParse.policy (S fuel) buf st
      = Some (setOffset st valueOffset) /\
    parseLoop DicomParserFixed.policy (S fuel) buf st
      = parseLoop DicomParserFixed.policy fuel buf (setOffset st valueOffset).
Proof.
  split; [apply parseDicom_returns|]. split; [apply fixed_parseDicom_returns|].
  intros st vr len valueOffset fuel Ho Hvr Hh Hover.
  pose proof (tryElement_overrun DicomParserParse.policy buf st vr len
                valueOffset Ho Hvr Hh Hover) as Hbase.
  rewrite (readLength_policy _ DicomParserFixed.policy) in Hh.
  pose proof (tryElement_overrun DicomParserFixed.policy buf st vr len
                valueOffset Ho Hvr Hh Hover) as Hfixed.
  simpl in Hbase, Hfixed. simpl.
  destruct (Z.ltb_spec (offset st) (byteLength buf - 8)); [|lia].
  by rewrite Hbase, Hfixed.
Qed.

Lemma C7_witness :
  vrAt Examples.overrun 0 = Some "IS"%string /\
  readLength DicomParserParse.policy Examples.overrun "IS" 0
    = HeaderOk 10000 8 /\
  (byteLength Examples.overrun = 8 + 50)%Z /\
  parseLoop DicomParserParse.policy 58 Examples.overrun (initialState 0)
    = Some (initialState 8) /\
  parseLoop DicomParserFixed.policy 58 Examples.overrun (initialState 0)
    = parseLoop DicomParserFixed.policy 57 Examples.overrun (initialState 8) /\
  (exists d, DicomParserParse.parseDicom Examples.overrun = Some (Ok d)
             /\ md00200013 (metadata d) = None) /\
  (exists d, DicomParserFixed.parseDicom Examples.overrun = Some (Ok d)
             /\ md00200013 (metadata d) = Some 5%Z).
Proof.
  destruct (C7_overrunning_element_is_abandoned_not_raised Examples.overrun)
    as (_&_&Hloop).
  destruct (Hloop (initialState 0) "IS"%string 10000%Z 8%Z 57)
    as [Hbase Hfixed]; [vm_compute; split; congruence|reflexivity..|].
  split; [reflexivity|]. split; [reflexivity|]. split; [reflexivity|].
  split; [exact Hbase|]. split; [exact Hfixed|].
  split; eexists; (split; [vm_compute; reflexivity|reflexivity]).
Defined.



(** C9. At every step of the marching the windowed intensity is
    [clamp((sample - (windowLevel - windowWidth / 2)) / windowWidth, 0, 1)]
    (for a window width other than 0). If that value is strictly greater
    than [threshold / 255] the sample is composited: with
    [alpha = intensity * opacity * 0.05], the accumulated opacity [a]
    becomes [a + alpha * (1 - a)] and the colour channels grow by
    [intensity * alpha * (1 - a)], which is a strict increase of the
    opacity when the threshold is not negative, the opacity setting is
    positive and [a < 1]. Otherwise the accumulated colour and opacity are
    unchanged. With threshold 100, window level 128 and window width 256,
    the value 50 has the intensity 50/256, which is not above 100/255; a
    texture fetch, which lies between 0 and 1, has an intensity of at most
    1/256 and is discarded as well. *)
Theorem C9_window_then_strict_threshold
    (sampleVolume : Shader.vec3 -> Q) (u : Shader.Uniforms)
    (step : Shader.vec3) (st : Shader.MarchState) :
  ~ (Shader.u_windowWidth u == 0)%Q ->
  exists normalizedDensity st',
    Shader.windowed u (sampleVolume (Shader.currentPosition st))
      = Some normalizedDensity /\
    (normalizedDensity
     == Shader.clamp
          ((sampleVolume (Shader.currentPosition st)
            - (Shader.u_windowLevel u - Shader.u_windowWidth u / 2))
           / Shader.u_windowWidth u) 0 1)%Q /\
    Shader.marchStep sampleVolume u step st = Some st' /\
    Shader.currentPosition st'
      = Shader.vadd (Shader.currentPosition st) step /\
    Shader.steps st' = S (Shader.steps st) /\
    ((Shader.u_threshold u / 255 < normalizedDensity)%Q ->
     let alpha := (normalizedDensity * Shader.u_opacity u * (5 # 100))%Q in
     let rest := (1 - Shader.accumulatedAlpha st)%Q in
     let colour := Shader.accumulatedColor st in
     Shader.accumulatedAlpha st'
       = (Shader.accumulatedAlpha st + alpha * rest)%Q /\
     Shader.accumulatedColor st'
       = Shader.mkVec4
           (Shader.cr colour + normalizedDensity * alpha * rest)%Q
           (Shader.cg colour + normalizedDensity * alpha * rest)%Q
           (Shader.cb colour + normalizedDensity * alpha * rest)%Q
           (Shader.ca colour + alpha * rest)%Q /\
     ((0 <= Shader.u_threshold u)%Q -> (0 < Shader.u_opacity u)%Q ->
      (Shader.accumulatedAlpha st < 1)%Q ->
      (Shader.accumulatedAlpha st < Shader.accumulatedAlpha st')%Q)) /\
    ((normalizedDensity <= Shader.u_threshold u / 255)%Q ->
     Shader.accumulatedColor st' = Shader.accumulatedColor st /\
     Shader.accumulatedAlpha st' = Shader.accumulatedAlpha st) /\
    (exists q,
       Shader.windowed Examples.defaults 50 = Some q /\
       (q == 50 / 256)%Q /\ (q <= 100 / 255)%Q) /\
    (forall fetch,
       (0 <= fetch <= 1)%Q ->
       exists q,
         Shader.windowed Examples.defaults fetch = Some q /\
         (q <= 1 / 256)%Q /\
         (q <= Shader.u_threshold Examples.defaults / 255)%Q).
Proof.
  intros Hw.
  destruct (windowed_spec u (sampleVolume (Shader.currentPosition st)) Hw)
    as (nd&Hnd&Hclamp).
  exists nd. unfold Shader.marchStep. rewrite Hnd.
  change (Shader.gdiv (Shader.u_threshold u) 255)
    with (Some (Shader.u_threshold u / 255)%Q).
  cbn [mbind option_bind].
  eexists. split; [done|]. split; [exact Hclamp|]. split; [reflexivity|].
  cbn [Shader.accumulatedColor Shader.accumulatedAlpha
       Shader.currentPosition Shader.steps].
  split; [done|]. split; [done|].
  split; [|split; [|split]].
  - intros Hlt. pose proof Hlt as Hb. apply Qltb_lt in Hb. rewrite Hb.
    unfold Shader.composite. cbn [fst snd].
    split; [done|]. split; [done|].
    intros Hthreshold Hopacity Halpha.
    assert (0 < nd)%Q as Hpos.
    { apply (Qle_lt_trans _ (Shader.u_threshold u / 255)); [|done].
      apply Qle_shift_div_l; [reflexivity|]. by rewrite Qmult_0_l. }
    assert (0 < nd * Shader.u_opacity u * (5 # 100)
                * (1 - Shader.accumulatedAlpha st))%Q; [|lra].
    assert (0 < 1 - Shader.accumulatedAlpha st)%Q by lra.
    assert (0 < nd * Shader.u_opacity u)%Q by nra.
    nra.
  - intros Hle. apply Qltb_ge in Hle. by rewrite Hle.
  - eexists. split; [vm_compute; reflexivity|].
    split; [reflexivity|]. vm_compute. discriminate.
  - clear. intros fetch [Hlo Hhi].
    destruct (windowed_spec Examples.defaults fetch) as (q&Hq&Hqc);
      [discriminate|].
    exists q. split; [exact Hq|].
    assert (q == Shader.clamp (fetch * (1 # 256)) 0 1)%Q as Hq'.
    { rewrite Hqc. apply clamp_compat.
      cbn [Examples.defaults Shader.u_windowLevel Shader.u_windowWidth].
      unfold Qdiv. change (/ 256)%Q with (1 # 256)%Q.
      change (/ 2)%Q with (1 # 2)%Q. ring. }
    assert (q <= 1 / 256)%Q as Hsmall.
    { rewrite Hq'.
      assert (1 / 256 == 1 # 256)%Q as -> by reflexivity.
      unfold Shader.clamp.
      destruct (qmax_spec (fetch * (1 # 256)) 0) as [[Hm ->]|[Hm ->]].
      - destruct (qmin_spec 0 1) as [[? ->]|[? ->]]; lra.
      - destruct (qmin_spec (fetch * (1 # 256)) 1) as [[? ->]|[? ->]]; lra. }
    split; [exact Hsmall|].
    eapply Qle_trans; [exact Hsmall|]. vm_compute. discriminate.
Qed.

Lemma C9_witness :
  ~ (Shader.u_windowWidth Examples.noThreshold == 0)%Q /\
  ~ (Shader.u_windowWidth Examples.defaults == 0)%Q /\
  (exists st',
     Shader.marchStep (fun _ => 1%Q) Examples.noThreshold
       (Shader.scale Examples.inward (5 # 1000)) Examples.start = Some st' /\
     (Shader.accumulatedAlpha st' == 1 # 6400)%Q /\
     (Shader.cr (Shader.accumulatedColor st') == 1 # 1638400)%Q /\
     (0 < Shader.accumulatedAlpha st')%Q) /\
  (exists st',
     Shader.marchStep (fun _ => (50 # 255)%Q) Examples.defaults
       (Shader.scale Examples.inward (5 # 1000)) Examples.start = Some st' /\
     Shader.accumulatedColor st' = Shader.mkVec4 0 0 0 0 /\
     Shader.accumulatedAlpha st' = 0%Q).
Proof.
  assert (~ (Shader.u_windowWidth Examples.noThreshold == 0)%Q) as Hw0
    by discriminate.
  assert (~ (Shader.u_windowWidth Examples.defaults == 0)%Q) as Hw
    by discriminate.
  split; [exact Hw0|]. split; [exact Hw|]. split.
  - destruct (C9_window_then_strict_threshold (fun _ => 1%Q)
                Examples.noThreshold
                (Shader.scale Examples.inward (5 # 1000)) Examples.start Hw0)
      as (nd&st'&Hnd&Hclamp&Hstep&_&_&Hkeep&_).
    exists st'. split; [exact Hstep|].
    vm_compute in Hnd. injection Hnd as <-.
    destruct Hkeep as (Halpha&Hcolour&Hgrows); [reflexivity|].
    rewrite Hcolour, Halpha. split; [reflexivity|]. split; [reflexivity|].
    rewrite <- Halpha. apply Hgrows; [discriminate|reflexivity|reflexivity].
  - destruct (C9_window_then_strict_threshold (fun _ => (50 # 255)%Q)
                Examples.defaults
                (Shader.scale Examples.inward (5 # 1000)) Examples.start Hw)
      as (nd&st'&Hnd&Hclamp&Hstep&_&_&_&Hdrop&_).
    exists st'. split; [exact Hstep|]. apply Hdrop.
    rewrite Hclamp. vm_compute. discriminate.
Defined.

(** C10. Every record stored by the parse loop (of dicom-parser.js and of
    dicom-parser-robust.js) holds exactly its rows x columns samples: when
    the file has at least that many samples the record keeps the first
    rows x columns of them; when it has fewer (and then more than 100) the
    record keeps them, converted by the [Uint8Array] that receives them,
    followed by zeros up to rows x columns. *)
Theorem C10_stored_record_holds_rows_times_columns_samples
    (parsed : list (string * Result DicomData)) (s : SliceRecord) :
  s ∈ DicomParser.collectSlices parsed
  \/ s ∈ DicomParserRobust.collectSlices parsed ->
  alength (sdata s) = srows s * scolumns s /\
  exists fileName d px,
    (fileName, Ok d) ∈ parsed /\ pixelData d = Some px /\
    srows s = rows d /\ scolumns s = columns d /\
    (rows d * columns d <= alength px ->
     sdata s = mkTypedArray (kind px) (take (rows d * columns d) (elems px))) /\
    (alength px < rows d * columns d ->
     100 < alength px /\
     sdata s
       = mkTypedArray Uint8Array
           ((wrap Uint8Array <$> elems px)
            ++ replicate (rows d * columns d - alength px) 0%Z)).
Proof.
  assert (forall inst fileName d px,
    (fileName, Ok d) ∈ parsed -> pixelData d = Some px ->
    rows d * columns d <= alength px \/ 100 < alength px ->
    s = Spec.pushed inst fileName d px ->
    alength (sdata s) = srows s * scolumns s /\
    exists fileName d px,
      (fileName, Ok d) ∈ parsed /\ pixelData d = Some px /\
      srows s = rows d /\ scolumns s = columns d /\
      (rows d * columns d <= alength px ->
       sdata s = mkTypedArray (kind px) (take (rows d * columns d) (elems px))) /\
      (alength px < rows d * columns d ->
       100 < alength px /\
       sdata s
         = mkTypedArray Uint8Array
             ((wrap Uint8Array <$> elems px)
              ++ replicate (rows d * columns d - alength px) 0%Z))) as Hpushed.
  { intros inst fileName d px Hin Hpx Hc ->. unfold Spec.pushed; simpl.
    split; [apply alength_storedData|].
    exists fileName, d, px. repeat (split; [done|]). split.
    - intros Hlong. by rewrite storedData_long.
    - intros Hshort. split; [lia|]. by rewrite storedData_short. }
  intros [Hs|Hs].
  - apply elem_of_collectSlices in Hs as (fileName&d&Hin&Ha).
    apply acceptSlice_Some in Ha as (px&Hpx&_&Hc&Heq). eauto.
  - apply robust_collectSlices_elem in Hs as (n&fileName&d&Hin&Ha).
    apply robust_acceptSlice_Some in Ha as (px&Hpx&_&Hc&Heq). eauto.
Qed.

Lemma C10_witness :
  (Examples.stored3 ∈ DicomParser.collectSlices Examples.batch1
   \/ Examples.stored3 ∈ DicomParserRobust.collectSlices Examples.batch1) /\
  alength (sdata Examples.stored3)
  = srows Examples.stored3 * scolumns Examples.stored3 /\
  sdata Examples.stored3 = mkTypedArray Uint8Array [5; 6; 7; 8]%Z.
Proof.
  assert (Examples.stored3 ∈ DicomParser.collectSlices Examples.batch1
          \/ Examples.stored3
             ∈ DicomParserRobust.collectSlices Examples.batch1) as H.
  { left.
    assert (DicomParser.collectSlices Examples.batch1
            = [Examples.stored1; Examples.stored3]) as ->
      by (vm_compute; reflexivity).
    right; left. }
  split; [exact H|]. split; [|reflexivity].
  exact (proj1 (C10_stored_record_holds_rows_times_columns_samples
                  Examples.batch1 Examples.stored3 H)).
Defined.

(** * Further properties of the parsers and of the sampler *)

(** X1. For every buffer, [parseDicom] of dicom-parser.js and [parseDicom]
    of dicom-parser-fixed.js return a record, and that record has no pixel
    data: the tag of an element is written with the lower-case digits of
    [toString(16)] and never equals ['7FE00010']. *)
Theorem X1_parseDicom_returns_no_pixel_data (buf : list byte) :
  (exists d, DicomParserParse.parseDicom buf = Some (Ok d)
             /\ pixelData d = None) /\
  (exists d, DicomParserFixed.parseDicom buf = Some (Ok d)
             /\ pixelData d = None) /\
  (forall group element,
     String.eqb (hex4 group ++ hex4 element) "7FE00010" = false).
Proof.
  split; [|split].
  - destruct (parseDicom_returns buf) as [d Hd]. exists d.
    split; [done|]. by apply (parseDicom_no_pixelData buf).
  - destruct (fixed_parseDicom_returns buf) as [d Hd]. exists d.
    split; [done|]. by apply (fixed_parseDicom_no_pixelData buf).
  - apply tag_never_PixelData.
Qed.

(** X2. [processDicomFolder] of dicom-parser-fixed.js assembles the records
    of its recovery pass and no others: they are numbered 0, 1, 2, ... in
    the order of the files, hold bytes, as many as their rows times
    columns, and are never normalised; without such a record the error on
    the empty batch is thrown. *)
Theorem X2_fixed_folder_assembles_its_recovery_pass
    (maxArguments : nat) (files : list File) :
  Props.numbered (DicomParserFixedFolder.recoveryPass files []) /\
  Forall Props.recovered (DicomParserFixedFolder.recoveryPass files []) /\
  DicomParserFixedFolder.processDicomFolder maxArguments files
  = Some
      match DicomParserFixedFolder.recoveryPass files [] with
      | [] => Throw "No valid DICOM files found with pixel data"
      | first :: rest =>
          Ok (mkVolume
                (assembled false false (first :: rest)
                   (srows first) (scolumns first))
                (scolumns first, srows first, S (length rest)))
      end.
Proof.
  destruct (recoveryPass_invariant files []) as [Hnumbered Hrecovered];
    [reflexivity|constructor|].
  split; [exact Hnumbered|]. split; [exact Hrecovered|].
  apply fixed_processDicomFolder_recovery.
Qed.

(** X3. [findPixelData] of dicom-parser-robust.js decides on the first
    position, below [byteLength - 12], whose four bytes are the tag
    (7FE0,0010): the region it returns lies inside the buffer and starts at
    least 8 bytes after the tag; it returns [null] exactly when no position
    carries the tag; and it throws exactly when the first tag stands 13
    bytes before the end with the value representation OB or OW and a
    16-bit length of 0. *)
Theorem X3_findPixelData_decides_on_the_first_tag (buf : list byte) :
  (forall info,
     DicomParserRobustParse.findPixelData buf = Some (Some info) ->
     exists i, (0 <= i < byteLength buf - 12)%Z /\
       Props.isPixelDataTag buf i = true /\
       (forall k, (0 <= k < i)%Z -> Props.isPixelDataTag buf k = false) /\
       DicomParserRobustParse.ivr info = DicomParserRobustParse.vrOf buf i /\
       (i + 8 <= DicomParserRobustParse.ioffset info)%Z /\
       (0 <= DicomParserRobustParse.ilength info)%Z /\
       (DicomParserRobustParse.ioffset info
        + DicomParserRobustParse.ilength info <= byteLength buf)%Z) /\
  (DicomParserRobustParse.findPixelData buf = Some None <->
   forall k, (0 <= k < byteLength buf - 12)%Z ->
             Props.isPixelDataTag buf k = false) /\
  (DicomParserRobustParse.findPixelData buf = None <->
   (0 <= byteLength buf - 13)%Z /\
   (forall k, (0 <= k < byteLength buf - 13)%Z ->
      Props.isPixelDataTag buf k = false) /\
   Props.isPixelDataTag buf (byteLength buf - 13) = true /\
   (DicomParserRobustParse.vrOf buf (byteLength buf - 13) = "OB"
    \/ DicomParserRobustParse.vrOf buf (byteLength buf - 13) = "OW")%string /\
   getUint16 buf (byteLength buf - 7) = Some 0%Z).
Proof.
  split; [apply findPixelData_inside|]. split; [|apply findPixelData_None].
  destruct (findPixelData_first buf) as [(j&Hj&Htag&_&Hfind)|[Hall Hfind]].
  - rewrite Hfind. split.
    + by destruct (DicomParserRobustParse.pixelDataAt buf j).
    + intros Hall. rewrite (Hall j Hj) in Htag. done.
  - rewrite Hfind. done.
Qed.

Lemma X3_witness :
  exists info i,
    DicomParserRobustParse.findPixelData (arrayBuffer Examples.ct16)
      = Some (Some info) /\
    i = 0%Z /\ DicomParserRobustParse.ioffset info = 10%Z /\
    DicomParserRobustParse.ilength info = 8%Z /\
    Props.isPixelDataTag (arrayBuffer Examples.ct16) i = true.
Proof.
  destruct (X3_findPixelData_decides_on_the_first_tag
              (arrayBuffer Examples.ct16)) as (Hinside&_&_).
  eexists _, _. split; [vm_compute; reflexivity|].
  match goal with
  | |- context [DicomParserRobustParse.ioffset ?info] =>
      destruct (Hinside info) as (i&Hi&Htag&Hfirst&_);
        [vm_compute; reflexivity|]
  end.
  assert (i = 0%Z) as ->.
  { destruct (decide (i = 0%Z)) as [|Hne]; [done|].
    assert (Props.isPixelDataTag (arrayBuffer Examples.ct16) 0 = false)
      as Hzero by (apply Hfirst; lia).
    vm_compute in Hzero. done. }
  split; [reflexivity|]. split; [reflexivity|]. split; [reflexivity|].
  exact Htag.
Defined.

(** X4. A record that [parseDicom] of dicom-parser-robust.js returns with
    pixel data has as many samples as its rows times its columns, so that
    [processDicomFolder] stores them as they are, neither cut nor padded;
    the parse throws only the RangeError of [findPixelData]. *)
Theorem X4_robust_parseDicom_dimensions_are_the_sample_count
    (buf : list byte) :
  (forall d px,
     DicomParserRobustParse.parseDicom buf = Ok d ->
     pixelData d = Some px ->
     rows d * columns d = alength px /\ Spec.storedData d px = px) /\
  (forall message,
     DicomParserRobustParse.parseDicom buf = Throw message ->
     message = "RangeError"%string /\
     DicomParserRobustParse.findPixelData buf = None) /\
  (DicomParserRobustParse.findPixelData buf <> None ->
   exists d, DicomParserRobustParse.parseDicom buf = Ok d).
Proof.
  split; [|split].
  - intros d px Hd Hpx.
    pose proof (parseDicom_dimensions buf d px Hd Hpx) as Hdim.
    split; [exact Hdim|]. unfold Spec.storedData.
    rewrite decide_True by lia. rewrite Hdim. apply slice0_all.
  - intros message. unfold DicomParserRobustParse.parseDicom.
    destruct (DicomParserRobustParse.parseDicomBody buf) eqn:E; [done|].
    intros [= <-]. split; [done|]. by apply parseDicomBody_None.
  - intros Hfind. unfold DicomParserRobustParse.parseDicom.
    destruct (DicomParserRobustParse.parseDicomBody buf) eqn:E; [eauto|].
    by apply parseDicomBody_None in E.
Qed.

Lemma X4_witness :
  exists d px,
    DicomParserRobustParse.parseDicom (arrayBuffer Examples.ct16) = Ok d /\
    pixelData d = Some px /\
    px = mkTypedArray Uint16Array [1000; 0; 300; 800]%Z /\
    rows d * columns d = alength px /\ Spec.storedData d px = px.
Proof.
  destruct (X4_robust_parseDicom_dimensions_are_the_sample_count
              (arrayBuffer Examples.ct16)) as (Hdim&_&_).
  eexists _, _. split; [vm_compute; reflexivity|].
  split; [reflexivity|]. split; [reflexivity|].
  apply Hdim; [vm_compute; reflexivity|reflexivity].
Defined.

(** X5. The last resort of dicom-parser-robust.js takes the first
    512 x 512 bytes of a file of at least that many bytes, else the first
    256 x 256 bytes of a file of at least that many, and no other size: the
    entries 1024 x 1024 and 512 x 256 of its list are never chosen. It
    stores one record of bytes for every file of at least 256 x 256
    bytes. *)
Theorem X5_last_resort_takes_512_or_256 (n : nat) (files : list File) :
  List.find (fun dim : nat * nat => bool_decide (dim.1 * dim.2 <= n))
    DicomParserRobust.commonDims
  = (if decide (512 * 512 <= n) then Some (512, 512)
     else if decide (256 * 256 <= n) then Some (256, 256)
     else None) /\
  length (DicomParserRobust.lastResort files [])
  = length (filter (fun f => 256 * 256 <= length (arrayBuffer f)) files) /\
  Forall (fun s => kind (sdata s) = Uint8Array)
    (DicomParserRobust.lastResort files []) /\
  Props.numbered (DicomParserRobust.lastResort files []).
Proof.
  split; [apply lastResort_find|].
  destruct (lastResort_acc files []) as [Hlen Hkind].
  split; [exact Hlen|]. split; [apply Hkind; constructor|].
  apply lastResort_numbered. reflexivity.
Qed.

(** X6. For an atlas built by [loadVolume] for a volume of [W] x [H] x [D]
    voxels, the texture coordinates at which [sampleVolume] reads for a
    position [pos] fall in the texel that [loadVolume] filled with the
    voxel of [pos]: slice [z], row [y], column [x], the floors of the
    clamped components times the sizes. The second read, of the next
    slice, is made only when the slice coordinate has a fractional part
    and the next slice exists, and falls in the texel of the same row and
    column of slice [z + 1]. *)
Theorem X6_sampleVolume_reads_the_texel_of_the_voxel
    (W H D : nat) (pos : Shader.vec3) :
  0 < W -> 0 < H -> 0 < D ->
  let spr := VolumeRenderer.ceilSqrt D in
  let rows := VolumeRenderer.ceilDiv D spr in
  let u := Sampler.renderUniforms
             (Some (VolumeRenderer.mkLayout (spr * W) (rows * H) D
                      (W, H, D))) in
  let z := Props.voxelOf D (Shader.vz pos) in
  let y := Props.voxelOf H (Shader.vy pos) in
  let x := Props.voxelOf W (Shader.vx pos) in
  z < D /\ y < H /\ x < W /\
  exists f, Sampler.fetches u.1 u.2 pos = Some f /\
    Props.texelOf (spr * W) (rows * H) (Sampler.uv f)
      = Spec.texelIndex W H spr z y x /\
    (Sampler.nextUv f = None
     <-> ~ ((0 < Sampler.sliceFrac f)%Q /\ z + 1 < D)) /\
    (forall next, Sampler.nextUv f = Some next ->
       z + 1 < D /\
       Props.texelOf (spr * W) (rows * H) next
         = Spec.texelIndex W H spr (z + 1) y x).
Proof.
  intros HW HH HD. lazy zeta.
  split; [by apply voxelOf_lt|]. split; [by apply voxelOf_lt|].
  split; [by apply voxelOf_lt|]. by apply fetches_atlas.
Qed.

Lemma X6_witness :
  0 < 2 /\ 0 < 1 /\ 0 < 3 /\
  exists f,
    Sampler.fetches
      (Sampler.renderUniforms
         (Some (VolumeRenderer.mkLayout 4 2 3 (2, 1, 3)))).1
      (Sampler.renderUniforms
         (Some (VolumeRenderer.mkLayout 4 2 3 (2, 1, 3)))).2
      Shader.rayOrigin = Some f /\
    Props.texelOf 4 2 (Sampler.uv f) = 3.
Proof.
  assert (0 < 2) as HW by lia. assert (0 < 1) as HH by lia.
  assert (0 < 3) as HD by lia.
  split; [exact HW|]. split; [exact HH|]. split; [exact HD|].
  destruct (X6_sampleVolume_reads_the_texel_of_the_voxel
              2 1 3 Shader.rayOrigin HW HH HD) as (_&_&_&f&Hf&Huv&_).
  exists f. split; [exact Hf|].
  change (Props.texelOf 4 2 (Sampler.uv f))
    with (Props.texelOf (VolumeRenderer.ceilSqrt 3 * 2)
            (VolumeRenderer.ceilDiv 3 (VolumeRenderer.ceilSqrt 3) * 1)
            (Sampler.uv f)).
  rewrite Huv. vm_compute. reflexivity.
Defined.

(** X7. After the copy loop of [processDicomFolder], voxel [i] of slice
    [z] of the volume is sample [i] of record [z] in sorted order,
    converted to the element type of the volume, or 0 when that record has
    no sample [i]. *)
Theorem X7_volume_holds_the_samples_of_its_slices
    (is16 signed : bool) (sorted : list SliceRecord) (rows cols z i : nat)
    (s : SliceRecord) :
  sorted !! z = Some s -> i < rows * cols ->
  kind (assembled is16 signed sorted rows cols)
  = (if is16 then if signed then Int16Array else Uint16Array
     else Uint8Array) /\
  elems (assembled is16 signed sorted rows cols) !! (z * (rows * cols) + i)
  = Some (if decide (i < alength (sdata s))
          then wrap (kind (assembled is16 signed sorted rows cols))
                 (load (sdata s) i)
          else 0%Z).
Proof.
  intros Hs Hi. split; [apply assembled_kind|by apply assembled_lookup].
Qed.

Lemma X7_witness :
  [Examples.stored3; Examples.stored1] !! 1 = Some Examples.stored1 /\
  2 < 2 * 2 /\
  elems (assembled false false [Examples.stored3; Examples.stored1] 2 2)
    !! 6 = Some 3%Z.
Proof.
  assert ([Examples.stored3; Examples.stored1] !! 1 = Some Examples.stored1)
    as Hs by reflexivity.
  assert (2 < 2 * 2) as Hi by (simpl; lia).
  split; [exact Hs|]. split; [exact Hi|].
  exact (proj2 (X7_volume_holds_the_samples_of_its_slices
                  false false [Examples.stored3; Examples.stored1]
                  2 2 1 2 Examples.stored1 Hs Hi)).
Defined.

(** X8. The normalisation of a 16-bit field sends every voxel equal to the
    minimum of the field to 0 and, when the field is not constant, every
    voxel equal to the maximum to 255, in the binary64 arithmetic of
    [Math.round(((v - min) / range) * 255)]. *)
Theorem X8_normalisation_sends_the_extrema_to_0_and_255
    (field : list Z) (k : ArrayKind) (i : nat) (v : Z) :
  is16BitKind k = true ->
  Forall (Props.inKind k) field ->
  field !! i = Some v ->
  (v = Spec.fieldMin field ->
   (normalizeVoxel (Spec.fieldMin field) (Spec.fieldRange field) <$> field)
     !! i = Some 0%Z) /\
  (v = Spec.fieldMax field -> Spec.fieldMax field <> Spec.fieldMin field ->
   (normalizeVoxel (Spec.fieldMin field) (Spec.fieldRange field) <$> field)
     !! i = Some 255%Z).
Proof. apply normalize_endpoints. Qed.

Lemma X8_witness :
  is16BitKind Uint16Array = true /\
  Forall (Props.inKind Uint16Array) [1000; 0; 300; 800]%Z /\
  [1000; 0; 300; 800]%Z !! 1 = Some 0%Z /\
  (normalizeVoxel 0 1000 <$> [1000; 0; 300; 800]%Z) !! 1 = Some 0%Z.
Proof.
  assert (Forall (Props.inKind Uint16Array) [1000; 0; 300; 800]%Z) as Hin
    by (repeat constructor).
  split; [reflexivity|]. split; [exact Hin|]. split; [reflexivity|].
  exact (proj1 (X8_normalisation_sends_the_extrema_to_0_and_255
                  [1000; 0; 300; 800]%Z Uint16Array 1 0%Z
                  eq_refl Hin eq_refl) eq_refl).
Defined.
